(** * liby: the lexer, parser, forest and path queries of [src/liby/y.c]

    A shallow embedding of the C code.  Bytes, cursors and offsets are
    integers; a pointer into a unit's buffer is its offset from [data];
    sibling chains ([next] links) are lists; [exit(1)] inside [fatal_at] and
    the behaviours C leaves undefined are explicit outcomes.

    What the code takes from outside [y.c] is taken as the code uses it: the
    buffer [fs_read] returns and the path given to [y_find] end in a zero
    byte; [allocate] returns zero-filled blocks; [isalpha] and [isdigit] are
    those of the C locale.  An [int] cursor is not wrapped: buffers are
    shorter than [2^31] bytes.  The value of a decimal is kept as the text
    [strtod] converts; an [f64] is an IEEE 754 double, rounded to nearest,
    and a null pointer is all zero bits.  The conversions of [fprintf] are
    those of the C standard, and a message is the bytes [vfprintf] makes of
    its format.

    [y_create] returns its context by value, so the [heads] of the context
    the caller holds is the address of a [root] that is gone with the frame
    of [y_create].  A read through it is an undefined outcome; the store the
    first [y_load] makes through it is followed to where it lands, in that
    dead [root], and the load goes on as the code does. *)

From Stdlib Require Import ZArith List String Ascii Bool Lia.
Import ListNotations.
Local Open Scope Z_scope.
Set Warnings "-register-all".

(** ** Source spans *)

(** A [char *] into the buffer: null, or an offset from [data]. *)
Definition ptr : Type := option Z.

Record source_t : Type := mk_source
  { src_line : Z;
    src_start : ptr;
    src_begin : ptr;
    src_end : ptr }.

(** ** Outcomes *)

(** The messages handed to [fatal_at]. *)
Inductive fatal_msg : Type :=
| Strings_can_not_contain_a_new_line
| Duplicate_decimal_in_number
| Unknown_character (c : Z)
| Expected_token (kind received : Z)
| Expecting_ending_to_node_list.

(** What the C standard leaves undefined and the code can reach. *)
Inductive undefined_behaviour : Type :=
| Out_of_bounds (offset : Z)   (* a read past the buffer's terminator *)
| Wild_pointer                 (* a scalar's bytes used as a node pointer *)
| Dangling_pointer             (* a read through [heads] of a new context *)
| No_return_value              (* control reaches the end of [y_find] *)
| Out_of_fuel.                 (* the model's loop bound, never reached *)

(** A run returns, or stops the process in [fatal_at] with the span and the
    message it prints, or leaves what C defines. *)
Inductive result (A : Type) : Type :=
| Ok (a : A)
| Fatal (at_source : source_t) (msg : fatal_msg)
| Undefined (ub : undefined_behaviour).

Arguments Ok {A} a.
Arguments Fatal {A} at_source msg.
Arguments Undefined {A} ub.

Definition bind {A B : Type} (r : result A) (k : A -> result B) : result B :=
  match r with
  | Ok a => k a
  | Fatal l m => Fatal l m
  | Undefined ub => Undefined ub
  end.

Notation "'let*' x ':=' e 'in' k" := (bind e (fun x => k))
  (at level 10, x pattern, e at level 100, k at level 200).

(** The value of a run that returned. *)
Definition returned {A : Type} (default : A) (r : result A) : A :=
  match r with
  | Ok a => a
  | _ => default
  end.

(** ** Bytes *)

Definition bytes (s : string) : list Z :=
  map (fun a => Z.of_N (N_of_ascii a)) (list_ascii_of_string s).

Arguments bytes s%_string.

Definition isalpha (c : Z) : bool :=
  ((65 <=? c) && (c <=? 90)) || ((97 <=? c) && (c <=? 122)).

Definition isdigit (c : Z) : bool := (48 <=? c) && (c <=? 57).

(** ** The data model of [y.h] *)

Inductive y_kind : Type := Y_NONE | Y_NODE | Y_STRING | Y_INTEGER | Y_DECIMAL.

Definition y_kind_eqb (a b : y_kind) : bool :=
  match a, b with
  | Y_NONE, Y_NONE | Y_NODE, Y_NODE | Y_STRING, Y_STRING
  | Y_INTEGER, Y_INTEGER | Y_DECIMAL, Y_DECIMAL => true
  | _, _ => false
  end.

(** A [string_t] is a pointer and a length into some unit's buffer.  The model
    carries the bytes in view, so the [length] field is the list's length. *)
Definition string_t : Type := list Z.

(** The anonymous union of [y_value_t], by the member last written;
    [U_zero] is the zero-filled union nothing was written to.  A decimal
    keeps the text [strtod] converts. *)
Inductive y_union (node : Type) : Type :=
| U_zero
| U_node (list_head : list node)
| U_string (s : string_t)
| U_integer (n : Z)
| U_decimal (text : list Z).

Arguments U_zero {node}.
Arguments U_node {node} list_head.
Arguments U_string {node} s.
Arguments U_integer {node} n.
Arguments U_decimal {node} text.

Record y_value (node : Type) : Type := mk_value
  { val_kind : y_kind;
    val_un : y_union node }.

Arguments mk_value {node} val_kind val_un.
Arguments val_kind {node} y.
Arguments val_un {node} y.

Record y_note_t : Type := mk_note { note_name : string_t }.

(** [next] is the rest of the list the node sits in; [parent] is not kept. *)
Inductive y_node_t : Type := mk_node
  { node_name : string_t;
    node_note : list y_note_t;
    node_value : y_value y_node_t }.

Definition y_value_t : Type := y_value y_node_t.

Definition value_zero : y_value_t := mk_value Y_NONE U_zero.

(** [allocate] is taken to hand out zero-filled blocks: the parser never
    writes a list's last [next] link nor the kind of a bare name. *)
Definition node_zero : y_node_t := mk_node [] [] value_zero.

(** Reading member [string]; tokens of kind TEXT and STRING hold it. *)
Definition value_string (v : y_value_t) : string_t :=
  match val_un v with
  | U_string s => s
  | _ => []
  end.

(** ** Tokens and units *)

(** [enum token]; the lexer also stores the characters [{], [}] and [@]
    themselves in a token's kind, so a kind is an integer. *)
Definition TOKEN_NONE : Z := 0.
Definition TOKEN_TEXT : Z := 1.
Definition TOKEN_NUMBER : Z := 2.
Definition TOKEN_STRING : Z := 3.
Definition TOKEN_DOT : Z := 4.
Definition TOKEN_NOTE : Z := 5.
Definition TOKEN_OPEN : Z := 6.
Definition TOKEN_CLOSE : Z := 7.

Definition ch_newline : Z := 10.
Definition ch_tab : Z := 9.
Definition ch_space : Z := 32.
Definition ch_quote : Z := 34.
Definition ch_dot : Z := 46.
Definition ch_slash : Z := 47.
Definition ch_at : Z := 64.
Definition ch_underscore : Z := 95.
Definition ch_open : Z := 123.
Definition ch_close : Z := 125.

Record token_t : Type := mk_token
  { tok_kind : Z;
    tok_source : source_t;
    tok_value : y_value_t }.

Definition token_zero : token_t :=
  mk_token 0 (mk_source 0 None None None) value_zero.

Record unit_t : Type := mk_unit
  { unit_data : list Z;
    unit_start : ptr;
    unit_length : Z;
    unit_cursor : Z;
    unit_line : Z;
    unit_previous : token_t;
    unit_current : token_t }.

Definition set_cursor (u : unit_t) (c : Z) : unit_t :=
  mk_unit (unit_data u) (unit_start u) (unit_length u) c (unit_line u)
          (unit_previous u) (unit_current u).

Definition set_data (u : unit_t) (d : list Z) : unit_t :=
  mk_unit d (unit_start u) (unit_length u) (unit_cursor u) (unit_line u)
          (unit_previous u) (unit_current u).

Definition set_line (u : unit_t) (l : Z) (s : ptr) : unit_t :=
  mk_unit (unit_data u) s (unit_length u) (unit_cursor u) l
          (unit_previous u) (unit_current u).

Definition set_tokens (u : unit_t) (p c : token_t) : unit_t :=
  mk_unit (unit_data u) (unit_start u) (unit_length u) (unit_cursor u)
          (unit_line u) p c.

(** ** Memory *)

Definition buffer_size (u : unit_t) : Z := Z.of_nat (List.length (unit_data u)).

(** [*(data + i)]: the buffer's bytes, then its terminating zero; anything
    else is outside the object. *)
Definition deref (u : unit_t) (i : Z) : result Z :=
  if i <? 0 then Undefined (Out_of_bounds i)
  else match nth_error (unit_data u) (Z.to_nat i) with
       | Some c => Ok c
       | None => if i =? buffer_size u then Ok 0 else Undefined (Out_of_bounds i)
       end.

Fixpoint store_at (d : list Z) (i : nat) (c : Z) : list Z :=
  match d, i with
  | [], _ => []
  | _ :: t, O => c :: t
  | h :: t, S j => h :: store_at t j c
  end.

(** [*(data + i) = c] for a [char]. *)
Definition store (u : unit_t) (i : Z) (c : Z) : unit_t :=
  set_data u (store_at (unit_data u) (Z.to_nat i) (c mod 256)).

(** Bound of the scanning loops: they advance the cursor at every turn and
    stop at the terminator or outside the buffer. *)
Definition scan_fuel (u : unit_t) : nat := List.length (unit_data u) + 3.

(** The bytes of [data] in [begin, end). *)
Definition slice (d : list Z) (b e : Z) : list Z :=
  firstn (Z.to_nat (e - b)) (skipn (Z.to_nat b) d).

(** ** The lexer *)

(** [while ( *ch && *ch != '\n') ch = (unit->data + unit->cursor++);] *)
Fixpoint raw_skip (fuel : nat) (u : unit_t) (ch : Z) : result (Z * unit_t) :=
  match fuel with
  | O => Undefined Out_of_fuel
  | S fuel' =>
      let* c := deref u ch in
      if (c =? 0) || (c =? ch_newline) then Ok (ch, u)
      else raw_skip fuel' (set_cursor u (unit_cursor u + 1)) (unit_cursor u)
  end.

(** [raw]: the byte under the cursor, which moves on.  At [//] the statement
    [*ch += 2] adds two to the byte [ch] points at, and the loop then runs the
    cursor to the end of the line. *)
Definition raw (u : unit_t) : result (Z * unit_t) :=
  let ch := unit_cursor u in
  let u := set_cursor u (unit_cursor u + 1) in
  let* c := deref u ch in
  if c =? ch_slash then
    let* c1 := deref u (ch + 1) in
    if c1 =? ch_slash then
      let u := store u ch (c + 2) in
      raw_skip (scan_fuel u) u ch
    else Ok (ch, u)
  else Ok (ch, u).

(** [next]: the first byte that is no blank; a newline counts a line. *)
Fixpoint next_from (fuel : nat) (u : unit_t) : result (Z * unit_t) :=
  match fuel with
  | O => Undefined Out_of_fuel
  | S fuel' =>
      let* (ch, u) := raw u in
      let* c := deref u ch in
      if c =? ch_newline then
        next_from fuel' (set_line u (unit_line u + 1) (Some (ch + 1)))
      else if (c =? ch_tab) || (c =? ch_space) then next_from fuel' u
      else Ok (ch, u)
  end.

Definition next (u : unit_t) : result (Z * unit_t) := next_from (scan_fuel u) u.

Definition source (u : unit_t) (b e : ptr) : source_t :=
  mk_source (unit_line u) (unit_start u) b e.

(** [token_new]; the value of the other kinds is left as it was declared and
    is never read. *)
Definition token_new (u : unit_t) (kind : Z) (b e : ptr) : token_t :=
  let value :=
    if (kind =? TOKEN_TEXT) || (kind =? TOKEN_STRING) then
      match b, e with
      | Some b, Some e => mk_value Y_STRING (U_string (slice (unit_data u) b e))
      | _, _ => mk_value Y_STRING (U_string [])
      end
    else value_zero in
  mk_token kind (source u b e) value.

Fixpoint token_string_scan (fuel : nat) (u : unit_t) : result (Z * unit_t) :=
  match fuel with
  | O => Undefined Out_of_fuel
  | S fuel' =>
      let* (ch, u) := raw u in
      let* c := deref u ch in
      if c =? ch_quote then Ok (ch, u)
      else if c =? ch_newline then
        Fatal (source u (Some ch) (Some (ch + 1))) Strings_can_not_contain_a_new_line
      else token_string_scan fuel' u
  end.

Definition token_string (u : unit_t) (b : Z) : result (token_t * unit_t) :=
  let* (ch, u) := token_string_scan (scan_fuel u) u in
  Ok (token_new u TOKEN_STRING (Some (b + 1)) (Some ch), u).

Definition is_text_char (c : Z) : bool :=
  isalpha c || isdigit c || (c =? ch_underscore).

Fixpoint token_text_scan (fuel : nat) (u : unit_t) (ch : Z) : result unit_t :=
  match fuel with
  | O => Undefined Out_of_fuel
  | S fuel' =>
      let* c := deref u ch in
      if is_text_char c then
        let* (ch, u) := raw u in token_text_scan fuel' u ch
      else Ok u
  end.

Definition token_text (u : unit_t) (b : Z) : result (token_t * unit_t) :=
  let* u := token_text_scan (scan_fuel u) u b in
  let u := set_cursor u (unit_cursor u - 1) in
  Ok (token_new u TOKEN_TEXT (Some b) (Some (unit_cursor u)), u).

Definition is_number_char (c : Z) : bool :=
  isdigit c || (c =? ch_underscore) || (c =? ch_dot).

Fixpoint token_number_scan (fuel : nat) (u : unit_t) (ch : Z) (number : y_kind)
  : result (y_kind * unit_t) :=
  match fuel with
  | O => Undefined Out_of_fuel
  | S fuel' =>
      let* c := deref u ch in
      if is_number_char c then
        let* (ch, u) := raw u in
        let* c := deref u ch in
        if c =? ch_dot then
          if y_kind_eqb number Y_DECIMAL then
            Fatal (source u (Some ch) (Some (ch + 1))) Duplicate_decimal_in_number
          else token_number_scan fuel' u ch Y_DECIMAL
        else token_number_scan fuel' u ch number
      else Ok (number, u)
  end.

(** The longest run of decimal digits a C string starts with. *)
Fixpoint digit_run (s : list Z) : list Z :=
  match s with
  | c :: t => if isdigit c then c :: digit_run t else []
  | [] => []
  end.

Definition decimal_value (digits : list Z) : Z :=
  fold_left (fun acc c => 10 * acc + (c - 48)) digits 0.

Definition ULLONG_MAX : Z := 2 ^ 64 - 1.

(** [strtoull(s, &end, 10)] on a string that starts with a digit: the value of
    the digit run, [ULLONG_MAX] when it does not fit, and how many bytes were
    converted. *)
Definition strtoull (s : list Z) : Z * Z :=
  let digits := digit_run s in
  (Z.min (decimal_value digits) ULLONG_MAX, Z.of_nat (List.length digits)).

(** The text [strtod] converts on a string that starts with a digit: digits,
    a fraction, and an exponent when it has a digit. *)
Definition strtod_text (s : list Z) : list Z :=
  let int_part := digit_run s in
  let rest := skipn (List.length int_part) s in
  let fraction :=
    match rest with
    | c :: t => if c =? ch_dot then c :: digit_run t else []
    | [] => []
    end in
  let rest := skipn (List.length fraction) rest in
  let exponent :=
    match rest with
    | e :: t =>
        if (e =? 101) || (e =? 69) then
          match t with
          | sign :: t' =>
              if (sign =? 43) || (sign =? 45) then
                match digit_run t' with
                | [] => []
                | ds => e :: sign :: ds
                end
              else match digit_run t with
                   | [] => []
                   | ds => e :: ds
                   end
          | [] => []
          end
        else []
    | [] => []
    end in
  int_part ++ fraction ++ exponent.

(** A node pointer as [y_find] holds it: the chain of nodes it leads to (null
    is the empty chain), bytes that never were a node pointer, or the address
    of the [root] that [y_create] had in its frame. *)
Inductive node_ptr : Type :=
| Chain (nodes : list y_node_t)
| Punned
| Dangling.

(** The digits of a decimal text, and the power of ten they are scaled by:
    the exponent less the number of digits of the fraction. *)
Definition decimal_digits (text : list Z) : list Z * Z :=
  let int_part := digit_run text in
  let rest := skipn (List.length int_part) text in
  let fraction :=
    match rest with
    | c :: t => if c =? ch_dot then digit_run t else []
    | [] => []
    end in
  let rest :=
    match rest with
    | c :: t => if c =? ch_dot then skipn (List.length fraction) t else rest
    | [] => []
    end in
  let exponent :=
    match rest with
    | _ :: sign :: ds =>
        if sign =? 45 then - decimal_value ds
        else if sign =? 43 then decimal_value ds
        else decimal_value (sign :: ds)
    | _ => 0
    end in
  (int_part ++ fraction, exponent - Z.of_nat (List.length fraction)).

(** Whether the double [strtod] makes of a text is [+0.0], the double whose
    bits are all zero: the digits are zeros, or the value is no more than
    [2^-1075], half the least double above zero, and is rounded to zero. *)
Definition decimal_is_zero (text : list Z) : bool :=
  let '(digits, scale) := decimal_digits text in
  let m := decimal_value digits in
  (m =? 0) || ((scale <? 0) && (m * 2 ^ 1075 <=? 10 ^ (- scale))).

(** Reading member [node] of the union, whatever member was written. *)
Definition value_node (v : y_value_t) : node_ptr :=
  match val_un v with
  | U_zero => Chain []
  | U_node l => Chain l
  | U_integer n => if n =? 0 then Chain [] else Punned
  | U_string _ => Punned
  | U_decimal text => if decimal_is_zero text then Chain [] else Punned
  end.

Definition token_number (u : unit_t) (b : Z) : result (token_t * unit_t) :=
  let* (number, u) := token_number_scan (scan_fuel u) u b Y_INTEGER in
  let u := set_cursor u (unit_cursor u - 1) in
  let token := token_new u TOKEN_NUMBER (Some b) (Some (unit_cursor u)) in
  let text := skipn (Z.to_nat b) (unit_data u) in
  match number with
  | Y_INTEGER =>
      let '(n, len) := strtoull text in
      Ok (mk_token (tok_kind token) (source u (Some b) (Some (b + len)))
                   (mk_value Y_INTEGER (U_integer n)), u)
  | Y_DECIMAL =>
      let d := strtod_text text in
      Ok (mk_token (tok_kind token)
                   (source u (Some b) (Some (b + Z.of_nat (List.length d))))
                   (mk_value Y_DECIMAL (U_decimal d)), u)
  | _ => Ok (mk_token (tok_kind token) (tok_source token)
                      (mk_value number (val_un (tok_value token))), u)
  end.

Definition lex_token (u : unit_t) : result (token_t * unit_t) :=
  if unit_cursor u >? unit_length u then Ok (token_new u TOKEN_NONE None None, u)
  else
    let* (ch, u) := next u in
    let* c := deref u ch in
    if c =? 0 then Ok (token_new u TOKEN_NONE (Some ch) (Some ch), u)
    else if (c =? ch_open) || (c =? ch_close) || (c =? ch_at) then
      Ok (token_new u c (Some ch) (Some (ch + 1)), u)
    else if c =? ch_quote then token_string u ch
    else if isalpha c || (c =? ch_underscore) then token_text u ch
    else if isdigit c then token_number u ch
    else Fatal (source u (Some ch) (Some (ch + 1))) (Unknown_character c).

Definition lex_next (u : unit_t) : result (token_t * unit_t) :=
  let u := set_tokens u (unit_current u) (unit_current u) in
  let* (t, u) := lex_token u in
  Ok (t, set_tokens u (unit_previous u) t).

(** [token_eat] returns [&unit->previous]: the token just left behind. *)
Definition token_eat (u : unit_t) : result (token_t * unit_t) :=
  let* (_, u) := lex_next u in
  Ok (unit_previous u, u).

Definition token_expect (u : unit_t) (kind : Z) : result (token_t * unit_t) :=
  if tok_kind (unit_current u) =? kind then token_eat u
  else Fatal (tok_source (unit_current u))
             (Expected_token kind (tok_kind (unit_current u))).

Definition token_consume (u : unit_t) (kind : Z)
  : result (option token_t * unit_t) :=
  if tok_kind (unit_current u) =? kind then
    let* (t, u) := token_eat u in Ok (Some t, u)
  else Ok (None, u).

(** ** The parser *)

(** [parse_note]: the names after each [@], appended in turn. *)
Fixpoint parse_note (fuel : nat) (u : unit_t) : result (list y_note_t * unit_t) :=
  match fuel with
  | O => Undefined Out_of_fuel
  | S fuel' =>
      let* (at_sign, u) := token_consume u ch_at in
      match at_sign with
      | Some _ =>
          let* (name, u) := token_expect u TOKEN_TEXT in
          let* (rest, u) := parse_note fuel' u in
          Ok (mk_note (value_string (tok_value name)) :: rest, u)
      | None => Ok ([], u)
      end
  end.

(** [parse_node], and under it the loop that fills a node list up to its
    closing brace. *)
Fixpoint parse_node (fuel : nat) (u : unit_t) : result (y_node_t * unit_t) :=
  match fuel with
  | O => Undefined Out_of_fuel
  | S fuel' =>
      let* (name, u) := token_expect u TOKEN_TEXT in
      let name := value_string (tok_value name) in
      let* (value, u) :=
        let* (open, u) := token_consume u ch_open in
        match open with
        | Some _ =>
            let* (children, u) := parse_list fuel' u in
            Ok (mk_value Y_NODE (U_node children), u)
        | None =>
            let* (temp, u) := token_consume u TOKEN_NUMBER in
            match temp with
            | Some temp => Ok (tok_value temp, u)
            | None =>
                let* (temp, u) := token_consume u TOKEN_STRING in
                match temp with
                | Some temp => Ok (tok_value temp, u)
                | None => Ok (value_zero, u)
                end
            end
        end in
      let* (note, u) := parse_note (scan_fuel u) u in
      Ok (mk_node name note value, u)
  end
with parse_list (fuel : nat) (u : unit_t) : result (list y_node_t * unit_t) :=
  match fuel with
  | O => Undefined Out_of_fuel
  | S fuel' =>
      let* (close, u) := token_consume u ch_close in
      match close with
      | Some _ => Ok ([], u)
      | None =>
          let* (temp, u) := token_consume u TOKEN_NONE in
          match temp with
          | Some temp => Fatal (tok_source temp) Expecting_ending_to_node_list
          | None =>
              let* (child, u) := parse_node fuel' u in
              let* (rest, u) := parse_list fuel' u in
              Ok (child :: rest, u)
          end
      end
  end.

(** Every call of [parse_node] and every turn of its loop eats a token. *)
Definition parse_fuel (u : unit_t) : nat := 2 * List.length (unit_data u) + 4.

Definition parse_unit (u : unit_t) : result (y_node_t * unit_t) :=
  let* (node, u) := parse_node (parse_fuel u) u in
  let* (_, u) := token_expect u TOKEN_NONE in
  Ok (node, u).

(** ** Contexts *)

(** Where [heads] points: at the [root] that [y_create] had in its frame,
    which is gone once [y_create] has returned, or at a root that was
    loaded, counted in the chain of the loaded roots. *)
Inductive heads_t : Type :=
| Dead_root
| Loaded (i : nat).

(** A context as its caller holds it.  [root] is the copy [y_create]
    returned, which no code reads or writes again: its [next] stays null.
    [loaded] is the chain the [next] links make from the root loaded first.
    [dead_next] is [next] of the dead [root], where the store of the first
    [y_load] lands. *)
Record yctx_t : Type := mk_ctx
  { ctx_root : y_node_t;
    ctx_loaded : list y_node_t;
    ctx_heads : heads_t;
    ctx_units : list unit_t;
    ctx_dead_next : list y_node_t }.

(** [y_create]: the zero context, [heads] set to the address of the local
    [root], and that context copied out to the caller. *)
Definition y_create : yctx_t := mk_ctx node_zero [] Dead_root [] [].

(** The pointer [y->heads] as [y_find] takes it. *)
Definition heads_node (y : yctx_t) : node_ptr :=
  match ctx_heads y with
  | Dead_root => Dangling
  | Loaded i => Chain (skipn i (ctx_loaded y))
  end.

(** The nodes of the context [for (it = p; it; it = it->next)] visits from
    place [p]; none of them when [p] is the dead [root]. *)
Definition chain_from (y : yctx_t) (p : heads_t) : list y_node_t :=
  match p with
  | Dead_root => []
  | Loaded i => skipn i (ctx_loaded y)
  end.

(** [p->next = head] for a loaded root [p] and a new [head], whose own
    [next] is null. *)
Definition link_after (y : yctx_t) (p : nat) (head : y_node_t) : list y_node_t :=
  firstn (S p) (ctx_loaded y) ++ [head].

(** [y->heads = y->heads->next = head]: the store into [next] of the node
    [heads] points to, the dead [root] on the first load, and [heads] moved
    to [head]. *)
Definition link_head (y : yctx_t) (head : y_node_t) (units : list unit_t) : yctx_t :=
  match ctx_heads y with
  | Dead_root => mk_ctx (ctx_root y) [head] (Loaded 0) units [head]
  | Loaded i =>
      mk_ctx (ctx_root y) (link_after y i head) (Loaded (S i)) units (ctx_dead_next y)
  end.

(** The unit [y_load] sets up over the bytes [fs_read] returns, which end in
    a zero: [start] is [data], all else is zero. *)
Definition unit_of_file (file : list Z) : unit_t :=
  mk_unit file (Some 0) (Z.of_nat (List.length file)) 0 0 token_zero token_zero.

Definition y_load (y : yctx_t) (file : list Z) : result (y_node_t * yctx_t) :=
  let unit := unit_of_file file in
  let* (_, unit) := lex_next unit in
  let* (head, unit) := parse_unit unit in
  Ok (head, link_head y head (ctx_units y ++ [unit])).

Fixpoint strlen (s : list Z) : Z :=
  match s with
  | [] => 0
  | c :: t => if c =? 0 then 0 else 1 + strlen t
  end.

(** [strncmp(a, b, n)]; a view that ends early reads as ended. *)
Fixpoint strncmp (a b : list Z) (n : nat) : Z :=
  match n with
  | O => 0
  | S n' =>
      let ca := hd 0 a in
      let cb := hd 0 b in
      if ca =? cb then
        if ca =? 0 then 0 else strncmp (tl a) (tl b) n'
      else ca - cb
  end.

Definition string_length (s : string_t) : Z := Z.of_nat (List.length s).

(** The test inside the [for] loop of [y_find]. *)
Definition name_matches (segment : string_t) (it : y_node_t) : bool :=
  (string_length segment =? string_length (node_name it))
  && (strncmp segment (node_name it) (List.length (node_name it)) =? 0).

(** What one turn of the [while] loop of [y_find] ends in. *)
Fixpoint y_find_scan (segment : string_t) (chain : list y_node_t) : option y_node_t :=
  match chain with
  | [] => None
  | it :: rest => if name_matches segment it then Some it else y_find_scan segment rest
  end.

Fixpoint y_find_loop (fuel : nat) (u : unit_t) (current : node_ptr)
  : result (option y_node_t * unit_t) :=
  match fuel with
  | O => Undefined Out_of_fuel
  | S fuel' =>
      let* (temp, u) := token_consume u TOKEN_TEXT in
      match temp with
      | None => Undefined No_return_value
      | Some temp =>
          match current with
          | Punned => Undefined Wild_pointer
          | Dangling => Undefined Dangling_pointer
          | Chain chain =>
              match y_find_scan (value_string (tok_value temp)) chain with
              | Some it =>
                  if tok_kind (unit_current u) =? TOKEN_NONE then Ok (Some it, u)
                  else y_find_loop fuel' u (value_node (node_value it))
              | None => Ok (None, u)
              end
          end
      end
  end.

(** The unit [y_find] sets up over its path. *)
Definition unit_of_path (path : list Z) : unit_t :=
  mk_unit path None (strlen path) 0 0 token_zero token_zero.

(** [y_find] with the local unit it ends with. *)
Definition y_find_run (y : yctx_t) (path : list Z) : result (option y_node_t * unit_t) :=
  let unit := unit_of_path path in
  let current := heads_node y in
  let* (_, unit) := lex_next unit in
  y_find_loop (scan_fuel unit) unit current.

Definition y_find (y : yctx_t) (path : list Z) : result (option y_node_t) :=
  let* (found, _) := y_find_run y path in Ok found.




(** ** Messages *)

Definition C_FATAL : list Z := 27 :: bytes "[1;31m".
Definition C_RESET : list Z := 27 :: bytes "[0m".

(** What a run has written to the two streams it prints to. *)
Record output : Type := mk_output
  { to_stdout : list Z;
    to_stderr : list Z }.

Definition write_stderr (o : output) (s : list Z) : output :=
  mk_output (to_stdout o) (to_stderr o ++ s).

Definition ptr_eqb (a b : ptr) : bool :=
  match a, b with
  | Some a, Some b => a =? b
  | None, None => true
  | _, _ => false
  end.

(** [end - begin]: defined between two pointers into the buffer. *)
Definition ptr_diff (a b : ptr) : option Z :=
  match a, b with
  | Some a, Some b => Some (a - b)
  | _, _ => None
  end.

(** [%d] of an [int]. *)
Fixpoint digits_from (fuel : nat) (n : Z) (acc : list Z) : list Z :=
  match fuel with
  | O => acc
  | S fuel' =>
      let acc := (48 + n mod 10) :: acc in
      if n / 10 =? 0 then acc else digits_from fuel' (n / 10) acc
  end.

Definition print_d (n : Z) : list Z :=
  if n <? 0 then 45 :: digits_from 10 (- n) [] else digits_from 10 n [].

(** [%*d] and [%*s]: blanks in front, up to the width. *)
Definition pad (width : nat) (s : list Z) : list Z :=
  repeat ch_space (width - List.length s) ++ s.

(** The loop of [msg_line]: the bytes of the line from [ch] on, the colour
    put before the byte at [begin] and taken back behind the byte before
    [end]. *)
Fixpoint msg_line_from (fuel : nat) (u : unit_t) (ch : Z) (col : list Z) (b e : ptr)
  : option (list Z) :=
  match fuel with
  | O => None
  | S fuel' =>
      match deref u ch with
      | Ok c =>
          if c =? 0 then Some []
          else if c =? ch_newline then Some []
          else
            match msg_line_from fuel' u (ch + 1) col b e with
            | Some rest =>
                Some ((if ptr_eqb (Some ch) b then col else [])
                        ++ [c]
                        ++ (if ptr_eqb (Some (ch + 1)) e then C_RESET else [])
                        ++ rest)
            | None => None
            end
      | _ => None
      end
  end.

Definition msg_line (u : unit_t) (ch : ptr) (col : list Z) (b e : ptr) (o : output)
  : option output :=
  match ch with
  | None =>
      Some (mk_output (to_stdout o ++ bytes "Invalid line." ++ [ch_newline])
                      (to_stderr o))
  | Some ch =>
      match msg_line_from (scan_fuel u) u ch col b e with
      | Some line => Some (write_stderr o (line ++ [ch_newline] ++ C_RESET))
      | None => None
      end
  end.

(** [while (length--) fputc('^', stderr);] then a blank.  From a length
    below zero the count runs down past the least [int], which C leaves
    undefined. *)
Fixpoint carets (n : nat) : list Z :=
  match n with
  | O => []
  | S n' => 94 :: carets n'
  end.

Definition msg_underline (length : Z) : option (list Z) :=
  if length <? 0 then None else Some (carets (Z.to_nat length) ++ [ch_space]).

(** [msg], with the text [vfprintf] makes of the format and its arguments.
    A line number or a width that is no [int] is no argument for [%*d] and
    [%*s]. *)
Definition msg (u : unit_t) (s : source_t) (col text : list Z) (o : output)
  : option output :=
  let padding := 4%nat in
  match ptr_diff (src_begin s) (src_start s), ptr_diff (src_end s) (src_begin s) with
  | Some base, Some length =>
      let base := base mod 2 ^ 32 in
      if (src_line s <? 0) || (2 ^ 31 <=? src_line s) || (2 ^ 31 <=? base) then None
      else
        let o := write_stderr o (pad padding (print_d (src_line s)) ++ bytes " | ") in
        match msg_line u (src_start s) col (src_begin s) (src_end s) o with
        | Some o =>
            let o := write_stderr o (pad padding [] ++ bytes " | "
                                       ++ pad (Z.to_nat base) []) in
            match msg_underline length with
            | Some underline => Some (write_stderr o (underline ++ text ++ [ch_newline]))
            | None => None
            end
        | None => None
        end
  | _, _ => None
  end.

(** [fatal_at] up to its [exit(1)]. *)
Definition fatal_at (u : unit_t) (s : source_t) (text : list Z) (o : output)
  : option output :=
  match ptr_diff (src_begin s) (src_start s) with
  | Some column =>
      if (src_line s <? 0) || (2 ^ 31 <=? src_line s) then None
      else
        let o := write_stderr o (bytes "liby " ++ C_FATAL ++ bytes "fatal" ++ C_RESET
                                   ++ bytes " " ++ print_d (src_line s) ++ bytes ":"
                                   ++ print_d column ++ bytes ":" ++ [ch_newline]) in
        msg u s C_FATAL text o
  | None => None
  end.

(** ** Iteration *)

(** What a call of [y_iter] leaves: the pointer it returns and [*iter], a
    node pointer being the chain of nodes it leads to (null is the empty
    chain, [p->next] the chain behind the first node); or the read of [next]
    through a null pointer. *)
Inductive iterated : Type :=
| Iterated (node iter : list y_node_t)
| Null_dereference.

Definition y_iter (begin iter : list y_node_t) : iterated :=
  let iter := match iter with [] => begin | _ :: _ => iter end in
  match iter with
  | [] => Null_dereference
  | _ :: [] => Iterated [] iter
  | _ :: next => Iterated next next
  end.

(** ** Trees *)

(** The list [value.node] of a node that holds one. *)
Definition node_children (n : y_node_t) : list y_node_t :=
  match val_un (node_value n) with
  | U_node l => l
  | _ => []
  end.

(** A node and everything under it. *)
Fixpoint subnodes (n : y_node_t) : list y_node_t :=
  n :: match val_un (node_value n) with
       | U_node l => flat_map subnodes l
       | _ => []
       end.

(** The kind names the member of the union that was written. *)
Definition value_shape (v : y_value_t) : Prop :=
  match val_kind v, val_un v with
  | Y_NONE, U_zero => True
  | Y_NODE, U_node _ => True
  | Y_STRING, U_string _ => True
  | Y_INTEGER, U_integer n => 0 <= n <= ULLONG_MAX
  | Y_DECIMAL, U_decimal _ => True
  | _, _ => False
  end.

(** What the lexer makes of each kind of token. *)
Definition token_shape (t : token_t) : Prop :=
  if tok_kind t =? TOKEN_TEXT then
    exists s, tok_value t = mk_value Y_STRING (U_string s) /\ s <> [] /\ ~ In 0 s
  else if tok_kind t =? TOKEN_STRING then
    exists s, tok_value t = mk_value Y_STRING (U_string s)
  else if tok_kind t =? TOKEN_NUMBER then
    value_shape (tok_value t) /\
    (val_kind (tok_value t) = Y_INTEGER \/ val_kind (tok_value t) = Y_DECIMAL)
  else tok_value t = value_zero.

Definition unit_shape (u : unit_t) : Prop :=
  token_shape (unit_previous u) /\ token_shape (unit_current u).

(** ** Vocabulary of the properties *)

(** What a scan leaves alone: the bytes before a bound, the size, and all of
    the unit but its data and cursor. *)
Definition same_up_to (bound : Z) (u u' : unit_t) : Prop :=
  List.length (unit_data u') = List.length (unit_data u) /\
  (forall i : nat, (Z.of_nat i < bound) ->
     nth_error (unit_data u') i = nth_error (unit_data u) i) /\
  unit_length u' = unit_length u /\
  unit_previous u' = unit_previous u /\
  unit_current u' = unit_current u.

(** Bytes of [data] in [from, to) that are all there and none of them zero. *)
Definition nonzero_run (u : unit_t) (from to : Z) : Prop :=
  forall i, from <= i < to ->
    exists x, nth_error (unit_data u) (Z.to_nat i) = Some x /\ x <> 0.

(** A name the lexer read: some bytes, none of them zero. *)
Definition name_shape (s : string_t) : Prop := s <> [] /\ ~ In 0 s.

Definition node_shape (n : y_node_t) : Prop :=
  name_shape (node_name n) /\
  Forall (fun note => name_shape (note_name note)) (node_note n) /\
  value_shape (node_value n).

(** [heads] is what [y_load] appends behind: in a new context the dead
    [root], with no root loaded yet; once a unit is loaded the root loaded
    last, whose [next] is null. *)
Definition heads_at_tail (y : yctx_t) : Prop :=
  match ctx_heads y with
  | Dead_root => ctx_loaded y = []
  | Loaded i => S i = List.length (ctx_loaded y)
  end.

(** The unit over [file] once its first token is read, as [parse_unit]
    receives it. *)
Definition started (file : list Z) : unit_t :=
  returned (unit_of_file file)
           (let* (_, u) := lex_next (unit_of_file file) in Ok u).

(** A string literal of the source: [s] between two quotes. *)
Definition quoted (s : list Z) : list Z := ch_quote :: s ++ [ch_quote].

(** A new context with one unit loaded. *)
Definition load_one (file : list Z) : result yctx_t :=
  let* (_, y) := y_load y_create file in Ok y.

(** The value of the root of a unit loaded alone. *)
Definition root_value (file : list Z) : result y_value_t :=
  let* (root, _) := y_load y_create file in Ok (node_value root).

(** A TEXT segment as the lexer takes it: a letter or underscore, then
    letters, digits and underscores. *)
Definition is_segment (s : list Z) : Prop :=
  match s with
  | [] => False
  | c :: rest =>
      (isalpha c || (c =? ch_underscore)) = true /\
      Forall (fun c => is_text_char c = true) rest
  end.

(** Segments with one space between them. *)
Fixpoint path_of (first : list Z) (others : list (list Z)) : list Z :=
  match others with
  | [] => first
  | second :: others' => first ++ ch_space :: path_of second others'
  end.

(** What may stand behind a segment: the end of the buffer or a blank. *)
Definition ends_segment (rest : list Z) : Prop :=
  is_text_char (hd 0 rest) = false /\ hd 0 rest <> ch_slash.

(** What follows the first segment of a path. *)
Definition path_tail (others : list (list Z)) : list Z :=
  match others with
  | [] => []
  | second :: others' => ch_space :: path_of second others'
  end.

Definition fueled {A : Type} (r : result A) : Prop := r <> Undefined Out_of_fuel.

(** The errors the lexer raises. *)
Definition lexical (m : fatal_msg) : Prop :=
  match m with
  | Strings_can_not_contain_a_new_line
  | Duplicate_decimal_in_number
  | Unknown_character _ => True
  | Expected_token _ _
  | Expecting_ending_to_node_list => False
  end.

(** A run that stops the process only with a message in [P]. *)
Definition fails_only {A : Type} (P : fatal_msg -> Prop) (r : result A) : Prop :=
  forall s m, r = Fatal s m -> P m.

(** How much of the buffer lies ahead of a unit whose next token is read. *)
Definition ahead (u : unit_t) : Z :=
  if tok_kind (unit_current u) =? TOKEN_NONE then 0
  else buffer_size u + 1 - unit_cursor u.

(** Behind a token other than NONE the cursor is inside the buffer. *)
Definition cursor_inside (u : unit_t) : Prop :=
  tok_kind (unit_current u) <> TOKEN_NONE -> 0 <= unit_cursor u <= buffer_size u.

(** The step of [parse_node] between its name and its notes. *)
Definition parse_value (fuel : nat) (u : unit_t) : result (y_value_t * unit_t) :=
  let* (open, u) := token_consume u ch_open in
  match open with
  | Some _ =>
      let* (children, u) := parse_list fuel u in
      Ok (mk_value Y_NODE (U_node children), u)
  | None =>
      let* (temp, u) := token_consume u TOKEN_NUMBER in
      match temp with
      | Some temp => Ok (tok_value temp, u)
      | None =>
          let* (temp, u) := token_consume u TOKEN_STRING in
          match temp with
          | Some temp => Ok (tok_value temp, u)
          | None => Ok (value_zero, u)
          end
      end
  end.

(** The nodes a caller's loop [while ((n = y_iter(begin, &it)))] visits from
    [it], and [it] when the loop ends. *)
Fixpoint y_iter_loop (fuel : nat) (begin iter : list y_node_t)
  : option (list y_node_t * list y_node_t) :=
  match fuel with
  | O => None
  | S fuel' =>
      match y_iter begin iter with
      | Null_dereference => None
      | Iterated [] iter' => Some ([], iter')
      | Iterated (n :: _) iter' =>
          match y_iter_loop fuel' begin iter' with
          | Some (visited, last) => Some (n :: visited, last)
          | None => None
          end
      end
  end.

(** Whether a node bears a name, byte for byte. *)
Definition named (name : list Z) (it : y_node_t) : bool :=
  if list_eq_dec Z.eq_dec (node_name it) name then true else false.

(** A path of segments resolved in a forest: at each level the first node of
    the list that bears the segment's name; behind the last segment that node
    is the answer, before it the search goes on in what its member [node]
    reads as. *)
Fixpoint lookup (current : node_ptr) (segment : list Z) (others : list (list Z))
  {struct others} : result (option y_node_t) :=
  match current with
  | Punned => Undefined Wild_pointer
  | Dangling => Undefined Dangling_pointer
  | Chain chain =>
      match find (named segment) chain with
      | None => Ok None
      | Some it =>
          match others with
          | [] => Ok (Some it)
          | next_segment :: others' =>
              lookup (value_node (node_value it)) next_segment others'
          end
      end
  end.

(** The bytes [next] passes over. *)
Definition is_blank (c : Z) : bool :=
  (c =? ch_newline) || (c =? ch_tab) || (c =? ch_space).

(** The node a run of [y_find_loop] answers with, the unit left aside. *)
Definition found_by (r : result (option y_node_t * unit_t)) : result (option y_node_t) :=
  let* (found, _) := r in Ok found.

(** [d'] is [d] but for the first slash of some [//], which may read [1]:
    what [*ch += 2] makes of it. *)
Definition commented (d d' : list Z) : Prop :=
  List.length d' = List.length d /\
  forall i : nat,
    nth_error d' i = nth_error d i \/
    (nth_error d i = Some ch_slash /\ nth_error d (S i) = Some ch_slash /\
     nth_error d' i = Some 49).

(** What lexing makes of a unit: some comments marked, the cursor no further
    back, the length as it was. *)
Definition lexed (u u' : unit_t) : Prop :=
  commented (unit_data u) (unit_data u') /\
  unit_cursor u <= unit_cursor u' /\
  unit_length u' = unit_length u.

(** Buffers in which a quote always has a newline somewhere behind it. *)
Definition strings_end (d : list Z) : Prop :=
  forall i : nat, nth_error d i = Some ch_quote ->
    exists j : nat, (i < j)%nat /\ nth_error d j = Some ch_newline.

(** A run that stays within what C defines. *)
Definition safe {A : Type} (r : result A) : Prop :=
  forall ub, r = Undefined ub -> ub = Out_of_fuel.

(** A unit the lexer can go on with: the cursor is no pointer before the
    buffer, [length] is no more than the buffer holds, strings end. *)
Definition sound (u : unit_t) : Prop :=
  0 <= unit_cursor u /\ unit_length u <= buffer_size u /\ strings_end (unit_data u).

(** Buffers without a comment: no two slashes side by side. *)
Definition plain (d : list Z) : Prop :=
  forall i : nat, nth_error d i = Some ch_slash -> nth_error d (S i) <> Some ch_slash.

(** A TEXT token that is a plain segment. *)
Definition text_is_segment (t : token_t) : Prop :=
  tok_kind t = TOKEN_TEXT -> is_segment (value_string (tok_value t)).

Definition plain_unit (u : unit_t) : Prop :=
  plain (unit_data u) /\ text_is_segment (unit_previous u) /\
  text_is_segment (unit_current u).

(** A node whose name and notes are plain segments. *)
Definition identifiers (n : y_node_t) : Prop :=
  is_segment (node_name n) /\
  Forall (fun note => is_segment (note_name note)) (node_note n).

(** A unit over a buffer without zero bytes, whose [length] is the buffer's,
    and in which a NONE token ahead means the cursor has passed the
    terminator. *)
Definition ended (u : unit_t) : Prop :=
  ~ In 0 (unit_data u) /\ unit_length u = buffer_size u /\
  (tok_kind (unit_current u) = TOKEN_NONE -> buffer_size u < unit_cursor u).

(** How many newlines a buffer holds before offset [i]. *)
Definition newlines_before (d : list Z) (i : Z) : Z :=
  Z.of_nat (count_occ Z.eq_dec (firstn (Z.to_nat i) d) ch_newline).

(** [line] and [start] describe offset [b] of the buffer: [start] is where
    the line of [b] begins, behind a newline or at offset 0, and [line] counts
    the newlines before it, the first line being line 0. *)
Definition placed (d : list Z) (line start b : Z) : Prop :=
  0 <= start <= b /\ line = newlines_before d b /\
  (forall i, start <= i < b -> nth_error d (Z.to_nat i) <> Some ch_newline) /\
  (start = 0 \/ nth_error d (Z.to_nat (start - 1)) = Some ch_newline).


(** The unit's [line] and [start] describe offset [at] of the file it was
    read from. *)
Definition tracks (d : list Z) (u : unit_t) (at_offset : Z) : Prop :=
  commented d (unit_data u) /\ unit_length u = buffer_size u /\
  exists start, unit_start u = Some start /\ placed d (unit_line u) start at_offset.


(** A run whose result is in [Q] when it returns and whose span is in [F]
    when it stops in [fatal_at]. *)
Definition reports {A : Type} (F : source_t -> Prop) (Q : A -> Prop) (r : result A)
  : Prop :=
  match r with
  | Ok a => Q a
  | Fatal s _ => F s
  | Undefined _ => True
  end.

(** The bytes of a line: up to the first newline or zero. *)
Fixpoint line_from (d : list Z) : list Z :=
  match d with
  | [] => []
  | c :: rest => if (c =? 0) || (c =? ch_newline) then [] else c :: line_from rest
  end.

(** A line as [msg_line] shows it, its first byte being at offset [ch]. *)
Fixpoint render (line : list Z) (ch : Z) (col : list Z) (b e : ptr) : list Z :=
  match line with
  | [] => []
  | c :: rest =>
      (if ptr_eqb (Some ch) b then col else [])
        ++ [c]
        ++ (if ptr_eqb (Some (ch + 1)) e then C_RESET else [])
        ++ render rest (ch + 1) col b e
  end.

(** A span whose [start] is null. *)
Definition no_start (s : source_t) : Prop := src_start s = None.

(** A unit over a buffer of one line whose [start] was never set. *)
Definition startless (u : unit_t) : Prop :=
  unit_start u = None /\ ~ In ch_newline (unit_data u).

(** * Properties of the lexer *)

Lemma bind_Ok {A B : Type} (r : result A) (k : A -> result B) (b : B) :
  bind r k = Ok b -> exists a, r = Ok a /\ k a = Ok b.
Proof. destruct r; simpl; intros H; try discriminate; eauto. Qed.

Ltac bind_inv H :=
  let a := fresh "a" in
  let E := fresh "E" in
  apply bind_Ok in H; destruct H as [a [E H]].

Lemma store_at_length (d : list Z) (i : nat) (c : Z) :
  List.length (store_at d i c) = List.length d.
Proof.
  revert i; induction d as [|h t IH]; intros [|i]; simpl; auto.
Qed.

Lemma store_at_other (d : list Z) (i j : nat) (c : Z) :
  i <> j -> nth_error (store_at d i c) j = nth_error d j.
Proof.
  revert i j; induction d as [|h t IH]; intros [|i] [|j] H; simpl; auto.
  contradiction.
Qed.

Lemma set_cursor_same (u : unit_t) : set_cursor u (unit_cursor u) = u.
Proof. destruct u; reflexivity. Qed.

Lemma deref_Ok (u : unit_t) (i c : Z) :
  deref u i = Ok c -> 0 <= i <= buffer_size u.
Proof.
  unfold deref. destruct (i <? 0) eqn:Hneg; [discriminate|].
  apply Z.ltb_ge in Hneg.
  destruct (nth_error (unit_data u) (Z.to_nat i)) eqn:Hn.
  - intros _. assert (Hlt : (Z.to_nat i < List.length (unit_data u))%nat).
    { apply nth_error_Some. congruence. }
    unfold buffer_size. lia.
  - destruct (i =? buffer_size u) eqn:He; [|discriminate].
    apply Z.eqb_eq in He. lia.
Qed.

Lemma deref_nonzero (u : unit_t) (i c : Z) :
  deref u i = Ok c -> c <> 0 ->
  nth_error (unit_data u) (Z.to_nat i) = Some c /\ 0 <= i < buffer_size u.
Proof.
  intros H Hc. pose proof (deref_Ok _ _ _ H) as Hb. revert H. unfold deref.
  destruct (i <? 0); [discriminate|].
  destruct (nth_error (unit_data u) (Z.to_nat i)) eqn:Hn.
  - intros [= ->]. split; [reflexivity|].
    assert (Hlt : (Z.to_nat i < List.length (unit_data u))%nat).
    { apply nth_error_Some. congruence. }
    unfold buffer_size. lia.
  - destruct (i =? buffer_size u); [|discriminate]. intros [= <-]. contradiction.
Qed.

Lemma same_up_to_refl (bound : Z) (u : unit_t) : same_up_to bound u u.
Proof. repeat split; auto. Qed.

Lemma same_up_to_set_cursor (bound : Z) (u : unit_t) (c : Z) :
  same_up_to bound u (set_cursor u c).
Proof. repeat split; auto. Qed.

Lemma same_up_to_trans (b1 b2 : Z) (u1 u2 u3 : unit_t) :
  b1 <= b2 -> same_up_to b1 u1 u2 -> same_up_to b2 u2 u3 -> same_up_to b1 u1 u3.
Proof.
  intros Hb (L1 & N1 & A1 & P1 & C1) (L2 & N2 & A2 & P2 & C2).
  repeat split; try congruence.
  intros i Hi. rewrite N2 by lia. apply N1; assumption.
Qed.

Lemma raw_skip_post (fuel : nat) (u : unit_t) (ch ch' : Z) (u' : unit_t) :
  unit_cursor u = ch + 1 -> 0 <= ch ->
  raw_skip fuel u ch = Ok (ch', u') ->
  ch <= ch' /\ u' = set_cursor u (ch' + 1) /\ nonzero_run u ch ch'.
Proof.
  revert u ch. induction fuel as [|fuel IH]; intros u ch Hc Hpos H; simpl in H.
  - discriminate.
  - bind_inv H. rename a into c.
    destruct ((c =? 0) || (c =? ch_newline)) eqn:Hstop.
    + injection H as <- <-. split; [lia|]. split.
      * rewrite <- Hc. symmetry. apply set_cursor_same.
      * intros i Hi. lia.
    + apply orb_false_iff in Hstop. destruct Hstop as [Hz _].
      apply Z.eqb_neq in Hz.
      apply IH in H; [|simpl; lia|lia].
      destruct H as (Hle & -> & Hrun). split; [lia|]. split.
      * destruct u; reflexivity.
      * intros i Hi. destruct (Z.eq_dec i ch) as [->|Hne].
        -- exists c. split; [|assumption].
           apply (deref_nonzero _ _ _ E Hz).
        -- apply (Hrun i). lia.
Qed.

(** [raw] moves the cursor past the byte it returns; it writes nothing before
    the cursor it started from, and skips no zero byte. *)
Lemma raw_post (u : unit_t) (ch : Z) (u' : unit_t) :
  raw u = Ok (ch, u') ->
  0 <= unit_cursor u <= ch /\ unit_cursor u' = ch + 1 /\
  same_up_to (unit_cursor u) u u' /\
  unit_start u' = unit_start u /\ unit_line u' = unit_line u /\
  nonzero_run u' (unit_cursor u) ch.
Proof.
  unfold raw. intros H. bind_inv H. rename a into c.
  pose proof (deref_Ok _ _ _ E) as Hb. simpl in Hb.
  destruct (c =? ch_slash) eqn:Hs.
  - bind_inv H. rename a into c1. destruct (c1 =? ch_slash) eqn:Hs1.
    + apply raw_skip_post in H; [|simpl; lia|lia].
      destruct H as (Hle & -> & Hrun). simpl.
      split; [lia|]. split; [reflexivity|]. split.
      * repeat split; simpl; auto.
        -- apply store_at_length.
        -- intros i Hi. apply store_at_other. lia.
      * split; [reflexivity|]. split; [reflexivity|]. exact Hrun.
    + injection H as <- <-. simpl. split; [lia|]. split; [reflexivity|].
      split; [apply same_up_to_set_cursor|]. repeat split; auto. intros i Hi; lia.
  - injection H as <- <-. simpl. split; [lia|]. split; [reflexivity|].
    split; [apply same_up_to_set_cursor|]. repeat split; auto. intros i Hi; lia.
Qed.

Lemma same_up_to_weaken (b1 b2 : Z) (u u' : unit_t) :
  b1 <= b2 -> same_up_to b2 u u' -> same_up_to b1 u u'.
Proof.
  intros Hb (L & N & A & P & C). repeat split; auto.
  intros i Hi. apply N. lia.
Qed.

Lemma nonzero_run_extend (u u' : unit_t) (b mid e : Z) :
  0 <= b -> nonzero_run u b mid -> same_up_to mid u u' -> nonzero_run u' mid e ->
  nonzero_run u' b e.
Proof.
  intros Hb Hrun (_ & N & _) Hrun' i Hi.
  destruct (Z_lt_ge_dec i mid) as [Hlt|Hge].
  - rewrite N by lia. apply Hrun. lia.
  - apply Hrun'. lia.
Qed.

Lemma next_from_post (fuel : nat) (u : unit_t) (ch : Z) (u' : unit_t) :
  next_from fuel u = Ok (ch, u') ->
  0 <= unit_cursor u <= ch /\ unit_cursor u' = ch + 1 /\
  same_up_to (unit_cursor u) u u'.
Proof.
  revert u. induction fuel as [|fuel IH]; intros u H; simpl in H; [discriminate|].
  bind_inv H. destruct a as [ch1 u1]. bind_inv H. rename a into c.
  apply raw_post in E. destruct E as (Hge & Hcur & Hsame & _).
  assert (Hstep : forall l s, same_up_to (unit_cursor u) u (set_line u1 l s)).
  { intros l s. destruct Hsame as (L & N & A & P & C). repeat split; auto. }
  destruct (c =? ch_newline).
  - apply IH in H. simpl in H. destruct H as (Hge' & Hcur' & Hsame').
    split; [lia|]. split; [assumption|].
    eapply same_up_to_trans; [|apply Hstep|apply Hsame']. lia.
  - destruct ((c =? ch_tab) || (c =? ch_space)).
    + apply IH in H. destruct H as (Hge' & Hcur' & Hsame').
      split; [lia|]. split; [assumption|].
      eapply same_up_to_trans; [|apply Hsame|apply Hsame']. lia.
    + injection H as <- <-. auto.
Qed.

Lemma is_text_char_nonzero (c : Z) : is_text_char c = true -> c <> 0.
Proof. intros H ->. discriminate. Qed.

Lemma token_text_scan_post (fuel : nat) (u : unit_t) (b ch : Z) (u' : unit_t) :
  unit_cursor u = ch + 1 -> 0 <= b <= ch -> nonzero_run u b ch ->
  token_text_scan fuel u ch = Ok u' ->
  exists ch', ch <= ch' /\ unit_cursor u' = ch' + 1 /\
    nonzero_run u' b ch' /\ same_up_to (ch + 1) u u' /\
    (forall c, deref u ch = Ok c -> is_text_char c = true -> ch < ch').
Proof.
  revert u ch. induction fuel as [|fuel IH]; intros u ch Hc Hb Hrun H; simpl in H.
  - discriminate.
  - bind_inv H. rename a into c. destruct (is_text_char c) eqn:Htext.
    + bind_inv H. destruct a as [ch1 u1].
      pose proof (raw_post _ _ _ E0) as (Hge & Hcur & Hsame & _ & _ & Hskip).
      rewrite Hc in *.
      assert (Hrun1 : nonzero_run u1 b ch1).
      { apply (nonzero_run_extend u u1 b (ch + 1) ch1); try assumption; [lia|].
        intros i Hi. destruct (Z.eq_dec i ch) as [->|Hne].
        - exists c. split; [|apply is_text_char_nonzero; assumption].
          apply (deref_nonzero _ _ _ E). apply is_text_char_nonzero; assumption.
        - apply Hrun. lia. }
      apply (IH u1 ch1) in H; [|assumption|lia|assumption].
      destruct H as (ch' & Hle & Hcur' & Hrun' & Hsame' & _).
      exists ch'. split; [lia|]. split; [assumption|]. split; [assumption|].
      split.
      * eapply same_up_to_trans; [|apply Hsame|apply Hsame']. lia.
      * intros _ _ _. lia.
    + injection H as <-. exists ch. split; [lia|]. split; [assumption|].
      split; [assumption|]. split; [apply same_up_to_refl|].
      intros c' Hd Ht. congruence.
Qed.

Lemma slice_nonzero (d : list Z) (b e : Z) :
  0 <= b < e ->
  (forall i, b <= i < e ->
     exists x, nth_error d (Z.to_nat i) = Some x /\ x <> 0) ->
  slice d b e <> [] /\ ~ In 0 (slice d b e).
Proof.
  intros Hbe Hrun. unfold slice. split.
  - destruct (Hrun b) as (x & Hx & _); [lia|].
    intros Hnil.
    assert (Hn : nth_error (firstn (Z.to_nat (e - b)) (skipn (Z.to_nat b) d)) 0 = Some x).
    { rewrite nth_error_firstn.
      replace (0 <? Z.to_nat (e - b))%nat with true
        by (symmetry; apply Nat.ltb_lt; lia).
      rewrite nth_error_skipn, Nat.add_0_r. exact Hx. }
    rewrite Hnil in Hn. discriminate.
  - intros Hin. apply In_nth_error in Hin. destruct Hin as [j Hj].
    rewrite nth_error_firstn in Hj.
    destruct (j <? Z.to_nat (e - b))%nat eqn:Hlt; [|discriminate].
    apply Nat.ltb_lt in Hlt. rewrite nth_error_skipn in Hj.
    destruct (Hrun (b + Z.of_nat j)) as (x & Hx & Hnz); [lia|].
    replace (Z.to_nat (b + Z.of_nat j)) with (Z.to_nat b + j)%nat in Hx by lia.
    congruence.
Qed.

Lemma token_string_scan_post (fuel : nat) (u : unit_t) (ch : Z) (u' : unit_t) :
  token_string_scan fuel u = Ok (ch, u') ->
  0 <= unit_cursor u <= ch /\ unit_cursor u' = ch + 1 /\
  same_up_to (unit_cursor u) u u'.
Proof.
  revert u. induction fuel as [|fuel IH]; intros u H; simpl in H; [discriminate|].
  bind_inv H. destruct a as [ch1 u1]. bind_inv H. rename a into c.
  apply raw_post in E. destruct E as (Hge & Hcur & Hsame & _).
  destruct (c =? ch_quote).
  - injection H as <- <-. auto.
  - destruct (c =? ch_newline); [discriminate|].
    apply IH in H. destruct H as (Hge' & Hcur' & Hsame').
    split; [lia|]. split; [assumption|].
    eapply same_up_to_trans; [|apply Hsame|apply Hsame']. lia.
Qed.

Lemma token_number_scan_post (fuel : nat) (u : unit_t) (ch : Z) (number : y_kind)
      (number' : y_kind) (u' : unit_t) :
  number = Y_INTEGER \/ number = Y_DECIMAL ->
  token_number_scan fuel u ch number = Ok (number', u') ->
  (number' = Y_INTEGER \/ number' = Y_DECIMAL) /\
  unit_cursor u <= unit_cursor u' /\ same_up_to (unit_cursor u) u u'.
Proof.
  revert u ch number.
  induction fuel as [|fuel IH]; intros u ch number Hn H; simpl in H; [discriminate|].
  bind_inv H. rename a into c. destruct (is_number_char c).
  - bind_inv H. destruct a as [ch1 u1]. bind_inv H. rename a into c1.
    apply raw_post in E0. destruct E0 as (Hge & Hcur & Hsame & _).
    assert (Hgo : forall k, (k = Y_INTEGER \/ k = Y_DECIMAL) ->
              token_number_scan fuel u1 ch1 k = Ok (number', u') ->
              (number' = Y_INTEGER \/ number' = Y_DECIMAL) /\
              unit_cursor u <= unit_cursor u' /\ same_up_to (unit_cursor u) u u').
    { intros k Hk Hscan. apply IH in Hscan; [|assumption].
      destruct Hscan as (Hk' & Hle & Hsame'). split; [assumption|].
      split; [lia|].
      eapply same_up_to_trans; [|apply Hsame|apply Hsame']. lia. }
    destruct (c1 =? ch_dot).
    + destruct (y_kind_eqb number Y_DECIMAL); [discriminate|].
      apply (Hgo Y_DECIMAL); auto.
    + apply (Hgo number); auto.
  - injection H as <- <-. split; [assumption|]. split; [lia|].
    apply same_up_to_refl.
Qed.

Lemma digit_run_digits (s : list Z) : Forall (fun c => isdigit c = true) (digit_run s).
Proof.
  induction s as [|c t IH]; simpl; [constructor|].
  destruct (isdigit c) eqn:Hd; constructor; assumption.
Qed.

Lemma decimal_value_from (digits : list Z) (acc : Z) :
  0 <= acc -> Forall (fun c => isdigit c = true) digits ->
  0 <= fold_left (fun acc c => 10 * acc + (c - 48)) digits acc.
Proof.
  revert acc. induction digits as [|c t IH]; intros acc Hacc Hd; cbn [fold_left];
    [assumption|].
  inversion Hd as [|? ? Hc Ht]; subst. apply IH; [|assumption].
  unfold isdigit in Hc. apply andb_true_iff in Hc. destruct Hc as [Hlo _].
  apply Z.leb_le in Hlo. lia.
Qed.

Lemma strtoull_range (s : list Z) : 0 <= fst (strtoull s) <= ULLONG_MAX.
Proof.
  unfold strtoull. simpl.
  pose proof (decimal_value_from (digit_run s) 0 (Z.le_refl 0) (digit_run_digits s)) as H.
  fold (decimal_value (digit_run s)) in H.
  assert (0 <= ULLONG_MAX) by (unfold ULLONG_MAX; lia). lia.
Qed.

(** Every token the lexer returns has the value its kind promises, and lexing
    leaves the two remembered tokens and the bytes behind the cursor alone. *)
Lemma lex_token_shape (u : unit_t) (t : token_t) (u' : unit_t) :
  lex_token u = Ok (t, u') ->
  token_shape t /\ same_up_to (unit_cursor u) u u'.
Proof.
  unfold lex_token. destruct (unit_cursor u >? unit_length u).
  { intros [= <- <-]. split; [reflexivity|apply same_up_to_refl]. }
  intros H. bind_inv H. destruct a as [ch u1]. bind_inv H. rename a into c.
  apply next_from_post in E. destruct E as (Hge & Hcur & Hsame).
  destruct (c =? 0) eqn:Hc0.
  { injection H as <- <-. split; [reflexivity|assumption]. }
  destruct ((c =? ch_open) || (c =? ch_close) || (c =? ch_at)) eqn:Hstruct.
  { injection H as <- <-. split; [|assumption].
    unfold token_shape, token_new. simpl.
    assert (Hk : c = ch_open \/ c = ch_close \/ c = ch_at).
    { apply orb_true_iff in Hstruct. destruct Hstruct as [Hs|Hs].
      - apply orb_true_iff in Hs. destruct Hs as [Hs|Hs]; apply Z.eqb_eq in Hs; auto.
      - apply Z.eqb_eq in Hs; auto. }
    destruct Hk as [-> | [-> | ->]]; reflexivity. }
  destruct (c =? ch_quote).
  { unfold token_string in H. bind_inv H. destruct a as [ch2 u2].
    injection H as <- <-. apply token_string_scan_post in E.
    destruct E as (Hge2 & Hcur2 & Hsame2). split.
    - unfold token_shape, token_new. simpl. eexists; reflexivity.
    - eapply same_up_to_trans; [|apply Hsame|apply Hsame2]. lia. }
  destruct (isalpha c || (c =? ch_underscore)) eqn:Hal.
  { unfold token_text in H. bind_inv H. rename a into u2. injection H as <- <-.
    assert (Htext : is_text_char c = true).
    { unfold is_text_char. apply orb_true_iff in Hal.
      destruct Hal as [-> | ->]; [reflexivity|]. apply orb_true_r. }
    apply (token_text_scan_post _ u1 ch ch u2) in E; [|assumption|lia|intros i Hi; lia].
    destruct E as (ch' & Hle & Hcur' & Hrun & Hsame' & Hmoved).
    specialize (Hmoved c E0 Htext). split.
    - unfold token_shape, token_new. simpl. rewrite Hcur'.
      replace (ch' + 1 - 1) with ch' by lia.
      eexists. split; [reflexivity|]. apply slice_nonzero; [lia|exact Hrun].
    - apply (same_up_to_trans _ (ch + 1) _ u1); [lia|assumption|].
      destruct Hsame' as (L & N & A & P & C). repeat split; auto. }
  destruct (isdigit c); [|discriminate].
  unfold token_number in H. bind_inv H. destruct a as [number u2].
  apply token_number_scan_post in E; [|auto].
  destruct E as (Hnum & Hle & Hsame2).
  assert (Hframe : same_up_to (unit_cursor u) u (set_cursor u2 (unit_cursor u2 - 1))).
  { apply (same_up_to_trans _ (unit_cursor u1) _ u1); [lia|assumption|].
    destruct Hsame2 as (L & N & A & P & C). repeat split; auto. }
  destruct Hnum as [-> | ->].
  - destruct (strtoull _) as [n len] eqn:Hs. injection H as <- <-.
    split; [|assumption]. unfold token_shape. simpl. split; [|auto].
    unfold value_shape. simpl.
    pose proof (strtoull_range (skipn (Z.to_nat ch) (unit_data u2))) as Hr.
    simpl in Hs. rewrite Hs in Hr. exact Hr.
  - injection H as <- <-. split; [|assumption].
    unfold token_shape. simpl. split; [exact I|auto].
Qed.

Lemma lex_next_post (u : unit_t) (t : token_t) (u' : unit_t) :
  lex_next u = Ok (t, u') ->
  token_shape t /\ unit_previous u' = unit_current u /\ unit_current u' = t.
Proof.
  unfold lex_next. intros H. bind_inv H. destruct a as [t1 u1].
  injection H as <- <-. apply lex_token_shape in E.
  destruct E as (Hshape & _ & _ & _ & P & _). simpl in *. auto.
Qed.

Lemma token_eat_post (u : unit_t) (t : token_t) (u' : unit_t) :
  unit_shape u -> token_eat u = Ok (t, u') ->
  t = unit_current u /\ unit_shape u'.
Proof.
  unfold token_eat. intros [_ Hcur] H. bind_inv H. destruct a as [t1 u1].
  injection H as <- <-. apply lex_next_post in E.
  destruct E as (Hshape & Hprev & Hcur'). split; [assumption|].
  split; congruence.
Qed.

Lemma token_expect_post (u : unit_t) (kind : Z) (t : token_t) (u' : unit_t) :
  unit_shape u -> token_expect u kind = Ok (t, u') ->
  t = unit_current u /\ tok_kind t = kind /\ token_shape t /\ unit_shape u'.
Proof.
  unfold token_expect. intros Hu H.
  destruct (tok_kind (unit_current u) =? kind) eqn:Hk; [|discriminate].
  apply Z.eqb_eq in Hk. apply token_eat_post in H; [|assumption].
  destruct H as [-> Hu']. destruct Hu as [_ Hc]. auto.
Qed.

Lemma token_consume_post (u : unit_t) (kind : Z) (r : option token_t) (u' : unit_t) :
  unit_shape u -> token_consume u kind = Ok (r, u') ->
  unit_shape u' /\
  match r with
  | Some t => t = unit_current u /\ tok_kind t = kind /\ token_shape t
  | None => u' = u /\ tok_kind (unit_current u) <> kind
  end.
Proof.
  unfold token_consume. intros Hu H.
  destruct (tok_kind (unit_current u) =? kind) eqn:Hk.
  - apply Z.eqb_eq in Hk. bind_inv H. destruct a as [t1 u1]. injection H as <- <-.
    apply token_eat_post in E; [|assumption]. destruct E as [-> Hu'].
    destruct Hu as [_ Hc]. auto.
  - apply Z.eqb_neq in Hk. injection H as <- <-. auto.
Qed.

Lemma text_token_name (t : token_t) :
  token_shape t -> tok_kind t = TOKEN_TEXT -> name_shape (value_string (tok_value t)).
Proof.
  unfold token_shape. intros H Hk. rewrite Hk in H. simpl in H.
  destruct H as (s & -> & Hne & Hnz). split; assumption.
Qed.

Lemma parse_note_shape (fuel : nat) (u : unit_t) (notes : list y_note_t) (u' : unit_t) :
  unit_shape u -> parse_note fuel u = Ok (notes, u') ->
  unit_shape u' /\ Forall (fun note => name_shape (note_name note)) notes.
Proof.
  revert u notes. induction fuel as [|fuel IH]; intros u notes Hu H; simpl in H.
  - discriminate.
  - bind_inv H. destruct a as [at_sign u1].
    apply token_consume_post in E; [|assumption]. destruct E as [Hu1 Hat].
    destruct at_sign as [t|].
    + bind_inv H. destruct a as [name u2].
      apply token_expect_post in E; [|assumption].
      destruct E as (_ & Hk & Hshape & Hu2).
      bind_inv H. destruct a as [rest u3]. injection H as <- <-.
      apply IH in E; [|assumption]. destruct E as [Hu3 Hrest].
      split; [assumption|]. constructor; [|assumption].
      simpl. apply text_token_name; assumption.
    + injection H as <- <-. destruct Hat as [-> _]. split; [assumption|constructor].
Qed.

Lemma number_token_value (t : token_t) :
  token_shape t -> tok_kind t = TOKEN_NUMBER ->
  value_shape (tok_value t) /\
  (val_kind (tok_value t) = Y_INTEGER \/ val_kind (tok_value t) = Y_DECIMAL).
Proof. unfold token_shape. intros H Hk. rewrite Hk in H. exact H. Qed.

Lemma string_token_value (t : token_t) :
  token_shape t -> tok_kind t = TOKEN_STRING ->
  exists s, tok_value t = mk_value Y_STRING (U_string s).
Proof. unfold token_shape. intros H Hk. rewrite Hk in H. exact H. Qed.

(** Every node of a parsed tree has a read name, read notes, and a value whose
    kind names the member of the union that was written. *)
Lemma parse_shape (fuel : nat) :
  (forall u n u', unit_shape u -> parse_node fuel u = Ok (n, u') ->
     unit_shape u' /\ Forall node_shape (subnodes n)) /\
  (forall u l u', unit_shape u -> parse_list fuel u = Ok (l, u') ->
     unit_shape u' /\ Forall node_shape (flat_map subnodes l)).
Proof.
  induction fuel as [|fuel [IHnode IHlist]]; [split; intros; discriminate|].
  split.
  - intros u n u' Hu H. simpl in H.
    bind_inv H. destruct a as [name u1].
    apply token_expect_post in E; [|assumption].
    destruct E as (_ & Hk & Hname & Hu1).
    bind_inv H. destruct a as [value u2]. bind_inv H. destruct a as [note u3].
    injection H as <- <-.
    assert (Hvalue : unit_shape u2 /\ value_shape value /\
                     Forall node_shape (flat_map subnodes (
                       match val_un value with U_node l => l | _ => [] end))).
    { bind_inv E. destruct a as [open v1].
      apply token_consume_post in E1; [|assumption]. destruct E1 as [Hv1 Hopen].
      destruct open as [t|].
      - bind_inv E. destruct a as [children v2]. injection E as <- <-.
        apply IHlist in E1; [|assumption]. destruct E1 as [Hv2 Hch].
        split; [assumption|]. split; [exact I|exact Hch].
      - destruct Hopen as [-> _]. bind_inv E. destruct a as [temp v2].
        apply token_consume_post in E1; [|assumption]. destruct E1 as [Hv2 Hnum].
        destruct temp as [t|].
        + injection E as <- <-. destruct Hnum as (_ & Hkn & Hs).
          destruct (number_token_value _ Hs Hkn) as [Hvs Hkind].
          split; [assumption|]. split; [assumption|].
          unfold value_shape in Hvs.
          destruct (tok_value t) as [k [| | | |]]; simpl in *;
            destruct Hkind as [-> | ->]; try contradiction; constructor.
        + destruct Hnum as [-> _]. bind_inv E. destruct a as [temp v3].
          apply token_consume_post in E1; [|assumption]. destruct E1 as [Hv3 Hstr].
          destruct temp as [t|].
          * injection E as <- <-. destruct Hstr as (_ & Hks & Hs).
            destruct (string_token_value _ Hs Hks) as [s ->].
            split; [assumption|]. split; [exact I|constructor].
          * injection E as <- <-. destruct Hstr as [-> _].
            split; [assumption|]. split; [exact I|constructor]. }
    destruct Hvalue as (Hu2 & Hvs & Hsub).
    apply parse_note_shape in E0; [|assumption]. destruct E0 as [Hu3 Hnotes].
    split; [assumption|]. simpl. constructor.
    + split; [apply text_token_name; assumption|]. split; assumption.
    + destruct (val_un value); exact Hsub.
  - intros u l u' Hu H. simpl in H.
    bind_inv H. destruct a as [close u1].
    apply token_consume_post in E; [|assumption]. destruct E as [Hu1 Hclose].
    destruct close as [t|].
    + injection H as <- <-. split; [assumption|constructor].
    + destruct Hclose as [-> _]. bind_inv H. destruct a as [temp u2].
      apply token_consume_post in E; [|assumption]. destruct E as [Hu2 Hnone].
      destruct temp as [t|]; [discriminate|]. destruct Hnone as [-> _].
      bind_inv H. destruct a as [child u3]. bind_inv H. destruct a as [rest u4].
      injection H as <- <-.
      apply IHnode in E; [|assumption]. destruct E as [Hu3 Hchild].
      apply IHlist in E0; [|assumption]. destruct E0 as [Hu4 Hrest].
      split; [assumption|]. simpl. apply Forall_app. split; assumption.
Qed.

Lemma unit_shape_fresh (d : list Z) (s : ptr) (len : Z) :
  unit_shape (mk_unit d s len 0 0 token_zero token_zero).
Proof. split; reflexivity. Qed.

Lemma lex_next_shape (u : unit_t) (t : token_t) (u' : unit_t) :
  unit_shape u -> lex_next u = Ok (t, u') -> unit_shape u'.
Proof.
  intros [_ Hc] H. apply lex_next_post in H. destruct H as (Ht & Hp & Hcur).
  split; congruence.
Qed.

Lemma y_load_shape (y : yctx_t) (file : list Z) (head : y_node_t) (y' : yctx_t) :
  y_load y file = Ok (head, y') -> Forall node_shape (subnodes head).
Proof.
  unfold y_load. intros H. bind_inv H. destruct a as [t u1].
  bind_inv H. destruct a as [head1 u2]. injection H as <- _.
  apply lex_next_shape in E; [|apply unit_shape_fresh].
  unfold parse_unit in E0. bind_inv E0. destruct a as [node u3].
  bind_inv E0. destruct a as [t' u4]. injection E0 as <- _.
  destruct (parse_shape (parse_fuel u1)) as [Hnode _].
  apply Hnode in E1; [|assumption]. apply E1.
Qed.

(** ** Name comparison *)

Lemma strncmp_eq (a b : list Z) :
  List.length a = List.length b -> ~ In 0 a \/ ~ In 0 b ->
  (strncmp a b (List.length b) = 0 <-> a = b).
Proof.
  revert b. induction a as [|ca ta IH]; intros [|cb tb] Hlen Hnz;
    try discriminate; simpl.
  - split; reflexivity.
  - injection Hlen as Hlen.
    assert (Hnz' : ~ In 0 ta \/ ~ In 0 tb).
    { destruct Hnz as [Hnz|Hnz]; [left|right]; intros Hin; apply Hnz; right; exact Hin. }
    destruct (ca =? cb) eqn:Hc.
    + apply Z.eqb_eq in Hc. subst cb.
      destruct (ca =? 0) eqn:Hz.
      * apply Z.eqb_eq in Hz. subst ca. exfalso.
        destruct Hnz as [Hnz|Hnz]; apply Hnz; left; reflexivity.
      * rewrite (IH tb Hlen Hnz'). split; [intros ->; reflexivity|].
        intros [= ->]. reflexivity.
    + apply Z.eqb_neq in Hc. split; [lia|]. intros [= -> _]. contradiction.
Qed.

Lemma string_length_eq (a b : string_t) :
  (string_length a =? string_length b) = true <-> List.length a = List.length b.
Proof. unfold string_length. rewrite Z.eqb_eq. lia. Qed.


Lemma name_matches_eq (segment : string_t) (it : y_node_t) :
  ~ In 0 segment \/ ~ In 0 (node_name it) ->
  (name_matches segment it = true <-> node_name it = segment).
Proof.
  intros Hnz. unfold name_matches. rewrite andb_true_iff, string_length_eq, Z.eqb_eq.
  split.
  - intros [Hlen Hcmp]. symmetry. apply (strncmp_eq _ _ Hlen Hnz). exact Hcmp.
  - intros Heq. rewrite Heq in *. split; [reflexivity|].
    apply strncmp_eq; [reflexivity|exact Hnz|reflexivity].
Qed.

Lemma y_find_scan_none (segment : string_t) (chain : list y_node_t) :
  ~ In 0 segment ->
  (forall it, In it chain -> node_name it <> segment) ->
  y_find_scan segment chain = None.
Proof.
  intros Hnz. induction chain as [|it rest IH]; intros Hall; simpl; [reflexivity|].
  destruct (name_matches segment it) eqn:Hm.
  - apply name_matches_eq in Hm; [|auto]. exfalso. apply (Hall it); [left; reflexivity|assumption].
  - apply IH. intros it' Hin. apply Hall. right. exact Hin.
Qed.

(** * Lexing a path of plain segments *)

Lemma deref_set_cursor (u : unit_t) (c i : Z) : deref (set_cursor u c) i = deref u i.
Proof. reflexivity. Qed.

Lemma deref_app (u : unit_t) (pre rest : list Z) :
  unit_data u = pre ++ rest ->
  deref u (Z.of_nat (List.length pre)) = Ok (hd 0 rest).
Proof.
  intros Hd. unfold deref, buffer_size.
  replace (Z.of_nat (List.length pre) <? 0) with false by (symmetry; apply Z.ltb_ge; lia).
  rewrite Nat2Z.id, Hd. destruct rest as [|x rest].
  - rewrite app_nil_r.
    replace (nth_error pre (List.length pre)) with (@None Z)
      by (symmetry; apply nth_error_None; lia).
    rewrite Z.eqb_refl. reflexivity.
  - rewrite nth_error_app2 by lia. rewrite Nat.sub_diag. reflexivity.
Qed.

Lemma raw_plain (u : unit_t) (b : Z) :
  deref u (unit_cursor u) = Ok b -> b <> ch_slash ->
  raw u = Ok (unit_cursor u, set_cursor u (unit_cursor u + 1)).
Proof.
  intros Hd Hb. unfold raw. rewrite deref_set_cursor, Hd. cbn [bind].
  apply Z.eqb_neq in Hb. rewrite Hb. reflexivity.
Qed.

Lemma set_cursor_twice (u : unit_t) (a b : Z) :
  set_cursor (set_cursor u a) b = set_cursor u b.
Proof. reflexivity. Qed.

Lemma Ok_set_cursor (u : unit_t) (a b : Z) :
  a = b -> @Ok unit_t (set_cursor u a) = Ok (set_cursor u b).
Proof. intros ->. reflexivity. Qed.

Lemma is_text_char_not_slash (c : Z) : is_text_char c = true -> c <> ch_slash.
Proof. intros H ->. discriminate. Qed.

Lemma token_text_scan_segment (seg : list Z) :
  forall (pre post : list Z) (u : unit_t) (fuel : nat),
    unit_data u = pre ++ seg ++ post ->
    unit_cursor u = Z.of_nat (List.length pre) + 1 ->
    seg <> [] -> Forall (fun c => is_text_char c = true) seg ->
    ends_segment post -> (List.length seg < fuel)%nat ->
    token_text_scan fuel u (Z.of_nat (List.length pre))
    = Ok (set_cursor u (Z.of_nat (List.length pre) + Z.of_nat (List.length seg) + 1)).
Proof.
  induction seg as [|x seg IH]; intros pre post u fuel Hd Hc Hne Htext Hend Hfuel.
  - contradiction.
  - inversion Htext as [|? ? Hx Hrest]; subst.
    destruct fuel as [|fuel]; [simpl in Hfuel; lia|]. cbn [token_text_scan].
    rewrite (deref_app u pre (x :: seg ++ post) Hd). cbn [bind hd]. rewrite Hx.
    assert (Hd' : unit_data u = (pre ++ [x]) ++ seg ++ post)
      by (rewrite Hd, <- app_assoc; reflexivity).
    assert (Hlen : Z.of_nat (List.length (pre ++ [x])) = Z.of_nat (List.length pre) + 1)
      by (rewrite length_app; simpl; lia).
    assert (Hnext : deref u (unit_cursor u) = Ok (hd 0 (seg ++ post))).
    { rewrite Hc, <- Hlen. apply deref_app. exact Hd'. }
    assert (Hns : hd 0 (seg ++ post) <> ch_slash).
    { destruct seg as [|y seg]; [apply Hend|].
      inversion Hrest; subst. apply is_text_char_not_slash. assumption. }
    rewrite (raw_plain u _ Hnext Hns). cbn [bind].
    destruct seg as [|y seg].
    + destruct fuel as [|fuel]; [simpl in Hfuel; lia|]. cbn [token_text_scan].
      rewrite deref_set_cursor, Hnext. cbn [bind app].
      destruct Hend as [Hend _]. rewrite Hend, Hc.
      apply Ok_set_cursor. simpl List.length. lia.
    + rewrite Hc, <- Hlen.
      rewrite (IH (pre ++ [x]) post (set_cursor u (Z.of_nat (List.length (pre ++ [x])) + 1)) fuel);
        try assumption; try discriminate.
      * rewrite set_cursor_twice, Hlen.
        apply Ok_set_cursor. simpl List.length. lia.
      * reflexivity.
      * simpl in Hfuel |- *. lia.
Qed.

Lemma slice_app (pre seg post : list Z) :
  slice (pre ++ seg ++ post) (Z.of_nat (List.length pre))
        (Z.of_nat (List.length pre) + Z.of_nat (List.length seg)) = seg.
Proof.
  unfold slice. rewrite Nat2Z.id.
  replace (Z.to_nat (Z.of_nat (List.length pre) + Z.of_nat (List.length seg)
                     - Z.of_nat (List.length pre)))
    with (List.length seg) by lia.
  rewrite skipn_app, skipn_all, Nat.sub_diag. simpl.
  rewrite firstn_app, firstn_all, Nat.sub_diag. simpl. apply app_nil_r.
Qed.

(** The classes of the byte a segment starts with. *)
Lemma segment_start (c : Z) :
  (isalpha c || (c =? ch_underscore)) = true ->
  is_text_char c = true /\ c <> ch_slash /\
  (c =? 0) = false /\ (c =? ch_newline) = false /\
  ((c =? ch_tab) || (c =? ch_space)) = false /\
  ((c =? ch_open) || (c =? ch_close) || (c =? ch_at)) = false /\
  (c =? ch_quote) = false.
Proof.
  intros H.
  assert (Hnot : forall k, (isalpha k || (k =? ch_underscore)) = false -> (c =? k) = false).
  { intros k Hk. apply Z.eqb_neq. intros ->. congruence. }
  split.
  { unfold is_text_char. apply orb_true_iff in H. destruct H as [-> | ->];
      [reflexivity|apply orb_true_r]. }
  split; [intros ->; discriminate|].
  rewrite !(Hnot 0), !(Hnot ch_newline), !(Hnot ch_tab), !(Hnot ch_space),
    !(Hnot ch_open), !(Hnot ch_close), !(Hnot ch_at), !(Hnot ch_quote) by reflexivity.
  repeat split.
Qed.

Lemma is_segment_text (seg : list Z) :
  is_segment seg -> seg <> [] /\ Forall (fun c => is_text_char c = true) seg.
Proof.
  destruct seg as [|c rest]; [contradiction|]. intros [Hc Hrest].
  split; [discriminate|]. constructor; [apply segment_start; assumption|assumption].
Qed.

Lemma next_from_spaces (ws : list Z) :
  forall (pre rest : list Z) (u : unit_t) (fuel : nat),
    unit_data u = pre ++ ws ++ rest ->
    unit_cursor u = Z.of_nat (List.length pre) ->
    Forall (fun c => c = ch_space) ws ->
    hd 0 rest <> ch_slash -> (hd 0 rest =? ch_newline) = false ->
    ((hd 0 rest =? ch_tab) || (hd 0 rest =? ch_space)) = false ->
    (List.length ws < fuel)%nat ->
    next_from fuel u
    = Ok (Z.of_nat (List.length pre) + Z.of_nat (List.length ws),
          set_cursor u (Z.of_nat (List.length pre) + Z.of_nat (List.length ws) + 1)).
Proof.
  induction ws as [|w ws IH]; intros pre rest u fuel Hd Hc Hws Hslash Hnl Hblank Hfuel;
    (destruct fuel as [|fuel]; [simpl in Hfuel; lia|]); cbn [next_from].
  - assert (Hfirst : deref u (unit_cursor u) = Ok (hd 0 rest))
      by (rewrite Hc; apply (deref_app u pre rest Hd)).
    rewrite (raw_plain u _ Hfirst Hslash). cbn [bind].
    rewrite deref_set_cursor, Hfirst. cbn [bind]. rewrite Hnl, Hblank, Hc.
    simpl List.length. rewrite Z.add_0_r. reflexivity.
  - inversion Hws as [|? ? Hw Hrest]; subst.
    assert (Hfirst : deref u (unit_cursor u) = Ok ch_space)
      by (rewrite Hc; apply (deref_app u pre ((ch_space :: ws) ++ rest) Hd)).
    rewrite (raw_plain u _ Hfirst) by discriminate. cbn [bind].
    rewrite deref_set_cursor, Hfirst. cbn [bind].
    change (ch_space =? ch_newline) with false.
    change ((ch_space =? ch_tab) || (ch_space =? ch_space)) with true. cbn iota.
    assert (Hlen : Z.of_nat (List.length (pre ++ [ch_space])) = Z.of_nat (List.length pre) + 1)
      by (rewrite length_app; simpl; lia).
    rewrite (IH (pre ++ [ch_space]) rest); try assumption.
    + rewrite set_cursor_twice, Hlen. simpl List.length.
      f_equal. f_equal; [lia|]. f_equal. lia.
    + cbn [unit_data set_cursor]. rewrite Hd, <- app_assoc. reflexivity.
    + cbn [unit_cursor set_cursor]. lia.
    + simpl in Hfuel. lia.
Qed.

(** With the cursor on a segment, or on blanks before one, [lex_token]
    returns the segment as a TEXT token and leaves the cursor behind it;
    nothing else in the unit changes. *)
Lemma lex_token_segment (u : unit_t) (pre ws seg post : list Z) :
  unit_data u = pre ++ ws ++ seg ++ post ->
  unit_cursor u = Z.of_nat (List.length pre) ->
  unit_cursor u <= unit_length u ->
  Forall (fun c => c = ch_space) ws ->
  is_segment seg -> ends_segment post ->
  let b := Z.of_nat (List.length pre) + Z.of_nat (List.length ws) in
  lex_token u
  = Ok (mk_token TOKEN_TEXT
          (source u (Some b) (Some (b + Z.of_nat (List.length seg))))
          (mk_value Y_STRING (U_string seg)),
        set_cursor u (b + Z.of_nat (List.length seg))).
Proof.
  intros Hd Hc Hlen Hws Hseg Hend b.
  destruct (is_segment_text seg Hseg) as [Hne Htext].
  destruct seg as [|c rest]; [contradiction|]. destruct Hseg as [Hstart _].
  destruct (segment_start c Hstart) as (_ & Hslash & Hz & Hnl & Hblank & Hstruct & Hq).
  unfold lex_token.
  replace (unit_cursor u >? unit_length u) with false
    by (symmetry; rewrite Z.gtb_ltb; apply Z.ltb_ge; lia).
  unfold next.
  rewrite (next_from_spaces ws pre ((c :: rest) ++ post)); try assumption;
    [|unfold scan_fuel; rewrite Hd, !length_app; lia].
  fold b. cbn [bind].
  assert (Hd' : unit_data u = (pre ++ ws) ++ (c :: rest) ++ post)
    by (rewrite Hd, <- app_assoc; reflexivity).
  assert (Hb : b = Z.of_nat (List.length (pre ++ ws)))
    by (unfold b; rewrite length_app; lia).
  assert (Hfirst : deref u b = Ok c).
  { rewrite Hb. apply (deref_app u (pre ++ ws) ((c :: rest) ++ post) Hd'). }
  rewrite deref_set_cursor, Hfirst. cbn [bind]. rewrite Hz, Hstruct, Hq, Hstart.
  unfold token_text. rewrite Hb.
  rewrite (token_text_scan_segment (c :: rest) (pre ++ ws) post); try assumption.
  - cbn [bind]. unfold token_new.
    replace ((TOKEN_TEXT =? TOKEN_TEXT) || (TOKEN_TEXT =? TOKEN_STRING)) with true by reflexivity.
    cbn [unit_cursor set_cursor unit_data].
    replace (Z.of_nat (List.length (pre ++ ws)) + Z.of_nat (List.length (c :: rest)) + 1 - 1)
      with (Z.of_nat (List.length (pre ++ ws)) + Z.of_nat (List.length (c :: rest))) by lia.
    rewrite Hd', slice_app. reflexivity.
  - cbn [unit_cursor set_cursor]. lia.
  - unfold scan_fuel. cbn [unit_data set_cursor]. rewrite Hd', !length_app. lia.
Qed.

(** With the cursor on the terminator, [lex_token] returns a NONE token. *)
Lemma lex_token_end (u : unit_t) :
  unit_cursor u = buffer_size u -> unit_cursor u <= unit_length u ->
  lex_token u
  = Ok (mk_token TOKEN_NONE
          (source u (Some (unit_cursor u)) (Some (unit_cursor u))) value_zero,
        set_cursor u (unit_cursor u + 1)).
Proof.
  intros Hc Hlen. unfold lex_token.
  replace (unit_cursor u >? unit_length u) with false
    by (symmetry; rewrite Z.gtb_ltb; apply Z.ltb_ge; lia).
  assert (Hfirst : deref u (unit_cursor u) = Ok 0).
  { rewrite Hc. unfold buffer_size.
    apply (deref_app u (unit_data u) []). symmetry. apply app_nil_r. }
  unfold next, scan_fuel. rewrite Nat.add_comm. cbn [Nat.add next_from].
  rewrite (raw_plain u 0 Hfirst) by discriminate. cbn [bind].
  rewrite deref_set_cursor, Hfirst. cbn [bind].
  change (0 =? ch_newline) with false.
  change ((0 =? ch_tab) || (0 =? ch_space)) with false. cbn iota. cbn [bind].
  rewrite deref_set_cursor, Hfirst. reflexivity.
Qed.

(** The same through [lex_next] and [token_consume]: the segment becomes the
    token ahead, and the token that was ahead is the one eaten. *)
Lemma lex_next_segment (u : unit_t) (pre ws seg post : list Z) :
  unit_data u = pre ++ ws ++ seg ++ post ->
  unit_cursor u = Z.of_nat (List.length pre) ->
  unit_cursor u <= unit_length u ->
  Forall (fun c => c = ch_space) ws ->
  is_segment seg -> ends_segment post ->
  let b := Z.of_nat (List.length pre) + Z.of_nat (List.length ws) in
  let e := b + Z.of_nat (List.length seg) in
  let t := mk_token TOKEN_TEXT (source u (Some b) (Some e))
                    (mk_value Y_STRING (U_string seg)) in
  lex_next u = Ok (t, set_tokens (set_cursor u e) (unit_current u) t).
Proof.
  intros Hd Hc Hlen Hws Hseg Hend b e t. unfold lex_next.
  rewrite (lex_token_segment _ pre ws seg post); try assumption.
  reflexivity.
Qed.

Lemma token_consume_segment (u : unit_t) (pre ws seg post : list Z) :
  tok_kind (unit_current u) = TOKEN_TEXT ->
  unit_data u = pre ++ ws ++ seg ++ post ->
  unit_cursor u = Z.of_nat (List.length pre) ->
  unit_cursor u <= unit_length u ->
  Forall (fun c => c = ch_space) ws ->
  is_segment seg -> ends_segment post ->
  let b := Z.of_nat (List.length pre) + Z.of_nat (List.length ws) in
  let e := b + Z.of_nat (List.length seg) in
  let t := mk_token TOKEN_TEXT (source u (Some b) (Some e))
                    (mk_value Y_STRING (U_string seg)) in
  token_consume u TOKEN_TEXT
  = Ok (Some (unit_current u), set_tokens (set_cursor u e) (unit_current u) t).
Proof.
  intros Hk Hd Hc Hlen Hws Hseg Hend b e t. unfold token_consume, token_eat.
  rewrite Hk. change (TOKEN_TEXT =? TOKEN_TEXT) with true. cbn iota.
  rewrite (lex_next_segment u pre ws seg post); try assumption.
  reflexivity.
Qed.

Lemma strlen_nonneg (s : list Z) : 0 <= strlen s.
Proof. induction s as [|c t IH]; cbn [strlen]; [lia|]. destruct (c =? 0); lia. Qed.

Lemma strlen_prefix (seg rest : list Z) :
  ~ In 0 seg -> Z.of_nat (List.length seg) <= strlen (seg ++ rest).
Proof.
  induction seg as [|c t IH]; intros Hnz.
  - simpl. apply strlen_nonneg.
  - cbn [app strlen]. destruct (c =? 0) eqn:Hc.
    + apply Z.eqb_eq in Hc. exfalso. apply Hnz. left. exact Hc.
    + assert (Ht : ~ In 0 t) by (intros Hin; apply Hnz; right; exact Hin).
      specialize (IH Ht). simpl List.length. lia.
Qed.

Lemma is_segment_nonzero (seg : list Z) : is_segment seg -> ~ In 0 seg.
Proof.
  intros Hseg Hin. destruct (is_segment_text seg Hseg) as [_ Htext].
  rewrite Forall_forall in Htext. specialize (Htext 0 Hin). discriminate.
Qed.

Lemma path_of_split (first : list Z) (others : list (list Z)) :
  path_of first others = first ++ path_tail others.
Proof. destruct others; simpl; [symmetry; apply app_nil_r|reflexivity]. Qed.

Lemma path_tail_ends (others : list (list Z)) : ends_segment (path_tail others).
Proof. destruct others; split; simpl; first [reflexivity|discriminate]. Qed.

(** On a path of plain segments [y_find] reads the first segment and eats it,
    the token ahead being the second segment or the end. *)
Lemma path_first_segment (first : list Z) (others : list (list Z)) :
  is_segment first -> Forall is_segment others ->
  exists t u1 segment u2,
    lex_next (unit_of_path (path_of first others)) = Ok (t, u1) /\
    token_consume u1 TOKEN_TEXT = Ok (Some segment, u2) /\
    value_string (tok_value segment) = first.
Proof.
  intros Hfirst Hothers. rewrite path_of_split.
  set (path := first ++ path_tail others).
  pose proof (strlen_prefix first (path_tail others) (is_segment_nonzero _ Hfirst)) as Hlen.
  fold path in Hlen.
  assert (Hlex : forall p c,
             lex_token (set_tokens (unit_of_path path) p c)
             = Ok (mk_token TOKEN_TEXT
                     (source (unit_of_path path) (Some 0)
                             (Some (Z.of_nat (List.length first))))
                     (mk_value Y_STRING (U_string first)),
                   set_cursor (set_tokens (unit_of_path path) p c)
                              (Z.of_nat (List.length first)))).
  { intros p c.
    apply (lex_token_segment (set_tokens (unit_of_path path) p c) [] [] first
                             (path_tail others)); try assumption.
    - reflexivity.
    - reflexivity.
    - cbn [unit_cursor unit_length set_tokens unit_of_path]. apply strlen_nonneg.
    - constructor.
    - apply path_tail_ends. }
  unfold lex_next at 1. rewrite Hlex. cbn [bind].
  match goal with |- context [Ok (?t, ?v) = Ok _] => set (t1 := t); set (u1 := v) end.
  assert (Hsecond : exists t2 u2, lex_token (set_tokens u1 t1 t1) = Ok (t2, u2)).
  { destruct others as [|second others'].
    - eexists _, _. apply lex_token_end.
      + unfold buffer_size. cbn [unit_cursor unit_data set_tokens u1
                                 set_cursor unit_of_path].
        unfold path. cbn [path_tail]. rewrite app_nil_r. reflexivity.
      + exact Hlen.
    - inversion Hothers as [|? ? Hsecond Hrest]; subst.
      eexists _, _.
      apply (lex_token_segment (set_tokens u1 t1 t1) first [ch_space] second
                               (path_tail others')).
      + cbn [unit_data set_tokens u1 set_cursor unit_of_path].
        unfold path. cbn [path_tail]. rewrite path_of_split. reflexivity.
      + reflexivity.
      + exact Hlen.
      + repeat constructor.
      + assumption.
      + apply path_tail_ends. }
  destruct Hsecond as (t2 & u2 & Hsecond).
  exists t1, u1, t1, (set_tokens u2 (unit_previous u2) t2).
  split; [reflexivity|]. split; [|reflexivity].
  unfold token_consume, token_eat, lex_next.
  change (tok_kind (unit_current u1) =? TOKEN_TEXT) with true. cbn iota.
  change (unit_current u1) with t1. rewrite Hsecond. cbn [bind].
  apply lex_token_shape in Hsecond. destruct Hsecond as (_ & _ & _ & _ & Hp & _).
  cbn [unit_previous set_tokens]. rewrite Hp. reflexivity.
Qed.

(** * The loop bounds are never reached *)

Lemma fueled_bind {A B : Type} (r : result A) (k : A -> result B) :
  fueled r -> (forall a, r = Ok a -> fueled (k a)) -> fueled (bind r k).
Proof.
  unfold fueled. destruct r as [a| |ub]; simpl; intros Hr Hk.
  - apply Hk. reflexivity.
  - discriminate.
  - intros [= ->]. apply Hr. reflexivity.
Qed.

Lemma fueled_Ok {A : Type} (a : A) : fueled (Ok a).
Proof. discriminate. Qed.

Lemma fueled_Fatal {A : Type} (s : source_t) (m : fatal_msg) : fueled (@Fatal A s m).
Proof. discriminate. Qed.

Lemma fueled_deref (u : unit_t) (i : Z) : fueled (deref u i).
Proof.
  unfold deref. destruct (i <? 0); [discriminate|].
  destruct (nth_error (unit_data u) (Z.to_nat i)); [discriminate|].
  destruct (i =? buffer_size u); discriminate.
Qed.

Lemma raw_skip_fueled (fuel : nat) (u : unit_t) (ch : Z) :
  unit_cursor u = ch + 1 ->
  (1 <= fuel)%nat -> buffer_size u + 1 <= Z.of_nat fuel + ch ->
  fueled (raw_skip fuel u ch).
Proof.
  revert u ch. induction fuel as [|fuel IH]; intros u ch Hc Hone Hfuel; [lia|].
  cbn [raw_skip]. apply fueled_bind; [apply fueled_deref|]. intros c Hd.
  destruct ((c =? 0) || (c =? ch_newline)) eqn:Hstop; [apply fueled_Ok|].
  apply orb_false_iff in Hstop. destruct Hstop as [Hz _]. apply Z.eqb_neq in Hz.
  destruct (deref_nonzero _ _ _ Hd Hz) as [_ Hin].
  apply IH; unfold buffer_size in *; cbn [unit_data unit_cursor set_cursor]; lia.
Qed.

Lemma raw_fueled (u : unit_t) : fueled (raw u).
Proof.
  unfold raw. apply fueled_bind; [apply fueled_deref|]. intros c Hd.
  pose proof (deref_Ok _ _ _ Hd) as Hb.
  destruct (c =? ch_slash); [|apply fueled_Ok].
  apply fueled_bind; [apply fueled_deref|]. intros c1 Hd1.
  destruct (c1 =? ch_slash); [|apply fueled_Ok].
  apply raw_skip_fueled; [reflexivity| |];
    unfold scan_fuel, buffer_size in *;
    cbn [unit_data store set_data set_cursor] in *; rewrite ?store_at_length; lia.
Qed.

(** The byte [raw] returns lies in the buffer or is its terminator. *)
Lemma raw_bound (u : unit_t) (ch : Z) (u' : unit_t) :
  raw u = Ok (ch, u') -> ch <= buffer_size u /\ buffer_size u' = buffer_size u.
Proof.
  intros H. pose proof (raw_post _ _ _ H) as (Hge & Hcur & (Hlen & _) & _ & _ & Hrun).
  split; [|unfold buffer_size; lia].
  destruct (Z.eq_dec ch (unit_cursor u)) as [->|Hne].
  - revert H. unfold raw. intros H. bind_inv H.
    apply deref_Ok in E. apply E.
  - destruct (Hrun (ch - 1)) as (x & Hx & _); [lia|].
    assert (Hlt : (Z.to_nat (ch - 1) < List.length (unit_data u'))%nat)
      by (apply nth_error_Some; congruence).
    unfold buffer_size. lia.
Qed.

Lemma next_from_fueled (fuel : nat) (u : unit_t) :
  (1 <= fuel)%nat -> buffer_size u + 2 <= Z.of_nat fuel + unit_cursor u ->
  fueled (next_from fuel u).
Proof.
  revert u. induction fuel as [|fuel IH]; intros u Hone Hfuel; [lia|].
  cbn [next_from]. apply fueled_bind; [apply raw_fueled|]. intros [ch u1] Hraw.
  pose proof (raw_post _ _ _ Hraw) as (Hge & Hcur & _).
  pose proof (raw_bound _ _ _ Hraw) as [Hch Hsize].
  apply fueled_bind; [apply fueled_deref|]. intros c Hd.
  assert (Hgo : c <> 0 -> forall l s, fueled (next_from fuel (set_line u1 l s))).
  { intros Hz l s. destruct (deref_nonzero _ _ _ Hd Hz) as [_ Hin].
    apply IH; unfold buffer_size in *; cbn [unit_data unit_cursor set_line]; lia. }
  destruct (c =? ch_newline) eqn:Hnl.
  - apply Hgo. apply Z.eqb_eq in Hnl. rewrite Hnl. discriminate.
  - destruct ((c =? ch_tab) || (c =? ch_space)) eqn:Hblank; [|apply fueled_Ok].
    replace u1 with (set_line u1 (unit_line u1) (unit_start u1)) by (destruct u1; reflexivity).
    apply Hgo. intros ->. discriminate.
Qed.

Lemma next_fueled (u : unit_t) : fueled (next u).
Proof.
  unfold next. destruct (Z_lt_ge_dec (unit_cursor u) 0) as [Hneg|Hpos].
  - unfold scan_fuel. rewrite Nat.add_comm. cbn [Nat.add next_from].
    unfold raw, deref. cbn [unit_cursor set_cursor].
    replace (unit_cursor u <? 0) with true by (symmetry; apply Z.ltb_lt; lia).
    discriminate.
  - apply next_from_fueled; unfold scan_fuel, buffer_size; lia.
Qed.

Lemma token_string_scan_fueled (fuel : nat) (u : unit_t) :
  (1 <= fuel)%nat -> buffer_size u + 2 <= Z.of_nat fuel + unit_cursor u ->
  fueled (token_string_scan fuel u).
Proof.
  revert u. induction fuel as [|fuel IH]; intros u Hone Hfuel; [lia|].
  cbn [token_string_scan]. apply fueled_bind; [apply raw_fueled|]. intros [ch u1] Hraw.
  pose proof (raw_post _ _ _ Hraw) as (Hge & Hcur & _).
  pose proof (raw_bound _ _ _ Hraw) as [Hch Hsize].
  apply fueled_bind; [apply fueled_deref|]. intros c Hd.
  destruct (c =? ch_quote); [apply fueled_Ok|].
  destruct (c =? ch_newline); [apply fueled_Fatal|].
  apply IH; lia.
Qed.

Lemma token_text_scan_fueled (fuel : nat) (u : unit_t) (ch : Z) :
  (1 <= fuel)%nat -> buffer_size u + 2 <= Z.of_nat fuel + unit_cursor u ->
  fueled (token_text_scan fuel u ch).
Proof.
  revert u ch. induction fuel as [|fuel IH]; intros u ch Hone Hfuel; [lia|].
  cbn [token_text_scan]. apply fueled_bind; [apply fueled_deref|]. intros c Hd.
  destruct (is_text_char c); [|apply fueled_Ok].
  apply fueled_bind; [apply raw_fueled|]. intros [ch1 u1] Hraw.
  pose proof (raw_post _ _ _ Hraw) as (Hge & Hcur & _).
  pose proof (raw_bound _ _ _ Hraw) as [Hch Hsize].
  apply IH; lia.
Qed.

Lemma token_number_scan_fueled (fuel : nat) (u : unit_t) (ch : Z) (number : y_kind) :
  (1 <= fuel)%nat -> buffer_size u + 2 <= Z.of_nat fuel + unit_cursor u ->
  fueled (token_number_scan fuel u ch number).
Proof.
  revert u ch number. induction fuel as [|fuel IH]; intros u ch number Hone Hfuel; [lia|].
  cbn [token_number_scan]. apply fueled_bind; [apply fueled_deref|]. intros c Hd.
  destruct (is_number_char c); [|apply fueled_Ok].
  apply fueled_bind; [apply raw_fueled|]. intros [ch1 u1] Hraw.
  pose proof (raw_post _ _ _ Hraw) as (Hge & Hcur & _).
  pose proof (raw_bound _ _ _ Hraw) as [Hch Hsize].
  apply fueled_bind; [apply fueled_deref|]. intros c1 Hd1.
  destruct (c1 =? ch_dot).
  - destruct (y_kind_eqb number Y_DECIMAL); [apply fueled_Fatal|]. apply IH; lia.
  - apply IH; lia.
Qed.

(** [lex_token] never stops for want of fuel. *)
Lemma lex_token_fueled (u : unit_t) : fueled (lex_token u).
Proof.
  unfold lex_token. destruct (unit_cursor u >? unit_length u); [apply fueled_Ok|].
  apply fueled_bind; [apply next_fueled|]. intros [ch u1] Hnext.
  pose proof (next_from_post _ _ _ _ Hnext) as (Hge & Hcur & _).
  apply fueled_bind; [apply fueled_deref|]. intros c Hd.
  destruct (c =? 0); [apply fueled_Ok|].
  destruct ((c =? ch_open) || (c =? ch_close) || (c =? ch_at)); [apply fueled_Ok|].
  destruct (c =? ch_quote).
  { unfold token_string. apply fueled_bind.
    - apply token_string_scan_fueled; unfold scan_fuel, buffer_size; lia.
    - intros [ch2 u2] _. apply fueled_Ok. }
  destruct (isalpha c || (c =? ch_underscore)).
  { unfold token_text. apply fueled_bind.
    - apply token_text_scan_fueled; unfold scan_fuel, buffer_size; lia.
    - intros u2 _. apply fueled_Ok. }
  destruct (isdigit c); [|apply fueled_Fatal].
  unfold token_number. apply fueled_bind.
  - apply token_number_scan_fueled; unfold scan_fuel, buffer_size; lia.
  - intros [number u2] _. destruct number; apply fueled_Ok.
Qed.

Lemma token_string_scan_stop (fuel : nat) (u : unit_t) (ch : Z) (u' : unit_t) :
  token_string_scan fuel u = Ok (ch, u') -> ch < buffer_size u'.
Proof.
  revert u. induction fuel as [|fuel IH]; intros u H; simpl in H; [discriminate|].
  bind_inv H. destruct a as [ch1 u1]. bind_inv H. rename a into c.
  destruct (c =? ch_quote) eqn:Hq.
  - injection H as <- <-. apply Z.eqb_eq in Hq. subst c.
    apply (deref_nonzero _ _ _ E0). discriminate.
  - destruct (c =? ch_newline); [discriminate|]. apply IH in H. exact H.
Qed.

Lemma same_up_to_size (bound : Z) (u u' : unit_t) :
  same_up_to bound u u' -> buffer_size u' = buffer_size u.
Proof. intros (L & _). unfold buffer_size. lia. Qed.

Lemma token_number_scan_cursor (fuel : nat) (u : unit_t) (ch : Z) (number number' : y_kind)
      (u' : unit_t) :
  number = Y_INTEGER \/ number = Y_DECIMAL ->
  unit_cursor u = ch + 1 ->
  token_number_scan fuel u ch number = Ok (number', u') ->
  exists ch', unit_cursor u' = ch' + 1 /\
    (ch' = ch \/ ch < ch' <= buffer_size u') /\
    (forall c, deref u ch = Ok c -> is_number_char c = true -> ch < ch').
Proof.
  revert u ch number.
  induction fuel as [|fuel IH]; intros u ch number Hk Hc H; simpl in H.
  - discriminate.
  - bind_inv H. rename a into c. destruct (is_number_char c) eqn:Hnum.
    + bind_inv H. destruct a as [ch1 u1]. bind_inv H. rename a into c1.
      pose proof (raw_post _ _ _ E0) as (Hge & Hcur & _).
      pose proof (raw_bound _ _ _ E0) as [Hch Hsize].
      assert (Hgo : forall k, (k = Y_INTEGER \/ k = Y_DECIMAL) ->
                token_number_scan fuel u1 ch1 k = Ok (number', u') ->
                exists ch', unit_cursor u' = ch' + 1 /\
                  (ch' = ch \/ ch < ch' <= buffer_size u') /\
                  (forall c, deref u ch = Ok c -> is_number_char c = true -> ch < ch')).
      { intros k Hk' Hscan.
        pose proof (token_number_scan_post _ _ _ _ _ _ Hk' Hscan) as (_ & _ & Hsame).
        apply same_up_to_size in Hsame.
        apply (IH u1 ch1 k Hk' Hcur) in Hscan.
        destruct Hscan as (ch' & Hcur' & Hrange & _).
        exists ch'. split; [assumption|]. split; [right; lia|]. intros _ _ _. lia. }
      destruct (c1 =? ch_dot).
      * destruct (y_kind_eqb number Y_DECIMAL); [discriminate|]. apply (Hgo _ (or_intror eq_refl) H).
      * apply (Hgo _ Hk H).
    + injection H as _ <-. exists ch. split; [assumption|]. split; [left; reflexivity|].
      intros c' Hd Hn. congruence.
Qed.

(** Lexing moves the cursor on, past at least one byte of the buffer for
    every token but NONE. *)
Lemma lex_token_cursor (u : unit_t) (t : token_t) (u' : unit_t) :
  lex_token u = Ok (t, u') ->
  buffer_size u' = buffer_size u /\ unit_length u' = unit_length u /\
  unit_cursor u <= unit_cursor u' /\
  (tok_kind t <> TOKEN_NONE -> 0 <= unit_cursor u < unit_cursor u' /\
                               unit_cursor u' <= buffer_size u).
Proof.
  intros H. pose proof (lex_token_shape _ _ _ H) as [_ Hsame].
  pose proof (same_up_to_size _ _ _ Hsame) as Hsize.
  destruct Hsame as (_ & _ & Hlen & _).
  split; [assumption|]. split; [assumption|].
  revert H. unfold lex_token. destruct (unit_cursor u >? unit_length u).
  { intros [= <- <-]. split; [lia|]. intros Hk. exfalso. apply Hk. reflexivity. }
  intros H. bind_inv H. destruct a as [ch u1]. bind_inv H. rename a into c.
  pose proof (next_from_post _ _ _ _ E) as (Hge & Hcur & Hsame1).
  apply same_up_to_size in Hsame1.
  destruct (c =? 0) eqn:Hc0.
  { injection H as <- <-. split; [lia|]. intros Hk. exfalso. apply Hk. reflexivity. }
  apply Z.eqb_neq in Hc0. destruct (deref_nonzero _ _ _ E0 Hc0) as [_ Hin].
  destruct ((c =? ch_open) || (c =? ch_close) || (c =? ch_at)).
  { injection H as <- <-. split; [lia|]. intros _. lia. }
  destruct (c =? ch_quote).
  { unfold token_string in H. bind_inv H. destruct a as [ch2 u2]. injection H as <- <-.
    pose proof (token_string_scan_stop _ _ _ _ E1) as Hstop.
    apply token_string_scan_post in E1. destruct E1 as (Hge2 & Hcur2 & _).
    split; [lia|]. intros _. lia. }
  destruct (isalpha c || (c =? ch_underscore)) eqn:Hal.
  { unfold token_text in H. bind_inv H. rename a into u2. injection H as <- <-.
    assert (Htext : is_text_char c = true).
    { unfold is_text_char. apply orb_true_iff in Hal.
      destruct Hal as [-> | ->]; [reflexivity|]. apply orb_true_r. }
    apply (token_text_scan_post _ u1 ch ch u2) in E1; [|assumption|lia|intros i Hi; lia].
    destruct E1 as (ch' & Hle & Hcur' & Hrun & _ & Hmoved).
    specialize (Hmoved c E0 Htext).
    destruct (Hrun (ch' - 1)) as (x & Hx & _); [lia|].
    assert (Hlt : (Z.to_nat (ch' - 1) < List.length (unit_data u2))%nat)
      by (apply nth_error_Some; congruence).
    cbn [unit_cursor set_cursor]. unfold buffer_size in *. cbn [unit_data set_cursor] in *.
    split; [lia|]. intros _. lia. }
  destruct (isdigit c) eqn:Hdig; [|discriminate].
  unfold token_number in H. bind_inv H. destruct a as [number u2].
  assert (Hnum : is_number_char c = true) by (unfold is_number_char; rewrite Hdig; reflexivity).
  pose proof (token_number_scan_cursor _ _ _ _ _ _ (or_introl eq_refl) Hcur E1)
    as (ch' & Hcur' & Hrange & Hmoved).
  specialize (Hmoved c E0 Hnum).
  assert (Hu' : unit_cursor u' = ch' /\ buffer_size u' = buffer_size u2 /\
                tok_kind t = TOKEN_NUMBER).
  { destruct number; try destruct (strtoull _); injection H as <- <-;
      cbn [unit_cursor set_cursor tok_kind token_new]; repeat split; lia. }
  destruct Hu' as (Hu' & Hsz & _).
  destruct Hrange as [->|Hrange]; [lia|].
  split; [lia|]. intros _. lia.
Qed.

Lemma cursor_inside_fresh (d : list Z) (s : ptr) (len : Z) :
  cursor_inside (mk_unit d s len 0 0 token_zero token_zero).
Proof. intros H. exfalso. apply H. reflexivity. Qed.

Lemma ahead_bound (u : unit_t) : cursor_inside u -> 0 <= ahead u <= buffer_size u + 1.
Proof.
  unfold cursor_inside, ahead. intros H.
  destruct (tok_kind (unit_current u) =? TOKEN_NONE) eqn:Hk.
  - unfold buffer_size. lia.
  - apply Z.eqb_neq in Hk. specialize (H Hk). lia.
Qed.

Lemma lex_next_ahead (u : unit_t) (t : token_t) (u' : unit_t) :
  lex_next u = Ok (t, u') ->
  cursor_inside u' /\ buffer_size u' = buffer_size u /\
  (cursor_inside u -> tok_kind (unit_current u) <> TOKEN_NONE -> ahead u' < ahead u).
Proof.
  unfold lex_next. intros H. bind_inv H. destruct a as [t1 u1]. injection H as <- <-.
  apply lex_token_cursor in E. destruct E as (Hsize & _ & Hle & Hmove).
  cbn [unit_cursor set_tokens] in *.
  assert (Hsize' : buffer_size (set_tokens u1 (unit_previous u1) t1) = buffer_size u)
    by exact Hsize.
  split; [|split; [exact Hsize'|]].
  - intros Hk. cbn [unit_current set_tokens] in Hk. specialize (Hmove Hk).
    cbn [unit_cursor set_tokens]. rewrite Hsize'.
    change (buffer_size (set_tokens u (unit_current u) (unit_current u)))
      with (buffer_size u) in Hmove. lia.
  - intros Hin Hk. specialize (Hin Hk). unfold ahead.
    cbn [unit_current unit_cursor set_tokens]. rewrite Hsize'.
    replace (tok_kind (unit_current u) =? TOKEN_NONE) with false
      by (symmetry; apply Z.eqb_neq; exact Hk).
    destruct (tok_kind t1 =? TOKEN_NONE) eqn:Hk1; [lia|].
    apply Z.eqb_neq in Hk1. specialize (Hmove Hk1). lia.
Qed.

Lemma lex_next_fueled (u : unit_t) : fueled (lex_next u).
Proof.
  unfold lex_next. apply fueled_bind; [apply lex_token_fueled|].
  intros [t u1] _. apply fueled_Ok.
Qed.

Lemma token_eat_fueled (u : unit_t) : fueled (token_eat u).
Proof.
  unfold token_eat. apply fueled_bind; [apply lex_next_fueled|].
  intros [t u1] _. apply fueled_Ok.
Qed.

Lemma token_expect_fueled (u : unit_t) (kind : Z) : fueled (token_expect u kind).
Proof.
  unfold token_expect. destruct (_ =? _); [apply token_eat_fueled|apply fueled_Fatal].
Qed.

Lemma token_consume_fueled (u : unit_t) (kind : Z) : fueled (token_consume u kind).
Proof.
  unfold token_consume. destruct (_ =? _); [|apply fueled_Ok].
  apply fueled_bind; [apply token_eat_fueled|]. intros [t u1] _. apply fueled_Ok.
Qed.

Lemma token_eat_ahead (u : unit_t) (t : token_t) (u' : unit_t) :
  token_eat u = Ok (t, u') ->
  cursor_inside u' /\ buffer_size u' = buffer_size u /\
  (cursor_inside u -> tok_kind (unit_current u) <> TOKEN_NONE -> ahead u' < ahead u).
Proof.
  unfold token_eat. intros H. bind_inv H. destruct a as [t1 u1]. injection H as _ <-.
  apply lex_next_ahead in E. exact E.
Qed.

(** Eating an expected token other than NONE leaves less ahead. *)
Lemma token_expect_ahead (u : unit_t) (kind : Z) (t : token_t) (u' : unit_t) :
  kind <> TOKEN_NONE -> cursor_inside u ->
  token_expect u kind = Ok (t, u') ->
  cursor_inside u' /\ buffer_size u' = buffer_size u /\ ahead u' < ahead u.
Proof.
  unfold token_expect. intros Hkind Hin H.
  destruct (tok_kind (unit_current u) =? kind) eqn:Hk; [|discriminate].
  apply Z.eqb_eq in Hk. apply token_eat_ahead in H.
  destruct H as (Hin' & Hsize & Hless). split; [exact Hin'|]. split; [exact Hsize|].
  apply Hless; [assumption|congruence].
Qed.

Lemma token_consume_ahead (u : unit_t) (kind : Z) (r : option token_t) (u' : unit_t) :
  kind <> TOKEN_NONE -> cursor_inside u ->
  token_consume u kind = Ok (r, u') ->
  cursor_inside u' /\ buffer_size u' = buffer_size u /\
  match r with
  | Some _ => ahead u' < ahead u
  | None => u' = u
  end.
Proof.
  unfold token_consume. intros Hkind Hin H.
  destruct (tok_kind (unit_current u) =? kind) eqn:Hk.
  - apply Z.eqb_eq in Hk. bind_inv H. destruct a as [t1 u1]. injection H as <- <-.
    apply token_eat_ahead in E. destruct E as (Hin' & Hsize & Hless).
    split; [exact Hin'|]. split; [exact Hsize|].
    apply Hless; [assumption|congruence].
  - injection H as <- <-. auto.
Qed.

Lemma parse_note_ahead (fuel : nat) (u : unit_t) (notes : list y_note_t) (u' : unit_t) :
  cursor_inside u -> parse_note fuel u = Ok (notes, u') ->
  cursor_inside u' /\ buffer_size u' = buffer_size u /\ ahead u' <= ahead u.
Proof.
  revert u notes. induction fuel as [|fuel IH]; intros u notes Hin H; simpl in H.
  - discriminate.
  - bind_inv H. destruct a as [at_sign u1].
    apply token_consume_ahead in E; [|discriminate|assumption].
    destruct E as (Hin1 & Hs1 & Hless1). destruct at_sign as [t|].
    + bind_inv H. destruct a as [name u2].
      apply token_expect_ahead in E; [|discriminate|assumption].
      destruct E as (Hin2 & Hs2 & Hless2).
      bind_inv H. destruct a as [rest u3]. injection H as _ <-.
      apply IH in E; [|assumption]. destruct E as (Hin3 & Hs3 & Hless3).
      split; [assumption|]. split; lia.
    + injection H as _ <-. subst u1. split; [assumption|]. split; lia.
Qed.

Lemma parse_note_fueled (fuel : nat) (u : unit_t) :
  cursor_inside u -> ahead u < Z.of_nat fuel -> fueled (parse_note fuel u).
Proof.
  revert u. induction fuel as [|fuel IH]; intros u Hin Hfuel.
  - pose proof (ahead_bound u Hin). lia.
  - cbn [parse_note]. apply fueled_bind; [apply token_consume_fueled|].
    intros [at_sign u1] Hat.
    apply token_consume_ahead in Hat; [|discriminate|assumption].
    destruct Hat as (Hin1 & Hs1 & Hless1). destruct at_sign as [t|]; [|apply fueled_Ok].
    apply fueled_bind; [apply token_expect_fueled|]. intros [name u2] Hname.
    apply token_expect_ahead in Hname; [|discriminate|assumption].
    destruct Hname as (Hin2 & Hs2 & Hless2).
    apply fueled_bind; [apply IH; [assumption|lia]|].
    intros [rest u3] _. apply fueled_Ok.
Qed.

Lemma parse_node_unfold (fuel : nat) (u : unit_t) :
  parse_node (S fuel) u
  = let* (name, u) := token_expect u TOKEN_TEXT in
    let* (value, u) := parse_value fuel u in
    let* (note, u) := parse_note (scan_fuel u) u in
    Ok (mk_node (value_string (tok_value name)) note value, u).
Proof. reflexivity. Qed.

(** Parsing leaves the cursor inside the buffer and nothing more ahead than
    there was: each node read leaves less. *)
Lemma parse_ahead (fuel : nat) :
  (forall u n u', cursor_inside u -> parse_node fuel u = Ok (n, u') ->
     cursor_inside u' /\ buffer_size u' = buffer_size u /\ ahead u' < ahead u) /\
  (forall u l u', cursor_inside u -> parse_list fuel u = Ok (l, u') ->
     cursor_inside u' /\ buffer_size u' = buffer_size u /\ ahead u' <= ahead u).
Proof.
  induction fuel as [|fuel [IHnode IHlist]]; [split; intros; discriminate|].
  split.
  - intros u n u' Hin H. rewrite parse_node_unfold in H.
    bind_inv H. destruct a as [name u1].
    apply token_expect_ahead in E; [|discriminate|assumption].
    destruct E as (Hin1 & Hs1 & Hless1).
    bind_inv H. destruct a as [value u2]. bind_inv H. destruct a as [note u3].
    injection H as _ <-.
    assert (Hvalue : cursor_inside u2 /\ buffer_size u2 = buffer_size u1 /\
                     ahead u2 <= ahead u1).
    { unfold parse_value in E. bind_inv E. destruct a as [open v1].
      apply token_consume_ahead in E1; [|discriminate|assumption].
      destruct E1 as (Hv1 & Hsv1 & Hl1). destruct open as [t|].
      - bind_inv E. destruct a as [children v2]. injection E as _ <-.
        apply IHlist in E1; [|assumption]. destruct E1 as (Hv2 & Hsv2 & Hl2).
        split; [assumption|]. split; lia.
      - subst v1. bind_inv E. destruct a as [temp v2].
        apply token_consume_ahead in E1; [|discriminate|assumption].
        destruct E1 as (Hv2 & Hsv2 & Hl2). destruct temp as [t|].
        + injection E as _ <-. split; [assumption|]. split; lia.
        + subst v2. bind_inv E. destruct a as [temp v3].
          apply token_consume_ahead in E1; [|discriminate|assumption].
          destruct E1 as (Hv3 & Hsv3 & Hl3). destruct temp as [t|].
          * injection E as _ <-. split; [assumption|]. split; lia.
          * injection E as _ <-. subst v3. split; [assumption|]. split; lia. }
    destruct Hvalue as (Hin2 & Hs2 & Hless2).
    apply parse_note_ahead in E0; [|assumption]. destruct E0 as (Hin3 & Hs3 & Hless3).
    split; [assumption|]. split; lia.
  - intros u l u' Hin H. simpl in H.
    bind_inv H. destruct a as [close u1].
    apply token_consume_ahead in E; [|discriminate|assumption].
    destruct E as (Hin1 & Hs1 & Hless1). destruct close as [t|].
    + injection H as _ <-. split; [assumption|]. split; lia.
    + subst u1. bind_inv H. destruct a as [temp u2].
      destruct temp as [t|]; [discriminate|].
      assert (Hsame : u2 = u).
      { revert E. unfold token_consume. destruct (_ =? _).
        - intros E. bind_inv E. destruct a as [t1 v]. discriminate.
        - intros [= <-]. reflexivity. }
      subst u2. bind_inv H. destruct a as [child u3]. bind_inv H. destruct a as [rest u4].
      injection H as _ <-.
      apply IHnode in E0; [|assumption]. destruct E0 as (Hin3 & Hs3 & Hless3).
      apply IHlist in E1; [|assumption]. destruct E1 as (Hin4 & Hs4 & Hless4).
      split; [assumption|]. split; lia.
Qed.

(** [parse_node] and its loop never stop for want of fuel when the fuel
    exceeds what lies ahead. *)
Lemma parse_fueled (fuel : nat) :
  (forall u, cursor_inside u -> ahead u + 1 <= Z.of_nat fuel -> fueled (parse_node fuel u)) /\
  (forall u, cursor_inside u -> ahead u + 2 <= Z.of_nat fuel -> fueled (parse_list fuel u)).
Proof.
  induction fuel as [|fuel [IHnode IHlist]].
  { split; intros u Hin Hfuel; pose proof (ahead_bound u Hin); lia. }
  split.
  - intros u Hin Hfuel. rewrite parse_node_unfold.
    apply fueled_bind; [apply token_expect_fueled|]. intros [name u1] Hname.
    apply token_expect_ahead in Hname; [|discriminate|assumption].
    destruct Hname as (Hin1 & Hs1 & Hless1).
    apply fueled_bind.
    + unfold parse_value. apply fueled_bind; [apply token_consume_fueled|].
      intros [open v1] Hopen.
      apply token_consume_ahead in Hopen; [|discriminate|assumption].
      destruct Hopen as (Hv1 & Hsv1 & Hl1). destruct open as [t|].
      * apply fueled_bind; [apply IHlist; [assumption|lia]|].
        intros [children v2] _. apply fueled_Ok.
      * apply fueled_bind; [apply token_consume_fueled|]. intros [temp v2] _.
        destruct temp as [t|]; [apply fueled_Ok|].
        apply fueled_bind; [apply token_consume_fueled|]. intros [temp v3] _.
        destruct temp; apply fueled_Ok.
    + intros [value u2] Hvalue.
      assert (Hin2 : cursor_inside u2).
      { unfold parse_value in Hvalue. bind_inv Hvalue. destruct a as [open v1].
        apply token_consume_ahead in E; [|discriminate|assumption].
        destruct E as (Hv1 & _ & _). destruct open as [t|].
        - bind_inv Hvalue. destruct a as [children v2]. injection Hvalue as _ <-.
          destruct (parse_ahead fuel) as [_ Hlist].
          apply Hlist in E; [|assumption]. apply E.
        - bind_inv Hvalue. destruct a as [temp v2].
          apply token_consume_ahead in E; [|discriminate|assumption].
          destruct E as (Hv2 & _ & _). destruct temp as [t|].
          + injection Hvalue as _ <-. assumption.
          + bind_inv Hvalue. destruct a as [temp v3].
            apply token_consume_ahead in E; [|discriminate|assumption].
            destruct E as (Hv3 & _ & _).
            destruct temp as [t|]; injection Hvalue as _ <-; assumption. }
      apply fueled_bind.
      * apply parse_note_fueled; [assumption|].
        pose proof (ahead_bound u2 Hin2). unfold scan_fuel, buffer_size in *. lia.
      * intros [note u3] _. apply fueled_Ok.
  - intros u Hin Hfuel. cbn [parse_list].
    apply fueled_bind; [apply token_consume_fueled|]. intros [close u1] Hclose.
    destruct close as [t|]; [apply fueled_Ok|].
    apply token_consume_ahead in Hclose; [|discriminate|assumption].
    destruct Hclose as (_ & _ & ->).
    apply fueled_bind; [apply token_consume_fueled|]. intros [temp u2] Htemp.
    destruct temp as [t|]; [apply fueled_Fatal|].
    assert (Hsame : u2 = u).
    { revert Htemp. unfold token_consume. destruct (_ =? _).
      - intros E. bind_inv E. destruct a as [t1 v]. discriminate.
      - intros [= <-]. reflexivity. }
    subst u2.
    apply fueled_bind; [apply IHnode; [assumption|lia]|]. intros [child u3] Hchild.
    destruct (parse_ahead fuel) as [Hnode _].
    apply Hnode in Hchild; [|assumption]. destruct Hchild as (Hin3 & Hs3 & Hless3).
    apply fueled_bind; [apply IHlist; [assumption|lia]|].
    intros [rest u4] _. apply fueled_Ok.
Qed.

Lemma y_find_loop_fueled (fuel : nat) (u : unit_t) (current : node_ptr) :
  cursor_inside u -> ahead u + 1 <= Z.of_nat fuel ->
  fueled (y_find_loop fuel u current).
Proof.
  revert u current. induction fuel as [|fuel IH]; intros u current Hin Hfuel.
  - pose proof (ahead_bound u Hin). lia.
  - cbn [y_find_loop]. apply fueled_bind; [apply token_consume_fueled|].
    intros [temp u1] Htemp.
    apply token_consume_ahead in Htemp; [|discriminate|assumption].
    destruct Htemp as (Hin1 & Hs1 & Hless1).
    destruct temp as [temp|]; [|discriminate].
    destruct current as [chain| |]; [|discriminate..].
    destruct (y_find_scan _ chain); [|apply fueled_Ok].
    destruct (_ =? _); [apply fueled_Ok|]. apply IH; [assumption|lia].
Qed.

(** [y_find] never stops for want of fuel: what it returns, or fails to, is
    what the code does. *)
Lemma y_find_fueled (y : yctx_t) (path : list Z) : fueled (y_find y path).
Proof.
  unfold y_find, y_find_run.
  apply fueled_bind; [|intros [found u] _; apply fueled_Ok].
  apply fueled_bind; [apply lex_next_fueled|]. intros [t u1] Hlex.
  apply lex_next_ahead in Hlex. destruct Hlex as (Hin & Hsize & _).
  apply y_find_loop_fueled; [assumption|].
  pose proof (ahead_bound u1 Hin). unfold scan_fuel, buffer_size in *. lia.
Qed.

(** Nor does [y_load]. *)
Lemma y_load_fueled (y : yctx_t) (file : list Z) : fueled (y_load y file).
Proof.
  unfold y_load.
  apply fueled_bind; [apply lex_next_fueled|]. intros [t u1] Hlex.
  apply lex_next_ahead in Hlex. destruct Hlex as (Hin & Hsize & _).
  apply fueled_bind; [|intros [head u2] _; apply fueled_Ok].
  unfold parse_unit. apply fueled_bind.
  - destruct (parse_fueled (parse_fuel u1)) as [Hnode _]. apply Hnode; [assumption|].
    pose proof (ahead_bound u1 Hin). unfold parse_fuel, buffer_size in *. lia.
  - intros [node u2] _. apply fueled_bind; [apply token_expect_fueled|].
    intros [t2 u3] _. apply fueled_Ok.
Qed.

(** * Fatal errors of [y_find] *)

Section FailsOnly.

Variable P : fatal_msg -> Prop.

Lemma fails_only_bind {A B : Type} (r : result A) (k : A -> result B) :
  fails_only P r -> (forall a, r = Ok a -> fails_only P (k a)) ->
  fails_only P (bind r k).
Proof.
  unfold fails_only. destruct r as [a|s0 m0|ub]; simpl; intros Hr Hk s m H.
  - apply (Hk a eq_refl s m H).
  - injection H as -> ->. apply (Hr s m eq_refl).
  - discriminate.
Qed.

Lemma fails_only_Ok {A : Type} (a : A) : fails_only P (Ok a).
Proof. intros s m H. discriminate. Qed.

Lemma fails_only_Undefined {A : Type} (ub : undefined_behaviour) :
  fails_only P (@Undefined A ub).
Proof. intros s m H. discriminate. Qed.

Lemma fails_only_Fatal {A : Type} (s : source_t) (m : fatal_msg) :
  P m -> fails_only P (@Fatal A s m).
Proof. intros Hm s' m' [= _ <-]. exact Hm. Qed.

Lemma fails_only_deref (u : unit_t) (i : Z) : fails_only P (deref u i).
Proof.
  unfold deref. intros s m. destruct (i <? 0); [discriminate|].
  destruct (nth_error (unit_data u) (Z.to_nat i)); [discriminate|].
  destruct (i =? buffer_size u); discriminate.
Qed.

Lemma fails_only_raw_skip (fuel : nat) (u : unit_t) (ch : Z) :
  fails_only P (raw_skip fuel u ch).
Proof.
  revert u ch. induction fuel as [|fuel IH]; intros u ch; [discriminate|].
  cbn [raw_skip]. apply fails_only_bind; [apply fails_only_deref|]. intros c _.
  destruct (_ || _); [apply fails_only_Ok|apply IH].
Qed.

Lemma fails_only_raw (u : unit_t) : fails_only P (raw u).
Proof.
  unfold raw. apply fails_only_bind; [apply fails_only_deref|]. intros c _.
  destruct (c =? ch_slash); [|apply fails_only_Ok].
  apply fails_only_bind; [apply fails_only_deref|]. intros c1 _.
  destruct (c1 =? ch_slash); [apply fails_only_raw_skip|apply fails_only_Ok].
Qed.

Lemma fails_only_next_from (fuel : nat) (u : unit_t) : fails_only P (next_from fuel u).
Proof.
  revert u. induction fuel as [|fuel IH]; intros u; [discriminate|].
  cbn [next_from]. apply fails_only_bind; [apply fails_only_raw|]. intros [ch u1] _.
  apply fails_only_bind; [apply fails_only_deref|]. intros c _.
  destruct (c =? ch_newline); [apply IH|].
  destruct (_ || _); [apply IH|apply fails_only_Ok].
Qed.

End FailsOnly.

Create HintDb fails.

#[local] Hint Resolve fails_only_Ok fails_only_Undefined fails_only_deref
  fails_only_raw fails_only_next_from : fails.

#[local] Hint Extern 1 (lexical _) => exact I : fails.

#[local] Hint Extern 2 (fails_only _ (Fatal _ _)) => apply fails_only_Fatal : fails.

(** One step into a [bind]: the first run by the hints, the rest to go on. *)
Ltac fails_bind := apply fails_only_bind; [auto with fails|intros ? _].

Lemma fails_only_token_string_scan (fuel : nat) (u : unit_t) :
  fails_only lexical (token_string_scan fuel u).
Proof.
  revert u. induction fuel as [|fuel IH]; intros u; [discriminate|].
  cbn [token_string_scan]. fails_bind. destruct a as [ch u1]. fails_bind.
  destruct (_ =? ch_quote); [auto with fails|].
  destruct (_ =? ch_newline); auto with fails.
Qed.

Lemma fails_only_token_text_scan (fuel : nat) (u : unit_t) (ch : Z) :
  fails_only lexical (token_text_scan fuel u ch).
Proof.
  revert u ch. induction fuel as [|fuel IH]; intros u ch; [discriminate|].
  cbn [token_text_scan]. fails_bind.
  destruct (is_text_char _); [|auto with fails].
  fails_bind. destruct a0 as [ch1 u1]. apply IH.
Qed.

Lemma fails_only_token_number_scan (fuel : nat) (u : unit_t) (ch : Z) (number : y_kind) :
  fails_only lexical (token_number_scan fuel u ch number).
Proof.
  revert u ch number. induction fuel as [|fuel IH]; intros u ch number; [discriminate|].
  cbn [token_number_scan]. fails_bind.
  destruct (is_number_char _); [|auto with fails].
  fails_bind. destruct a0 as [ch1 u1]. fails_bind.
  destruct (_ =? ch_dot); [|apply IH].
  destruct (y_kind_eqb number Y_DECIMAL); auto with fails.
Qed.

#[local] Hint Resolve fails_only_token_string_scan fails_only_token_text_scan
  fails_only_token_number_scan : fails.

(** The fatal errors of the lexer are its three. *)
Lemma lex_token_fatal (u : unit_t) : fails_only lexical (lex_token u).
Proof.
  unfold lex_token. destruct (_ >? _); [auto with fails|].
  apply fails_only_bind; [apply fails_only_next_from|]. intros [ch u1] _.
  fails_bind. rename a into c.
  destruct (c =? 0); [auto with fails|].
  destruct (_ || _); [auto with fails|].
  destruct (c =? ch_quote).
  { unfold token_string. fails_bind. destruct a as [ch2 u2]. auto with fails. }
  destruct (_ || _).
  { unfold token_text. fails_bind. apply fails_only_Ok. }
  destruct (isdigit c); [|auto with fails].
  unfold token_number. fails_bind. destruct a as [number u2].
  destruct number; apply fails_only_Ok.
Qed.

Lemma token_consume_fatal (u : unit_t) (kind : Z) :
  fails_only lexical (token_consume u kind).
Proof.
  unfold token_consume, token_eat, lex_next. destruct (_ =? _); [|auto with fails].
  apply fails_only_bind; [|intros [t u1] _; auto with fails].
  apply fails_only_bind; [|intros [t u1] _; auto with fails].
  apply fails_only_bind; [apply lex_token_fatal|]. intros [t u1] _. auto with fails.
Qed.

Lemma y_find_loop_fatal (fuel : nat) (u : unit_t) (current : node_ptr) :
  fails_only lexical (y_find_loop fuel u current).
Proof.
  revert u current. induction fuel as [|fuel IH]; intros u current; [discriminate|].
  cbn [y_find_loop]. apply fails_only_bind; [apply token_consume_fatal|].
  intros [temp u1] _. destruct temp as [temp|]; [|auto with fails].
  destruct current as [chain| |]; [|auto with fails..].
  destruct (y_find_scan _ chain); [|auto with fails].
  destruct (_ =? _); [auto with fails|apply IH].
Qed.

(** When [y_find] stops the process, it is for a lexical error in its path:
    no failure to match is fatal. *)
Lemma y_find_fatal (y : yctx_t) (path : list Z) : fails_only lexical (y_find y path).
Proof.
  unfold y_find, y_find_run.
  apply fails_only_bind; [|intros [found u] _; auto with fails].
  apply fails_only_bind; [|intros [t u1] _; apply y_find_loop_fatal].
  unfold lex_next. apply fails_only_bind; [apply lex_token_fatal|].
  intros [t u1] _. auto with fails.
Qed.

(** * The forest and [y_find] *)

Lemma link_head_units (y : yctx_t) (head : y_node_t) (units : list unit_t) :
  ctx_units (link_head y head units) = units.
Proof. unfold link_head. destruct (ctx_heads y); reflexivity. Qed.

Lemma y_load_heads (y : yctx_t) (file : list Z) (head : y_node_t) (y' : yctx_t) :
  heads_at_tail y -> y_load y file = Ok (head, y') ->
  heads_at_tail y' /\ ctx_root y' = ctx_root y /\
  ctx_loaded y' = ctx_loaded y ++ [head] /\
  heads_node y' = Chain [head] /\
  chain_from y' (ctx_heads y') = [head].
Proof.
  unfold heads_at_tail, y_load. intros Hy H. bind_inv H. destruct a as [t u1].
  bind_inv H. destruct a as [head1 u2]. injection H as <- <-.
  unfold link_head, heads_node, chain_from.
  destruct (ctx_heads y) as [|i]; cbn [ctx_heads ctx_loaded ctx_root].
  - rewrite Hy. repeat split.
  - unfold link_after. rewrite Hy, firstn_all.
    rewrite skipn_app, skipn_all, Nat.sub_diag. cbn [skipn app].
    repeat split. rewrite length_app. cbn [List.length]. lia.
Qed.

Lemma y_find_scan_find (segment : string_t) (chain : list y_node_t) :
  ~ In 0 segment -> y_find_scan segment chain = find (named segment) chain.
Proof.
  intros Hnz. induction chain as [|it rest IH]; [reflexivity|].
  cbn [y_find_scan find]. unfold named at 1.
  destruct (list_eq_dec Z.eq_dec (node_name it) segment) as [Heq|Hne].
  - apply (name_matches_eq segment it) in Heq; [|auto]. rewrite Heq. reflexivity.
  - destruct (name_matches segment it) eqn:Hm; [|exact IH].
    apply name_matches_eq in Hm; [contradiction|auto].
Qed.

Lemma path_tail_length (others : list (list Z)) :
  (List.length others <= List.length (path_tail others))%nat.
Proof.
  destruct others as [|second others]; [simpl; lia|].
  cbn [path_tail List.length]. revert second.
  induction others as [|third others IH]; intros second; cbn [path_of List.length].
  - lia.
  - rewrite length_app. cbn [List.length]. specialize (IH third). lia.
Qed.

Lemma path_of_nonzero (first : list Z) (others : list (list Z)) :
  is_segment first -> Forall is_segment others -> ~ In 0 (path_of first others).
Proof.
  revert first. induction others as [|second others IH]; intros first Hfirst Hothers.
  - apply is_segment_nonzero. exact Hfirst.
  - inversion Hothers as [|? ? Hsecond Hrest]; subst. cbn [path_of].
    intros Hin. apply in_app_or in Hin. destruct Hin as [Hin|[Hin|Hin]].
    + revert Hin. apply is_segment_nonzero. exact Hfirst.
    + discriminate.
    + revert Hin. apply IH; assumption.
Qed.

(** The loop of [y_find] with a segment as the token ahead and the rest of
    the path behind the cursor. *)
Lemma y_find_loop_lookup (others : list (list Z)) :
  forall (consumed seg : list Z) (u : unit_t) (current : node_ptr) (fuel : nat),
    Forall is_segment others -> ~ In 0 seg ->
    unit_data u = consumed ++ path_tail others ->
    unit_cursor u = Z.of_nat (List.length consumed) ->
    buffer_size u <= unit_length u ->
    tok_kind (unit_current u) = TOKEN_TEXT ->
    value_string (tok_value (unit_current u)) = seg ->
    (List.length others < fuel)%nat ->
    found_by (y_find_loop fuel u current) = lookup current seg others.
Proof.
  induction others as [|second others IH];
    intros consumed seg u current fuel Hothers Hnz Hd Hc Hlen Hk Hv Hfuel;
    (destruct fuel as [|fuel]; [simpl in Hfuel; lia|]); cbn [y_find_loop].
  - assert (Hsize : unit_cursor u = buffer_size u).
    { unfold buffer_size. rewrite Hd, Hc. cbn [path_tail]. rewrite app_nil_r. reflexivity. }
    unfold token_consume, token_eat, lex_next. rewrite Hk.
    change (TOKEN_TEXT =? TOKEN_TEXT) with true. cbn iota.
    rewrite lex_token_end; [|exact Hsize|cbn [unit_cursor unit_length set_tokens]; lia].
    cbn [bind unit_previous set_tokens set_cursor unit_current]. rewrite Hv.
    destruct current as [chain| |]; [|reflexivity..].
    rewrite (y_find_scan_find seg chain Hnz). cbn [lookup].
    destruct (find (named seg) chain); reflexivity.
  - pose proof (Forall_inv Hothers) as Hsecond.
    pose proof (Forall_inv_tail Hothers) as Hrest.
    rewrite (token_consume_segment u consumed [ch_space] second (path_tail others));
      [|assumption|rewrite Hd; cbn [path_tail]; rewrite path_of_split; reflexivity
       |assumption
       |rewrite Hc; unfold buffer_size in Hlen; rewrite Hd, length_app in Hlen; lia
       |repeat constructor|assumption|apply path_tail_ends].
    cbn [bind]. rewrite Hv.
    destruct current as [chain| |]; [|reflexivity..].
    rewrite (y_find_scan_find seg chain Hnz). cbn [lookup].
    destruct (find (named seg) chain) as [it|]; [|reflexivity].
    cbn [unit_current set_tokens tok_kind].
    change (TOKEN_TEXT =? TOKEN_NONE) with false. cbn iota.
    apply (IH (consumed ++ ch_space :: second)).
    + exact Hrest.
    + apply is_segment_nonzero. exact Hsecond.
    + cbn [unit_data set_tokens set_cursor]. rewrite Hd. cbn [path_tail].
      rewrite path_of_split, <- app_assoc. reflexivity.
    + cbn [unit_cursor set_tokens set_cursor]. rewrite length_app.
      cbn [List.length]. lia.
    + exact Hlen.
    + reflexivity.
    + reflexivity.
    + simpl in Hfuel. lia.
Qed.

(** [y_find] on a path of plain segments is the lookup of its segments. *)
Lemma y_find_lookup (y : yctx_t) (first : list Z) (others : list (list Z)) :
  is_segment first -> Forall is_segment others ->
  y_find y (path_of first others) = lookup (heads_node y) first others.
Proof.
  intros Hfirst Hothers.
  pose proof (path_of_nonzero first others Hfirst Hothers) as Hnz.
  assert (Hlen : Z.of_nat (List.length (path_of first others))
                 <= strlen (path_of first others)).
  { pose proof (strlen_prefix (path_of first others) [] Hnz) as H.
    rewrite app_nil_r in H. exact H. }
  rewrite path_of_split in *.
  set (path := first ++ path_tail others) in *.
  unfold y_find, y_find_run.
  rewrite (lex_next_segment (unit_of_path path) [] [] first (path_tail others));
    [|reflexivity|reflexivity|cbn [unit_cursor unit_length unit_of_path]; lia
     |constructor|assumption|apply path_tail_ends].
  cbn [bind].
  apply (y_find_loop_lookup others first first).
  - exact Hothers.
  - apply is_segment_nonzero. exact Hfirst.
  - reflexivity.
  - cbn [unit_cursor set_tokens set_cursor List.length]. lia.
  - exact Hlen.
  - reflexivity.
  - reflexivity.
  - unfold scan_fuel. cbn [unit_data set_tokens set_cursor unit_of_path].
    unfold path. rewrite length_app. pose proof (path_tail_length others). lia.
Qed.

(** In the context a load leaves, a path whose first segment is not the name
    of the root just loaded names nothing. *)
Lemma y_find_other_root (y : yctx_t) (file : list Z) (head : y_node_t) (y' : yctx_t)
      (first : list Z) (others : list (list Z)) :
  heads_at_tail y -> y_load y file = Ok (head, y') ->
  is_segment first -> Forall is_segment others ->
  first <> node_name head ->
  y_find y' (path_of first others) = Ok None.
Proof.
  intros Hy Hload Hfirst Hothers Hname.
  destruct (y_load_heads y file head y' Hy Hload) as (_ & _ & _ & Hheads & _).
  rewrite (y_find_lookup y' first others Hfirst Hothers), Hheads.
  destruct others; cbn [lookup find]; unfold named;
    (destruct (list_eq_dec Z.eq_dec (node_name head) first) as [Heq|_];
     [symmetry in Heq; contradiction|reflexivity]).
Qed.

(** C1.  [y_load] links each root behind the one loaded before and moves
    [heads] to it, and [y_find] starts at [heads]: with the units
    [first { k 1 }] and [second { k 2 }] loaded in that order the chain of
    loaded roots holds both, yet the chain [y_find] scans is [second] alone,
    so that the paths [first] and [first k] are answered absent, while
    [second] and [second k] are found.  So it is after every load: the chain
    [y_find] scans is the root just loaded and nothing else, and a path
    whose first segment is another name, be it the name of a root loaded
    before, is answered absent. *)
Theorem y_find_scans_from_last_root :
  (exists first y1 second y2 k,
     y_load y_create (bytes "first { k 1 }") = Ok (first, y1) /\
     y_load y1 (bytes "second { k 2 }") = Ok (second, y2) /\
     node_name first = bytes "first" /\
     node_name second = bytes "second" /\
     ctx_loaded y2 = [first; second] /\
     chain_from y2 (ctx_heads y2) = [second] /\
     y_find y1 (bytes "first") = Ok (Some first) /\
     y_find y2 (bytes "first") = Ok None /\
     y_find y2 (bytes "first k") = Ok None /\
     y_find y2 (bytes "second") = Ok (Some second) /\
     y_find y2 (bytes "second k") = Ok (Some k) /\
     node_value k = mk_value Y_INTEGER (U_integer 2)) /\
  (forall y file head y',
     heads_at_tail y -> y_load y file = Ok (head, y') ->
     heads_at_tail y' /\ ctx_loaded y' = ctx_loaded y ++ [head] /\
     chain_from y' (ctx_heads y') = [head]) /\
  (forall y file head y' first others,
     heads_at_tail y -> y_load y file = Ok (head, y') ->
     is_segment first -> Forall is_segment others ->
     first <> node_name head ->
     y_find y' (path_of first others) = Ok None).
Proof.
  split; [|split].
  - vm_compute. do 5 eexists. repeat split.
  - intros y file head y' Hy Hload.
    destruct (y_load_heads y file head y' Hy Hload) as (Hy' & _ & Hnext & _ & Hchain).
    auto.
  - exact y_find_other_root.
Qed.

(** * Values by source form *)

(** The value [parse_node] stores, by the token that follows the name. *)
Lemma parse_node_value (fuel : nat) (u : unit_t) (name : token_t) (u1 : unit_t)
      (n : y_node_t) (u' : unit_t) :
  unit_shape u ->
  token_expect u TOKEN_TEXT = Ok (name, u1) ->
  parse_node fuel u = Ok (n, u') ->
  let follow := unit_current u1 in
  (tok_kind follow = ch_open ->
     exists l, node_value n = mk_value Y_NODE (U_node l)) /\
  (tok_kind follow = TOKEN_NUMBER ->
     node_value n = tok_value follow /\
     (val_kind (node_value n) = Y_INTEGER \/ val_kind (node_value n) = Y_DECIMAL)) /\
  (tok_kind follow = TOKEN_STRING ->
     node_value n = tok_value follow /\ val_kind (node_value n) = Y_STRING) /\
  (tok_kind follow <> ch_open -> tok_kind follow <> TOKEN_NUMBER ->
   tok_kind follow <> TOKEN_STRING -> node_value n = value_zero).
Proof.
  intros Hu Hname H. destruct fuel as [|fuel]; [discriminate|]. simpl in H.
  rewrite Hname in H. simpl in H.
  apply token_expect_post in Hname; [|assumption].
  destruct Hname as (_ & _ & _ & Hu1). pose proof Hu1 as [_ Hfollow].
  unfold token_consume in H at 1.
  destruct (tok_kind (unit_current u1) =? ch_open) eqn:Hopen.
  - apply Z.eqb_eq in Hopen.
    bind_inv H. destruct a as [value u2]. bind_inv H. destruct a as [note u3].
    injection H as <- _. bind_inv E. destruct a as [open v1].
    bind_inv E1. destruct a as [t v]. injection E1 as <- <-.
    bind_inv E. destruct a as [children v2]. injection E as <- _.
    simpl. repeat split; intros; try (exfalso; unfold ch_open, TOKEN_NUMBER, TOKEN_STRING in *; congruence).
    eexists; reflexivity.
  - apply Z.eqb_neq in Hopen. simpl in H.
    unfold token_consume in H at 1.
    destruct (tok_kind (unit_current u1) =? TOKEN_NUMBER) eqn:Hnum.
    + apply Z.eqb_eq in Hnum.
      bind_inv H. destruct a as [value u2]. bind_inv H. destruct a as [note u3].
      injection H as <- _. bind_inv E. destruct a as [temp v1].
      bind_inv E1. destruct a as [t v]. injection E1 as <- <-.
      injection E as <- _.
      apply token_eat_post in E2; [|assumption]. destruct E2 as [-> _].
      destruct (number_token_value _ Hfollow Hnum) as [_ Hkind].
      simpl. repeat split; intros; auto;
        try (exfalso; unfold ch_open, TOKEN_NUMBER, TOKEN_STRING in *; congruence).
    + apply Z.eqb_neq in Hnum. simpl in H.
      unfold token_consume in H at 1.
      destruct (tok_kind (unit_current u1) =? TOKEN_STRING) eqn:Hstr.
      * apply Z.eqb_eq in Hstr.
        bind_inv H. destruct a as [value u2]. bind_inv H. destruct a as [note u3].
        injection H as <- _. bind_inv E. destruct a as [temp v1].
        bind_inv E1. destruct a as [t v]. injection E1 as <- <-.
        injection E as <- _.
        apply token_eat_post in E2; [|assumption]. destruct E2 as [-> _].
        destruct (string_token_value _ Hfollow Hstr) as [s Hs].
        simpl. repeat split; intros; auto;
          try (exfalso; unfold ch_open, TOKEN_NUMBER, TOKEN_STRING in *; congruence).
        rewrite Hs. reflexivity.
      * apply Z.eqb_neq in Hstr. simpl in H.
        bind_inv H. destruct a as [note u3]. injection H as <- _.
        simpl. repeat split; intros; auto; contradiction.
Qed.

(** C2 as stated fails on [name { }]: the node's kind is [Y_NODE] and its
    child list is empty. *)
Lemma node_kind_with_empty_list :
  ~ (forall file root y' n,
       y_load y_create file = Ok (root, y') -> In n (subnodes root) ->
       (val_kind (node_value n) = Y_NODE <-> node_children n <> [])).
Proof.
  intros H.
  assert (E : exists root y',
             y_load y_create (bytes "name { }") = Ok (root, y') /\
             val_kind (node_value root) = Y_NODE /\ node_children root = []).
  { vm_compute. do 2 eexists. repeat split. }
  destruct E as (root & y' & Hload & Hkind & Hnone).
  apply (H _ root y' root Hload); trivial.
  destruct root; left; reflexivity.
Qed.

(** C2, amended.  Whenever [parse_node] returns a node, its kind is [Y_NODE]
    exactly when an opening brace follows the name, whether or not the list
    between the braces has children; a name followed by no brace, no number
    and no string has kind [Y_NONE]; and in the whole tree under it a node
    with children has kind [Y_NODE], the kind [Y_NODE] meaning that member
    [node] of the union was written. *)
Theorem node_kind_iff_brace_follows (fuel : nat) (u : unit_t) (name : token_t)
        (u1 : unit_t) (n : y_node_t) (u' : unit_t) :
  unit_shape u ->
  token_expect u TOKEN_TEXT = Ok (name, u1) ->
  parse_node fuel u = Ok (n, u') ->
  let follow := tok_kind (unit_current u1) in
  (val_kind (node_value n) = Y_NODE <-> follow = ch_open) /\
  (follow <> ch_open -> follow <> TOKEN_NUMBER -> follow <> TOKEN_STRING ->
   val_kind (node_value n) = Y_NONE) /\
  (forall m, In m (subnodes n) ->
     (val_kind (node_value m) = Y_NODE <-> exists l, val_un (node_value m) = U_node l) /\
     (node_children m <> [] -> val_kind (node_value m) = Y_NODE)).
Proof.
  intros Hu Hname H.
  destruct (parse_node_value fuel u name u1 n u' Hu Hname H)
    as (Hbrace & Hnumber & Hstring & Hbare).
  split; [|split].
  - split.
    + intros Hkind.
      destruct (Z.eq_dec (tok_kind (unit_current u1)) ch_open) as [Ho|Ho]; [exact Ho|].
      destruct (Z.eq_dec (tok_kind (unit_current u1)) TOKEN_NUMBER) as [Hn|Hn].
      { destruct (Hnumber Hn) as [_ [Hk|Hk]]; congruence. }
      destruct (Z.eq_dec (tok_kind (unit_current u1)) TOKEN_STRING) as [Hs|Hs].
      { destruct (Hstring Hs) as [_ Hk]; congruence. }
      rewrite (Hbare Ho Hn Hs) in Hkind. discriminate.
    + intros Ho. destruct (Hbrace Ho) as [l ->]. reflexivity.
  - intros Ho Hn Hs. rewrite (Hbare Ho Hn Hs). reflexivity.
  - intros m Hm. destruct (parse_shape fuel) as [Hnode _].
    destruct (Hnode u n u' Hu H) as [_ Hall].
    rewrite Forall_forall in Hall. destruct (Hall m Hm) as (_ & _ & Hshape).
    unfold value_shape in Hshape. unfold node_children.
    destruct (node_value m) as [k [|l|s|i|d]]; destruct k; simpl in *;
      try contradiction; repeat split; intros; try congruence; eauto;
      try (destruct H0; discriminate).
Qed.

Lemma started_shape (file : list Z) : unit_shape (started file).
Proof.
  unfold started. destruct (lex_next (unit_of_file file)) as [[t u]| |] eqn:H;
    simpl; try apply unit_shape_fresh.
  apply (lex_next_shape _ _ _ (unit_shape_fresh _ _ _) H).
Qed.

Lemma node_kind_iff_brace_follows_witness :
  let u := started (bytes "name { b }") in
  let n := fst (returned (node_zero, u) (parse_node 8 u)) in
  val_kind (node_value n) = Y_NODE /\
  forall m, In m (subnodes n) ->
    (node_children m <> [] -> val_kind (node_value m) = Y_NODE).
Proof.
  intros u n.
  destruct (node_kind_iff_brace_follows 8 u
              (fst (returned (token_zero, u) (token_expect u TOKEN_TEXT)))
              (snd (returned (token_zero, u) (token_expect u TOKEN_TEXT)))
              n
              (snd (returned (node_zero, u) (parse_node 8 u))))
    as (Hiff & _ & Hall).
  - apply started_shape.
  - vm_compute. reflexivity.
  - vm_compute. reflexivity.
  - split; [apply Hiff; reflexivity|]. intros m Hm. apply (Hall m Hm).
Defined.

(** C3.  With the unit [x 42] loaded, [y_find] on the path [x y] matches [x],
    takes the integer 42 for the head of its child list and scans from it:
    the result is no absent answer but a read through a pointer that never
    was one.  The same happens under a string.  Under a bare name, whose
    union is zero, the scan is over the empty list and the answer is
    absent.  Whenever [y_find] does stop the process, it is for a lexical
    error in its path. *)
Theorem y_find_descends_into_scalar :
  (exists y, load_one (bytes "x 42") = Ok y /\
             y_find y (bytes "x y") = Undefined Wild_pointer) /\
  (exists y, load_one (bytes "x " ++ quoted (bytes "s")) = Ok y /\
             y_find y (bytes "x y") = Undefined Wild_pointer) /\
  (exists y, load_one (bytes "x") = Ok y /\
             y_find y (bytes "x y") = Ok None) /\
  (forall y path at_source msg,
     y_find y path = Fatal at_source msg -> lexical msg).
Proof.
  do 3 (split; [vm_compute; eexists; split; reflexivity|]).
  intros y path at_source msg. apply y_find_fatal.
Qed.

(** * The buffer under the lexer *)

(** C4.  [raw] on the buffer [//c] writes to it: the first slash, 47, becomes
    49, the digit 1, and the cursor ends behind the terminator the scan
    stopped at.  After [y_load] of [a // c] the unit the context keeps holds
    [a 1/ c]; and [x 12//c] is read as the integer 121. *)
Theorem raw_writes_to_buffer :
  (exists u, raw (unit_of_file (bytes "//c")) = Ok (3, u) /\
             unit_data u = bytes "1/c" /\ unit_cursor u = 4) /\
  (exists root y u, y_load y_create (bytes "a // c") = Ok (root, y) /\
                    ctx_units y = [u] /\ unit_data u = bytes "a 1/ c") /\
  (exists root y, y_load y_create (bytes "x 12//c") = Ok (root, y) /\
                  node_value root = mk_value Y_INTEGER (U_integer 121)).
Proof.
  repeat split; vm_compute; repeat eexists.
Qed.

(** C5.  In a unit made of [name], a quote and [abc], the string is not
    closed before the buffer ends: [token_string] passes the terminating
    zero, which is neither a quote nor a newline, and reads the byte behind
    it, outside the buffer; no fatal error is raised.  A newline inside the
    quotes is fatal, and a closed string yields the bytes between its quotes,
    a backslash included. *)
Theorem token_string_runs_past_end :
  y_load y_create (bytes "name " ++ [ch_quote] ++ bytes "abc")
  = Undefined (Out_of_bounds 10) /\
  (exists at_source,
     y_load y_create (bytes "name " ++ quoted (bytes "ab" ++ [ch_newline] ++ bytes "c"))
     = Fatal at_source Strings_can_not_contain_a_new_line) /\
  (exists root y,
     y_load y_create (bytes "name " ++ quoted (bytes "a\n b")) = Ok (root, y) /\
     node_value root = mk_value Y_STRING (U_string (bytes "a\n b"))).
Proof.
  repeat split; vm_compute; repeat eexists.
Qed.

(** C6.  The literal [1_000] is one token, and [strtoull] converts its digits
    up to the first underscore: the integer stored is 1, and the token's
    span is cut back to that digit. *)
Theorem integer_stops_at_underscore :
  (exists root y, y_load y_create (bytes "x 1_000") = Ok (root, y) /\
                  node_value root = mk_value Y_INTEGER (U_integer 1)) /\
  (exists t u, lex_token (unit_of_file (bytes "1_000")) = Ok (t, u) /\
               tok_kind t = TOKEN_NUMBER /\ unit_cursor u = 5 /\
               tok_value t = mk_value Y_INTEGER (U_integer 1) /\
               src_end (tok_source t) = Some 1) /\
  strtoull (bytes "1000") = (1000, 4).
Proof.
  repeat split; vm_compute; repeat eexists.
Qed.

(** C7.  The five source forms give the five kinds, each with the member of
    the union that belongs to it; a number and a string behind one name are
    a fatal error, in either order; and for every call of [parse_node] that
    returns, the value stored has a kind that names the member written, and
    is decided by the token that follows the name. *)
Theorem value_kind_by_source_form :
  root_value (bytes "name { }") = Ok (mk_value Y_NODE (U_node [])) /\
  root_value (bytes "name 42") = Ok (mk_value Y_INTEGER (U_integer 42)) /\
  root_value (bytes "name 4.2") = Ok (mk_value Y_DECIMAL (U_decimal (bytes "4.2"))) /\
  root_value (bytes "name " ++ quoted (bytes "s"))
    = Ok (mk_value Y_STRING (U_string (bytes "s"))) /\
  root_value (bytes "name") = Ok (mk_value Y_NONE U_zero) /\
  (exists at_source,
     root_value (bytes "name 42 " ++ quoted (bytes "s"))
     = Fatal at_source (Expected_token TOKEN_NONE TOKEN_STRING)) /\
  (exists at_source,
     root_value (bytes "name " ++ quoted (bytes "s") ++ bytes " 42")
     = Fatal at_source (Expected_token TOKEN_NONE TOKEN_NUMBER)) /\
  (exists at_source,
     root_value (bytes "a { b 42 " ++ quoted (bytes "s") ++ bytes " }")
     = Fatal at_source (Expected_token TOKEN_TEXT TOKEN_STRING)) /\
  (forall fuel u name u1 n u',
     unit_shape u ->
     token_expect u TOKEN_TEXT = Ok (name, u1) ->
     parse_node fuel u = Ok (n, u') ->
     let follow := unit_current u1 in
     value_shape (node_value n) /\
     (tok_kind follow = ch_open -> val_kind (node_value n) = Y_NODE) /\
     (tok_kind follow = TOKEN_NUMBER ->
        node_value n = tok_value follow /\
        (val_kind (node_value n) = Y_INTEGER \/ val_kind (node_value n) = Y_DECIMAL)) /\
     (tok_kind follow = TOKEN_STRING ->
        node_value n = tok_value follow /\ val_kind (node_value n) = Y_STRING) /\
     (tok_kind follow <> ch_open -> tok_kind follow <> TOKEN_NUMBER ->
      tok_kind follow <> TOKEN_STRING -> val_kind (node_value n) = Y_NONE)).
Proof.
  do 8 (split; [vm_compute; try eexists; reflexivity|]).
  intros fuel u name u1 n u' Hu Hname H.
  destruct (parse_node_value fuel u name u1 n u' Hu Hname H)
    as (Hbrace & Hnumber & Hstring & Hbare).
  split; [|split; [|split; [|split]]]; try assumption.
  - destruct (parse_shape fuel) as [Hnode _].
    destruct (Hnode u n u' Hu H) as [_ Hall].
    destruct n. apply Forall_inv in Hall. apply Hall.
  - intros Ho. destruct (Hbrace Ho) as [l ->]. reflexivity.
  - intros Ho Hn Hs. rewrite (Hbare Ho Hn Hs). reflexivity.
Qed.

Lemma value_kind_by_source_form_witness :
  let u := started (bytes "name 42") in
  let n := fst (returned (node_zero, u) (parse_node 8 u)) in
  value_shape (node_value n) /\ val_kind (node_value n) = Y_INTEGER.
Proof.
  intros u n.
  destruct value_kind_by_source_form as (_ & _ & _ & _ & _ & _ & _ & _ & Hgen).
  destruct (Hgen 8%nat u
              (fst (returned (token_zero, u) (token_expect u TOKEN_TEXT)))
              (snd (returned (token_zero, u) (token_expect u TOKEN_TEXT)))
              n
              (snd (returned (node_zero, u) (parse_node 8 u))))
    as (Hshape & _ & Hnumber & _).
  - apply started_shape.
  - vm_compute. reflexivity.
  - vm_compute. reflexivity.
  - split; [exact Hshape|]. reflexivity.
Defined.

(** * Notes *)




(** * A context with no unit *)

(** Once the first segment of a path is eaten, [y_find] on a new context
    reads the node [heads] points to, which is gone. *)
Lemma y_find_new_context_reads (path : list Z) (t segment : token_t) (u1 u2 : unit_t) :
  lex_next (unit_of_path path) = Ok (t, u1) ->
  token_consume u1 TOKEN_TEXT = Ok (Some segment, u2) ->
  y_find y_create path = Undefined Dangling_pointer.
Proof.
  intros Hlex Heat.
  unfold y_find, y_find_run. rewrite Hlex. cbn [bind].
  unfold scan_fuel. rewrite Nat.add_comm. cbn [Nat.add y_find_loop].
  rewrite Heat. reflexivity.
Qed.

(** On a new context [y_find] never returns: no node and no null pointer. *)
Lemma y_find_new_context_no_value (path : list Z) (found : option y_node_t) :
  y_find y_create path <> Ok found.
Proof.
  destruct (lex_next (unit_of_path path)) as [[t u1]| |] eqn:Hlex;
    [|unfold y_find, y_find_run; rewrite Hlex; discriminate..].
  assert (Hf : exists f, scan_fuel u1 = S f)
    by (exists (List.length (unit_data u1) + 2)%nat; unfold scan_fuel; lia).
  destruct Hf as [f Hf].
  destruct (token_consume u1 TOKEN_TEXT) as [[[segment|] u2]| |] eqn:Heat;
    [rewrite (y_find_new_context_reads path t segment u1 u2 Hlex Heat); discriminate|..];
    unfold y_find, y_find_run; rewrite Hlex; cbn [bind]; rewrite Hf;
    cbn [y_find_loop]; rewrite Heat; discriminate.
Qed.

(** C10.  The context [y_create] returns has its [heads] at the [root] of
    the frame [y_create] has left, not at a sentinel of its own.  For every
    path of one or more TEXT segments with a blank between them, and more
    widely whenever the path starts with a TEXT token that [y_find] gets to
    eat, the scan reads the name and the [next] of that dead node: the
    answer is no absent result but whatever the bytes there make of it.  A
    path that holds a TEXT segment behind a number, such as [5 x], runs off
    the end of [y_find], and [a.b] stops the process.  Whatever the path,
    [y_find] on a new context never returns an answer, absent or not. *)
Theorem y_find_on_new_context_reads_dead_root :
  (forall first others,
     is_segment first -> Forall is_segment others ->
     y_find y_create (path_of first others) = Undefined Dangling_pointer) /\
  (forall path t segment u1 u2,
     lex_next (unit_of_path path) = Ok (t, u1) ->
     token_consume u1 TOKEN_TEXT = Ok (Some segment, u2) ->
     y_find y_create path = Undefined Dangling_pointer) /\
  y_find y_create (bytes "settings") = Undefined Dangling_pointer /\
  y_find y_create (bytes "settings graphics vsync") = Undefined Dangling_pointer /\
  y_find y_create (bytes "5 x") = Undefined No_return_value /\
  (exists at_source, y_find y_create (bytes "a.b") = Fatal at_source (Unknown_character 46)) /\
  (forall path found, y_find y_create path <> Ok found).
Proof.
  split; [|split; [|split; [|split; [|split; [|split]]]]].
  - intros first others Hfirst Hothers.
    destruct (path_first_segment first others Hfirst Hothers)
      as (t & u1 & segment & u2 & Hlex & Heat & _).
    apply (y_find_new_context_reads _ _ _ _ _ Hlex Heat).
  - apply y_find_new_context_reads.
  - vm_compute. reflexivity.
  - vm_compute. reflexivity.
  - vm_compute. reflexivity.
  - vm_compute. eexists. reflexivity.
  - apply y_find_new_context_no_value.
Qed.

(** * Early end of [y_find] *)

(** The path [x y z] up to the second turn of the loop of [y_find]: the
    first segment resolved to [x], the second eaten, the third ahead. *)
Ltac second_turn Hheads Hx Hseg :=
  unfold y_find_run;
  match goal with |- context [lex_next (unit_of_path (?x ++ ?rest))] =>
    rewrite (lex_next_segment (unit_of_path (x ++ rest))
               [] [] (bytes "x") (bytes " y z" ++ rest));
      [|reflexivity|reflexivity|cbn [unit_cursor unit_length unit_of_path]; lia
       |constructor|apply Hseg; reflexivity|split; [reflexivity|discriminate]]
  end;
  cbn [bind]; unfold scan_fuel; rewrite Nat.add_comm; cbn [Nat.add y_find_loop];
  match goal with |- context [token_consume ?u TOKEN_TEXT] =>
    match goal with |- context [bytes "x y z" ++ ?rest] =>
      rewrite (token_consume_segment u (bytes "x") [ch_space] (bytes "y") (bytes " z" ++ rest));
        [|reflexivity|reflexivity|reflexivity
         |cbn [unit_cursor unit_length unit_of_path set_tokens set_cursor];
          simpl List.length; lia
         |repeat constructor|apply Hseg; reflexivity|split; [reflexivity|discriminate]]
    end
  end;
  cbn [bind unit_current set_tokens tok_value value_string val_un];
  rewrite Hheads, Hx;
  cbn [tok_kind]; change (TOKEN_TEXT =? TOKEN_NONE) with false; cbn iota.

Lemma heads_node_chain (y : yctx_t) (segment : string_t) (x : y_node_t) :
  y_find_scan segment (chain_from y (ctx_heads y)) = Some x ->
  heads_node y = Chain (chain_from y (ctx_heads y)).
Proof.
  unfold heads_node, chain_from. destruct (ctx_heads y); [discriminate|reflexivity].
Qed.

Lemma single_segment (c : Z) :
  (isalpha c || (c =? ch_underscore)) = true -> is_segment [c].
Proof. intros Hc. split; [exact Hc|constructor]. Qed.

Lemma strlen_x_y_z (rest : list Z) : 5 <= strlen (bytes "x y z" ++ rest).
Proof. apply (strlen_prefix (bytes "x y z") rest). vm_compute. intuition discriminate. Qed.

(** Under a root [x] whose member [node] reads as a list with no node named
    [y] in it, the second turn ends the search. *)
Lemma y_find_miss_in_list (y : yctx_t) (x : y_node_t)
      (children : list y_node_t) (rest : list Z) :
  y_find_scan (bytes "x") (chain_from y (ctx_heads y)) = Some x ->
  value_node (node_value x) = Chain children ->
  (forall child, In child children -> node_name child <> bytes "y") ->
  ends_segment rest ->
  exists u, y_find_run y (bytes "x y z" ++ rest) = Ok (None, u) /\
            value_string (tok_value (unit_previous u)) = bytes "y" /\
            tok_kind (unit_current u) = TOKEN_TEXT /\
            value_string (tok_value (unit_current u)) = bytes "z" /\
            unit_cursor u = 5.
Proof.
  intros Hx Hchildren Hmiss Hrest.
  assert (Hscan : y_find_scan (bytes "y") children = None).
  { apply y_find_scan_none; [|assumption]. vm_compute. intuition discriminate. }
  pose proof (strlen_x_y_z rest) as Hlen.
  pose proof (heads_node_chain y _ x Hx) as Hheads.
  pose proof single_segment as Hseg.
  second_turn Hheads Hx Hseg. rewrite Hchildren.
  match goal with |- context [token_consume ?u TOKEN_TEXT] =>
    rewrite (token_consume_segment u (bytes "x y") [ch_space] (bytes "z") rest);
      [|reflexivity|reflexivity|reflexivity
       |cbn [unit_cursor unit_length unit_of_path set_tokens set_cursor]; simpl List.length; lia
       |repeat constructor|apply Hseg; reflexivity|exact Hrest]
  end.
  cbn [bind unit_current set_tokens tok_value value_string val_un]. rewrite Hscan.
  eexists. split; [reflexivity|]. repeat split.
Qed.

(** Under a root [x] that holds a scalar whose bytes are no null pointer, the
    second turn scans from those bytes. *)
Lemma y_find_miss_in_scalar (y : yctx_t) (x : y_node_t) (rest : list Z) :
  y_find_scan (bytes "x") (chain_from y (ctx_heads y)) = Some x ->
  value_node (node_value x) = Punned ->
  ends_segment rest ->
  y_find_run y (bytes "x y z" ++ rest) = Undefined Wild_pointer.
Proof.
  intros Hx Hscalar Hrest.
  pose proof (strlen_x_y_z rest) as Hlen.
  pose proof (heads_node_chain y _ x Hx) as Hheads.
  pose proof single_segment as Hseg.
  second_turn Hheads Hx Hseg. rewrite Hscalar.
  match goal with |- context [token_consume ?u TOKEN_TEXT] =>
    rewrite (token_consume_segment u (bytes "x y") [ch_space] (bytes "z") rest);
      [|reflexivity|reflexivity|reflexivity
       |cbn [unit_cursor unit_length unit_of_path set_tokens set_cursor]; simpl List.length; lia
       |repeat constructor|apply Hseg; reflexivity|exact Hrest]
  end.
  reflexivity.
Qed.

(** C8.  On a path that starts with [x y z], with the first segment resolved
    to a root [x] that has no child named [y], the answer is absent only
    when the member [node] of [x] reads as a list: a container's, or the
    null list of a bare name or of a zero.  Then [y_find] answers in the
    second turn of its loop: the token behind it is [y], the segment [z] is
    still the token ahead, never eaten, and the cursor stands right behind
    it; whatever follows [z] in the path is never read.  When [x] holds a
    string or a number that is not zero, as in the unit [x 42], it has no
    child either, yet the second turn scans from the bytes of that scalar:
    the result is no absent answer but a read through a pointer that never
    was one. *)
Theorem y_find_first_miss_under_scalar :
  (exists y, load_one (bytes "x 42") = Ok y /\
             y_find y (bytes "x y z") = Undefined Wild_pointer) /\
  (exists y, load_one (bytes "x 0.5") = Ok y /\
             y_find y (bytes "x y z") = Undefined Wild_pointer) /\
  (exists y, load_one (bytes "x { a b }") = Ok y /\
             y_find y (bytes "x y z") = Ok None) /\
  (exists y, load_one (bytes "x 0.0") = Ok y /\
             y_find y (bytes "x y z") = Ok None) /\
  (forall y x rest,
     y_find_scan (bytes "x") (chain_from y (ctx_heads y)) = Some x ->
     value_node (node_value x) = Punned ->
     ends_segment rest ->
     node_children x = [] /\
     y_find y (bytes "x y z" ++ rest) = Undefined Wild_pointer) /\
  (forall y x children rest,
     y_find_scan (bytes "x") (chain_from y (ctx_heads y)) = Some x ->
     value_node (node_value x) = Chain children ->
     (forall child, In child children -> node_name child <> bytes "y") ->
     ends_segment rest ->
     y_find y (bytes "x y z" ++ rest) = Ok None /\
     exists u, y_find_run y (bytes "x y z" ++ rest) = Ok (None, u) /\
               value_string (tok_value (unit_previous u)) = bytes "y" /\
               tok_kind (unit_current u) = TOKEN_TEXT /\
               value_string (tok_value (unit_current u)) = bytes "z" /\
               unit_cursor u = 5).
Proof.
  do 4 (split; [vm_compute; eexists; split; reflexivity|]).
  split.
  - intros y x rest Hx Hscalar Hrest. split.
    + unfold node_children. unfold value_node in Hscalar.
      destruct (val_un (node_value x)); try reflexivity; discriminate.
    + unfold y_find. rewrite (y_find_miss_in_scalar y x rest Hx Hscalar Hrest).
      reflexivity.
  - intros y x children rest Hx Hchildren Hmiss Hrest.
    pose proof (y_find_miss_in_list y x children rest Hx Hchildren Hmiss Hrest) as Hrun.
    split; [|exact Hrun].
    destruct Hrun as (u & Hu & _). unfold y_find. rewrite Hu. reflexivity.
Qed.

(** * Iterating a chain *)

Lemma y_iter_loop_step (fuel : nat) (begin iter : list y_node_t) :
  y_iter_loop (S fuel) begin iter
  = match y_iter begin iter with
    | Null_dereference => None
    | Iterated [] iter' => Some ([], iter')
    | Iterated (n :: _) iter' =>
        match y_iter_loop fuel begin iter' with
        | Some (visited, last) => Some (n :: visited, last)
        | None => None
        end
    end.
Proof. reflexivity. Qed.

Lemma last_cons_default {A : Type} (l : list A) :
  forall b d d' : A, last (b :: l) d = last (b :: l) d'.
Proof.
  induction l as [|a l IH]; intros b d d'; [reflexivity|].
  change (last (a :: l) d = last (a :: l) d'). apply IH.
Qed.

Lemma last_default {A : Type} (l : list A) (a d : A) : last l a = last (a :: l) d.
Proof.
  destruct l as [|b l]; [reflexivity|].
  change (last (b :: l) a = last (b :: l) d). apply last_cons_default.
Qed.

Lemma y_iter_loop_from (rest : list y_node_t) :
  forall (begin : list y_node_t) (at_node : y_node_t),
    y_iter_loop (S (List.length rest)) begin (at_node :: rest)
    = Some (rest, [last rest at_node]).
Proof.
  induction rest as [|n rest IH]; intros begin at_node.
  - reflexivity.
  - cbn [List.length]. rewrite y_iter_loop_step. cbn [y_iter]. rewrite IH.
    rewrite (last_default rest n at_node). destruct rest; reflexivity.
Qed.

(** X1.  A loop over [y_iter] that starts with a null iterator visits the
    nodes behind [begin], in order, and never [begin] itself: the first call
    sets the iterator to [begin] and already returns its [next].  At the end
    the iterator stays on the last node and every further call returns null.
    With a null [begin], the list of an empty container or of a bare name,
    the first call reads [next] through a null pointer. *)
Theorem y_iter_skips_first (first : y_node_t) (rest : list y_node_t) :
  y_iter_loop (S (List.length rest)) (first :: rest) []
  = Some (rest, [last rest first]) /\
  y_iter (first :: rest) [last rest first] = Iterated [] [last rest first] /\
  y_iter [] [] = Null_dereference /\
  y_iter (node_children (mk_node (bytes "name") [] (mk_value Y_NODE (U_node [])))) []
  = Null_dereference.
Proof.
  split; [|split; [|split]]; try reflexivity.
  destruct rest as [|n rest]; [reflexivity|].
  cbn [List.length]. rewrite y_iter_loop_step. cbn [y_iter].
  rewrite y_iter_loop_from, (last_default rest n first). reflexivity.
Qed.

(** * Paths resolved by [y_find] *)

(** X2.  On a path of TEXT segments with a blank between them, [y_find]
    resolves the path from [heads]: at every level it takes the first node of
    the list whose name is the segment, byte for byte; behind the last
    segment that node is returned, and before it the search goes on in the
    member [node] of its value, which is the list of a container, the null
    list under a bare name, a zero integer or a decimal that is [+0.0], and
    a wild pointer under a string or any other number.  A segment that names
    no node of its list ends the search with a null answer.  On a new
    context the first turn reads through the dangling [heads]. *)
Theorem y_find_resolves (y : yctx_t) (first : list Z) (others : list (list Z)) :
  is_segment first -> Forall is_segment others ->
  y_find y (path_of first others) = lookup (heads_node y) first others.
Proof. intros Hfirst Hothers. apply y_find_lookup; assumption. Qed.

Lemma y_find_resolves_witness :
  let y := returned y_create (load_one (bytes "x { a b 0.0 c 0.5 }")) in
  y_find y (bytes "x b k") = lookup (heads_node y) (bytes "x") [bytes "b"; bytes "k"] /\
  y_find y (bytes "x b k") = Ok None /\
  y_find y (bytes "x c k") = Undefined Wild_pointer.
Proof.
  intros y. split; [|split; vm_compute; reflexivity].
  apply (y_find_resolves y (bytes "x") [bytes "b"; bytes "k"]).
  - split; [reflexivity|constructor].
  - repeat constructor.
Defined.

(** X3.  What [y_load] returns is what [y_find] finds: in the context a load
    leaves, the path made of the root's name leads to that root, and the
    path of the root's name and the name of one of its children leads to the
    first child that bears this name.  The names are taken to be plain
    segments, as the lexer reads them where no comment touches a name. *)
Theorem y_find_after_y_load (y : yctx_t) (file : list Z) (root : y_node_t) (y' : yctx_t) :
  heads_at_tail y -> y_load y file = Ok (root, y') ->
  is_segment (node_name root) ->
  y_find y' (node_name root) = Ok (Some root) /\
  (forall child,
     In child (node_children root) -> is_segment (node_name child) ->
     exists found,
       y_find y' (path_of (node_name root) [node_name child]) = Ok (Some found) /\
       find (named (node_name child)) (node_children root) = Some found /\
       node_name found = node_name child).
Proof.
  intros Hy Hload Hroot.
  destruct (y_load_heads y file root y' Hy Hload) as (_ & _ & _ & Hchain & _).
  assert (Hnamed : named (node_name root) root = true).
  { unfold named. destruct (list_eq_dec Z.eq_dec (node_name root) (node_name root));
      [reflexivity|contradiction]. }
  split.
  - change (node_name root) with (path_of (node_name root) []) at 1.
    rewrite (y_find_lookup y' (node_name root) [] Hroot (Forall_nil _)), Hchain.
    cbn [lookup find]. rewrite Hnamed. reflexivity.
  - intros child Hin Hchild.
    rewrite (y_find_lookup y' (node_name root) [node_name child] Hroot)
      by (constructor; [exact Hchild|constructor]).
    rewrite Hchain. cbn [lookup find]. rewrite Hnamed.
    assert (Hlist : value_node (node_value root) = Chain (node_children root)).
    { unfold node_children in *. unfold value_node.
      destruct (val_un (node_value root)); try contradiction. reflexivity. }
    rewrite Hlist.
    destruct (find (named (node_name child)) (node_children root)) as [found|] eqn:Hfind.
    + exists found. split; [reflexivity|]. split; [reflexivity|].
      apply find_some in Hfind. destruct Hfind as [_ Hname]. unfold named in Hname.
      destruct (list_eq_dec Z.eq_dec (node_name found) (node_name child));
        [assumption|discriminate].
    + exfalso. pose proof (find_none _ _ Hfind child Hin) as Hno. unfold named in Hno.
      destruct (list_eq_dec Z.eq_dec (node_name child) (node_name child));
        [discriminate|contradiction].
Qed.

Lemma y_find_after_y_load_witness :
  exists root y',
    y_load y_create (bytes "settings { vsync 1 }") = Ok (root, y') /\
    y_find y' (node_name root) = Ok (Some root).
Proof.
  eexists _, _. split; [vm_compute; reflexivity|].
  refine (proj1 (y_find_after_y_load y_create (bytes "settings { vsync 1 }") _ _ _ _ _)).
  - reflexivity.
  - vm_compute. reflexivity.
  - split; [reflexivity|]. repeat constructor.
Defined.

(** * Paths that name nothing *)

Lemma next_from_blanks (ws : list Z) :
  forall (pre : list Z) (u : unit_t) (fuel : nat),
    unit_data u = pre ++ ws ->
    unit_cursor u = Z.of_nat (List.length pre) ->
    Forall (fun c => is_blank c = true) ws ->
    (List.length ws < fuel)%nat ->
    exists u',
      next_from fuel u = Ok (Z.of_nat (List.length pre + List.length ws), u') /\
      unit_data u' = unit_data u /\ unit_current u' = unit_current u.
Proof.
  induction ws as [|w ws IH]; intros pre u fuel Hd Hc Hws Hfuel;
    (destruct fuel as [|fuel]; [simpl in Hfuel; lia|]); cbn [next_from].
  - assert (Hfirst : deref u (unit_cursor u) = Ok 0)
      by (rewrite Hc; apply (deref_app u pre [] Hd)).
    rewrite (raw_plain u 0 Hfirst) by discriminate. cbn [bind].
    rewrite deref_set_cursor, Hfirst. cbn [bind].
    change (0 =? ch_newline) with false.
    change ((0 =? ch_tab) || (0 =? ch_space)) with false. cbn iota.
    rewrite Hc. cbn [List.length]. rewrite Nat.add_0_r.
    eexists. split; [reflexivity|split; reflexivity].
  - pose proof (Forall_inv Hws) as Hw. pose proof (Forall_inv_tail Hws) as Hrest.
    assert (Hfirst : deref u (unit_cursor u) = Ok w)
      by (rewrite Hc; apply (deref_app u pre (w :: ws) Hd)).
    assert (Hslash : w <> ch_slash) by (intros ->; discriminate).
    rewrite (raw_plain u w Hfirst Hslash). cbn [bind].
    rewrite deref_set_cursor, Hfirst. cbn [bind].
    assert (Hlen : Z.of_nat (List.length (pre ++ [w])) = unit_cursor u + 1)
      by (rewrite length_app; simpl; lia).
    assert (Hgoal : forall u1 : unit_t,
               unit_data u1 = unit_data u -> unit_cursor u1 = unit_cursor u + 1 ->
               unit_current u1 = unit_current u ->
               exists u', next_from fuel u1
                          = Ok (Z.of_nat (List.length pre + List.length (w :: ws)), u') /\
                          unit_data u' = unit_data u /\ unit_current u' = unit_current u).
    { intros u1 Hd1 Hc1 Hk1.
      destruct (IH (pre ++ [w]) u1 fuel) as (u' & Hrun & Hd' & Hk').
      - rewrite Hd1, Hd, <- app_assoc. reflexivity.
      - rewrite Hc1. symmetry. exact Hlen.
      - exact Hrest.
      - simpl in Hfuel. lia.
      - exists u'. split; [|split; congruence].
        rewrite Hrun. do 2 f_equal. rewrite length_app. cbn [List.length]. lia. }
    unfold is_blank in Hw. destruct (w =? ch_newline) eqn:Hnl.
    + apply Hgoal; reflexivity.
    + cbn [orb] in Hw. rewrite Hw. apply Hgoal; reflexivity.
Qed.

Lemma blanks_nonzero (ws : list Z) :
  Forall (fun c => is_blank c = true) ws -> ~ In 0 ws.
Proof.
  intros Hws Hin. rewrite Forall_forall in Hws. specialize (Hws 0 Hin). discriminate.
Qed.

Lemma y_find_needs_text (y : yctx_t) (path : list Z) (t : token_t) (u : unit_t) :
  lex_next (unit_of_path path) = Ok (t, u) -> tok_kind t <> TOKEN_TEXT ->
  y_find y path = Undefined No_return_value.
Proof.
  intros Hlex Hk. unfold y_find, y_find_run. rewrite Hlex. cbn [bind].
  unfold scan_fuel. rewrite Nat.add_comm. cbn [Nat.add y_find_loop].
  unfold token_consume.
  destruct (lex_next_post _ _ _ Hlex) as (_ & _ & ->).
  apply Z.eqb_neq in Hk. rewrite Hk. reflexivity.
Qed.

(** X4.  [y_find] has no [return] behind its loop: when the path is empty or
    holds blanks only, and whenever its first token is not a TEXT token, the
    loop is never entered and control runs off the end of the function, so
    the caller reads a value that was never set. *)
Theorem y_find_without_a_name :
  (forall y blanks,
     Forall (fun c => is_blank c = true) blanks ->
     y_find y blanks = Undefined No_return_value) /\
  (forall y path t u,
     lex_next (unit_of_path path) = Ok (t, u) -> tok_kind t <> TOKEN_TEXT ->
     y_find y path = Undefined No_return_value).
Proof.
  split; [|exact y_find_needs_text].
  intros y blanks Hblanks.
  set (u0 := unit_of_path blanks).
  destruct (next_from_blanks blanks [] (set_tokens u0 (unit_current u0) (unit_current u0))
              (scan_fuel u0)) as (u' & Hrun & Hd & _);
    [reflexivity|reflexivity|exact Hblanks|unfold scan_fuel, u0; simpl; lia|].
  assert (Hend : deref u' (Z.of_nat (List.length blanks)) = Ok 0).
  { apply (deref_app u' blanks []). rewrite Hd. cbn [unit_data set_tokens u0 unit_of_path].
    symmetry. apply app_nil_r. }
  assert (Hlex : exists t u, lex_next u0 = Ok (t, u) /\ tok_kind t = TOKEN_NONE).
  { unfold lex_next, lex_token.
    cbn [unit_cursor unit_length set_tokens u0 unit_of_path].
    replace (0 >? strlen blanks) with false
      by (symmetry; rewrite Z.gtb_ltb; apply Z.ltb_ge; apply strlen_nonneg).
    unfold next. change (scan_fuel (set_tokens _ _ _)) with (scan_fuel u0).
    fold u0. rewrite Hrun. cbn [bind List.length Nat.add]. rewrite Hend. cbn [bind].
    change (0 =? 0) with true. cbn iota. cbn [bind].
    eexists _, _. split; reflexivity. }
  destruct Hlex as (t & u & Hlex & Hk).
  apply (y_find_needs_text y blanks t u Hlex). rewrite Hk. discriminate.
Qed.

(** * What [y_find] can return *)

Lemma y_find_scan_in (segment : string_t) (chain : list y_node_t) (it : y_node_t) :
  y_find_scan segment chain = Some it -> In it chain.
Proof.
  induction chain as [|n rest IH]; [discriminate|]. cbn [y_find_scan].
  destruct (name_matches segment n).
  - intros [= ->]. left. reflexivity.
  - intros H. right. apply IH. exact H.
Qed.

Lemma subnodes_self (n : y_node_t) : In n (subnodes n).
Proof. destruct n. left. reflexivity. Qed.

Lemma value_node_children (it : y_node_t) (chain : list y_node_t) (n : y_node_t) :
  value_node (node_value it) = Chain chain ->
  In n (flat_map subnodes chain) -> In n (subnodes it).
Proof.
  destruct it as [name note value]. unfold value_node. cbn [node_value subnodes].
  destruct (val_un value) as [|l|s|k|d].
  - intros [= <-] [].
  - intros [= <-] Hin. right. exact Hin.
  - discriminate.
  - destruct (k =? 0); [intros [= <-] []|discriminate].
  - destruct (decimal_is_zero d); [intros [= <-] []|discriminate].
Qed.

Lemma y_find_loop_in (fuel : nat) :
  forall (u : unit_t) (current : node_ptr) (n : y_node_t) (u' : unit_t),
    y_find_loop fuel u current = Ok (Some n, u') ->
    exists chain, current = Chain chain /\ In n (flat_map subnodes chain).
Proof.
  induction fuel as [|fuel IH]; intros u current n u' H; [discriminate|].
  cbn [y_find_loop] in H. bind_inv H. destruct a as [[temp|] u1]; [|discriminate].
  destruct current as [chain| |]; [|discriminate..].
  exists chain. split; [reflexivity|].
  destruct (y_find_scan _ chain) as [it|] eqn:Hscan; [|discriminate].
  apply y_find_scan_in in Hscan.
  assert (Hsub : forall m, In m (subnodes it) -> In m (flat_map subnodes chain))
    by (intros m Hm; apply in_flat_map; exists it; split; assumption).
  destruct (tok_kind (unit_current u1) =? TOKEN_NONE).
  - injection H as <- _. apply Hsub, subnodes_self.
  - destruct (IH u1 _ n u' H) as (children & Hchildren & Hin).
    apply Hsub. apply (value_node_children it children n Hchildren Hin).
Qed.

(** X5.  Whatever the path, a node [y_find] returns is a node of the tree
    under one of the roots it starts from: a root of that chain or a node
    reached from one through the lists of containers. *)
Theorem y_find_returns_a_node_of_the_forest (y : yctx_t) (path : list Z) (n : y_node_t) :
  y_find y path = Ok (Some n) ->
  exists root, In root (chain_from y (ctx_heads y)) /\ In n (subnodes root).
Proof.
  unfold y_find, y_find_run. intros H. bind_inv H. destruct a as [found u].
  injection H as ->. bind_inv E. destruct a as [t u1].
  apply y_find_loop_in in E. destruct E as (chain & Hheads & Hin).
  apply in_flat_map in Hin. unfold heads_node in Hheads. unfold chain_from.
  destruct (ctx_heads y); [discriminate|]. injection Hheads as <-. exact Hin.
Qed.

Lemma y_find_returns_a_node_of_the_forest_witness :
  let y := returned y_create (load_one (bytes "x { a { b } }")) in
  exists root, In root (chain_from y (ctx_heads y)) /\
               In (mk_node (bytes "b") [] value_zero) (subnodes root).
Proof.
  intros y.
  apply (y_find_returns_a_node_of_the_forest y (bytes "x a b")).
  vm_compute. reflexivity.
Defined.

(** * What the lexer writes *)

Lemma commented_refl (d : list Z) : commented d d.
Proof. split; [reflexivity|]. intros i. left. reflexivity. Qed.

Lemma commented_trans (d1 d2 d3 : list Z) :
  commented d1 d2 -> commented d2 d3 -> commented d1 d3.
Proof.
  intros [L1 N1] [L2 N2]. split; [congruence|]. intros i.
  destruct (N2 i) as [Hsame|(Hs & Hs' & Hone)].
  - rewrite Hsame. apply N1.
  - right. destruct (N1 i) as [Hi|(_ & _ & Hi)]; [|rewrite Hs in Hi; discriminate].
    destruct (N1 (S i)) as [Hi'|(_ & _ & Hi')]; [|rewrite Hs' in Hi'; discriminate].
    rewrite <- Hi, <- Hi'. auto.
Qed.

Lemma store_at_same (d : list Z) (i : nat) (c : Z) :
  (i < List.length d)%nat -> nth_error (store_at d i c) i = Some c.
Proof.
  revert i; induction d as [|h t IH]; intros [|i] H; simpl in *; try lia; auto.
  apply IH. lia.
Qed.

Lemma raw_commented (u : unit_t) (ch : Z) (u' : unit_t) :
  raw u = Ok (ch, u') -> commented (unit_data u) (unit_data u').
Proof.
  unfold raw. intros H. bind_inv H. rename a into c.
  pose proof (deref_Ok _ _ _ E) as Hb. simpl in Hb.
  destruct (c =? ch_slash) eqn:Hs;
    [|injection H as <- <-; apply commented_refl].
  bind_inv H. rename a into c1.
  destruct (c1 =? ch_slash) eqn:Hs1;
    [|injection H as <- <-; apply commented_refl].
  apply Z.eqb_eq in Hs, Hs1. subst c c1.
  apply raw_skip_post in H; [|simpl; lia|lia]. destruct H as (_ & -> & _).
  destruct (deref_nonzero _ _ _ E) as [Hat Hin]; [discriminate|].
  destruct (deref_nonzero _ _ _ E0) as [Hnext _]; [discriminate|].
  cbn [unit_data set_cursor store set_data] in *.
  replace (Z.to_nat (unit_cursor u + 1)) with (S (Z.to_nat (unit_cursor u))) in Hnext by lia.
  split; [apply store_at_length|]. intros i.
  destruct (Nat.eq_dec i (Z.to_nat (unit_cursor u))) as [->|Hne].
  - right. split; [assumption|]. split; [assumption|].
    apply store_at_same. unfold buffer_size in Hin.
    cbn [unit_data set_cursor] in Hin. lia.
  - left. apply store_at_other. auto.
Qed.

Lemma next_from_commented (fuel : nat) :
  forall (u : unit_t) (ch : Z) (u' : unit_t),
    next_from fuel u = Ok (ch, u') -> commented (unit_data u) (unit_data u').
Proof.
  induction fuel as [|fuel IH]; intros u ch u' H; simpl in H; [discriminate|].
  bind_inv H. destruct a as [ch1 u1]. bind_inv H. rename a into c.
  apply raw_commented in E.
  destruct (c =? ch_newline).
  - apply IH in H. eapply commented_trans; eassumption.
  - destruct ((c =? ch_tab) || (c =? ch_space)).
    + apply IH in H. eapply commented_trans; eassumption.
    + injection H as <- <-. exact E.
Qed.

Lemma token_text_scan_commented (fuel : nat) :
  forall (u : unit_t) (ch : Z) (u' : unit_t),
    token_text_scan fuel u ch = Ok u' -> commented (unit_data u) (unit_data u').
Proof.
  induction fuel as [|fuel IH]; intros u ch u' H; simpl in H; [discriminate|].
  bind_inv H. rename a into c. destruct (is_text_char c).
  - bind_inv H. destruct a as [ch1 u1]. apply raw_commented in E0. apply IH in H.
    eapply commented_trans; eassumption.
  - injection H as <-. apply commented_refl.
Qed.

Lemma token_number_scan_commented (fuel : nat) :
  forall (u : unit_t) (ch : Z) (number number' : y_kind) (u' : unit_t),
    token_number_scan fuel u ch number = Ok (number', u') ->
    commented (unit_data u) (unit_data u').
Proof.
  induction fuel as [|fuel IH]; intros u ch number number' u' H; simpl in H;
    [discriminate|].
  bind_inv H. rename a into c. destruct (is_number_char c).
  - bind_inv H. destruct a as [ch1 u1]. bind_inv H. rename a into c1.
    apply raw_commented in E0.
    destruct (c1 =? ch_dot); [destruct (y_kind_eqb number Y_DECIMAL); [discriminate|]|];
      apply IH in H; eapply commented_trans; eassumption.
  - injection H as <- <-. apply commented_refl.
Qed.

Lemma token_string_scan_commented (fuel : nat) :
  forall (u : unit_t) (ch : Z) (u' : unit_t),
    token_string_scan fuel u = Ok (ch, u') -> commented (unit_data u) (unit_data u').
Proof.
  induction fuel as [|fuel IH]; intros u ch u' H; simpl in H; [discriminate|].
  bind_inv H. destruct a as [ch1 u1]. bind_inv H. rename a into c.
  apply raw_commented in E.
  destruct (c =? ch_quote); [injection H as <- <-; exact E|].
  destruct (c =? ch_newline); [discriminate|].
  apply IH in H. eapply commented_trans; eassumption.
Qed.

Lemma lex_token_commented (u : unit_t) (t : token_t) (u' : unit_t) :
  lex_token u = Ok (t, u') -> commented (unit_data u) (unit_data u').
Proof.
  unfold lex_token. intros H.
  destruct (unit_cursor u >? unit_length u);
    [injection H as <- <-; apply commented_refl|].
  bind_inv H. destruct a as [ch u1]. bind_inv H. rename a into c.
  apply next_from_commented in E.
  destruct (c =? 0); [injection H as <- <-; exact E|].
  destruct ((c =? ch_open) || (c =? ch_close) || (c =? ch_at));
    [injection H as <- <-; exact E|].
  destruct (c =? ch_quote).
  { unfold token_string in H. bind_inv H. destruct a as [ch2 u2].
    injection H as <- <-. apply token_string_scan_commented in E1.
    eapply commented_trans; eassumption. }
  destruct (isalpha c || (c =? ch_underscore)).
  { unfold token_text in H. bind_inv H. rename a into u2.
    injection H as <- <-. apply token_text_scan_commented in E1.
    eapply commented_trans; eassumption. }
  destruct (isdigit c); [|discriminate].
  unfold token_number in H. bind_inv H. destruct a as [number u2].
  apply token_number_scan_commented in E1.
  assert (Hall : commented (unit_data u) (unit_data (set_cursor u2 (unit_cursor u2 - 1))))
    by (eapply commented_trans; eassumption).
  destruct number; try destruct (strtoull _); injection H as <- <-; exact Hall.
Qed.

Lemma lexed_refl (u : unit_t) : lexed u u.
Proof. split; [apply commented_refl|]. split; [lia|reflexivity]. Qed.

Lemma lexed_trans (u1 u2 u3 : unit_t) : lexed u1 u2 -> lexed u2 u3 -> lexed u1 u3.
Proof.
  intros (D1 & C1 & L1) (D2 & C2 & L2).
  split; [eapply commented_trans; eassumption|]. split; [lia|congruence].
Qed.

Lemma lex_next_lexed (u : unit_t) (t : token_t) (u' : unit_t) :
  lex_next u = Ok (t, u') -> lexed u u'.
Proof.
  unfold lex_next. intros H. bind_inv H. destruct a as [t1 u1]. injection H as <- <-.
  pose proof (lex_token_commented _ _ _ E) as Hd.
  pose proof (lex_token_cursor _ _ _ E) as (_ & Hl & Hc & _).
  split; [exact Hd|]. split; [exact Hc|exact Hl].
Qed.

Lemma token_eat_lexed (u : unit_t) (t : token_t) (u' : unit_t) :
  token_eat u = Ok (t, u') -> lexed u u'.
Proof.
  unfold token_eat. intros H. bind_inv H. destruct a as [t1 u1]. injection H as _ <-.
  apply (lex_next_lexed _ _ _ E).
Qed.

Lemma token_expect_lexed (u : unit_t) (kind : Z) (t : token_t) (u' : unit_t) :
  token_expect u kind = Ok (t, u') -> lexed u u'.
Proof.
  unfold token_expect. destruct (_ =? kind); [apply token_eat_lexed|discriminate].
Qed.

Lemma token_consume_lexed (u : unit_t) (kind : Z) (r : option token_t) (u' : unit_t) :
  token_consume u kind = Ok (r, u') -> lexed u u'.
Proof.
  unfold token_consume. destruct (_ =? kind).
  - intros H. bind_inv H. destruct a as [t u1]. injection H as _ <-.
    apply (token_eat_lexed _ _ _ E).
  - intros [= _ <-]. apply lexed_refl.
Qed.

Lemma parse_note_lexed (fuel : nat) :
  forall (u : unit_t) (notes : list y_note_t) (u' : unit_t),
    parse_note fuel u = Ok (notes, u') -> lexed u u'.
Proof.
  induction fuel as [|fuel IH]; intros u notes u' H; simpl in H; [discriminate|].
  bind_inv H. destruct a as [[at_sign|] u1]; apply token_consume_lexed in E.
  - bind_inv H. destruct a as [name u2]. bind_inv H. destruct a as [rest u3].
    injection H as _ <-. apply token_expect_lexed in E0. apply IH in E1.
    eapply lexed_trans; [eassumption|]. eapply lexed_trans; eassumption.
  - injection H as _ <-. exact E.
Qed.

Lemma parse_value_lexed (fuel : nat) :
  (forall u l u', parse_list fuel u = Ok (l, u') -> lexed u u') ->
  forall (u : unit_t) (value : y_value_t) (u' : unit_t),
    parse_value fuel u = Ok (value, u') -> lexed u u'.
Proof.
  intros IHlist u value u' H. unfold parse_value in H.
  bind_inv H. destruct a as [open u1]. apply token_consume_lexed in E.
  destruct open as [t|].
  - bind_inv H. destruct a as [children u2]. injection H as _ <-.
    apply IHlist in E0. eapply lexed_trans; eassumption.
  - bind_inv H. destruct a as [temp u2]. apply token_consume_lexed in E0.
    destruct temp as [t|].
    + injection H as _ <-. eapply lexed_trans; eassumption.
    + bind_inv H. destruct a as [temp u3]. apply token_consume_lexed in E1.
      assert (Hall : lexed u u3)
        by (eapply lexed_trans; [eassumption|]; eapply lexed_trans; eassumption).
      destruct temp; injection H as _ <-; exact Hall.
Qed.

Lemma parse_lexed (fuel : nat) :
  (forall u n u', parse_node fuel u = Ok (n, u') -> lexed u u') /\
  (forall u l u', parse_list fuel u = Ok (l, u') -> lexed u u').
Proof.
  induction fuel as [|fuel [IHnode IHlist]]; [split; intros; discriminate|].
  split.
  - intros u n u' H. rewrite parse_node_unfold in H.
    bind_inv H. destruct a as [name u1]. bind_inv H. destruct a as [value u2].
    bind_inv H. destruct a as [note u3]. injection H as _ <-.
    apply token_expect_lexed in E. apply (parse_value_lexed fuel IHlist) in E0.
    apply parse_note_lexed in E1.
    eapply lexed_trans; [eassumption|]. eapply lexed_trans; eassumption.
  - intros u l u' H. simpl in H.
    bind_inv H. destruct a as [close u1]. apply token_consume_lexed in E.
    destruct close as [t|]; [injection H as _ <-; exact E|].
    bind_inv H. destruct a as [temp u2]. apply token_consume_lexed in E0.
    destruct temp as [t|]; [discriminate|].
    bind_inv H. destruct a as [child u3]. bind_inv H. destruct a as [rest u4].
    injection H as _ <-. apply IHnode in E1. apply IHlist in E2.
    eapply lexed_trans; [eassumption|]. eapply lexed_trans; [eassumption|].
    eapply lexed_trans; eassumption.
Qed.

Lemma parse_unit_lexed (u : unit_t) (n : y_node_t) (u' : unit_t) :
  parse_unit u = Ok (n, u') -> lexed u u'.
Proof.
  unfold parse_unit. intros H. bind_inv H. destruct a as [node u1].
  bind_inv H. destruct a as [t u2]. injection H as _ <-.
  apply (proj1 (parse_lexed _)) in E. apply token_expect_lexed in E0.
  eapply lexed_trans; eassumption.
Qed.

Lemma y_find_loop_lexed (fuel : nat) :
  forall (u : unit_t) (current : node_ptr) (found : option y_node_t) (u' : unit_t),
    y_find_loop fuel u current = Ok (found, u') -> lexed u u'.
Proof.
  induction fuel as [|fuel IH]; intros u current found u' H; simpl in H; [discriminate|].
  bind_inv H. destruct a as [[temp|] u1]; [|discriminate].
  apply token_consume_lexed in E.
  destruct current as [chain| |]; [|discriminate..].
  destruct (y_find_scan _ chain); [|injection H as _ <-; exact E].
  destruct (_ =? TOKEN_NONE); [injection H as _ <-; exact E|].
  apply IH in H. eapply lexed_trans; eassumption.
Qed.

(** The unit [y_load] pushes, and how it stands to the file. *)
Lemma y_load_unit (y : yctx_t) (file : list Z) (head : y_node_t) (y' : yctx_t) :
  y_load y file = Ok (head, y') ->
  exists unit, ctx_units y' = ctx_units y ++ [unit] /\ lexed (unit_of_file file) unit.
Proof.
  unfold y_load. intros H. bind_inv H. destruct a as [t u1].
  bind_inv H. destruct a as [head1 u2]. injection H as _ <-.
  exists u2. split; [apply link_head_units|].
  apply lex_next_lexed in E. apply parse_unit_lexed in E0.
  eapply lexed_trans; eassumption.
Qed.

Lemma commented_plain (d d' : list Z) :
  commented d d' ->
  (forall i : nat, nth_error d i = Some ch_slash -> nth_error d (S i) <> Some ch_slash) ->
  d' = d.
Proof.
  intros [_ Hn] Hplain. apply nth_error_ext. intros i.
  destruct (Hn i) as [Hsame|(Hs & Hs' & _)]; [exact Hsame|].
  exfalso. apply (Hplain i); assumption.
Qed.

(** X6.  All that loading a unit or resolving a path ever writes to its
    buffer is a [1] over the first slash of a [//]: the unit [y_load] pushes
    to [units] and the unit [y_find] ends with hold the bytes they were given
    but for such slashes, and the very bytes when no two slashes stand side
    by side. *)
Theorem lexing_writes_comment_marks_only :
  (forall y file head y',
     y_load y file = Ok (head, y') ->
     exists unit,
       ctx_units y' = ctx_units y ++ [unit] /\ commented file (unit_data unit)) /\
  (forall y path found unit,
     y_find_run y path = Ok (found, unit) -> commented path (unit_data unit)) /\
  (forall d d',
     commented d d' ->
     (forall i : nat,
        nth_error d i = Some ch_slash -> nth_error d (S i) <> Some ch_slash) ->
     d' = d).
Proof.
  split; [|split].
  - intros y file head y' H.
    destruct (y_load_unit y file head y' H) as (unit & Hunits & Hd & _).
    exists unit. split; assumption.
  - intros y path found unit H. unfold y_find_run in H.
    bind_inv H. destruct a as [t u1].
    apply lex_next_lexed in E. apply y_find_loop_lexed in H.
    destruct (lexed_trans _ _ _ E H) as [Hd _]. exact Hd.
  - exact commented_plain.
Qed.

(** * Reads stay inside the buffer *)

Lemma safe_bind {A B : Type} (r : result A) (k : A -> result B) :
  safe r -> (forall a, r = Ok a -> safe (k a)) -> safe (bind r k).
Proof.
  unfold safe. destruct r as [a| |ub]; simpl; intros Hr Hk.
  - apply Hk. reflexivity.
  - discriminate.
  - intros ub' [= <-]. apply Hr. reflexivity.
Qed.

Lemma safe_Ok {A : Type} (a : A) : safe (Ok a).
Proof. intros ub H. discriminate. Qed.

Lemma safe_Fatal {A : Type} (s : source_t) (m : fatal_msg) : safe (@Fatal A s m).
Proof. intros ub H. discriminate. Qed.

Lemma safe_Out_of_fuel {A : Type} : safe (@Undefined A Out_of_fuel).
Proof. intros ub [= <-]. reflexivity. Qed.

Lemma safe_deref (u : unit_t) (i : Z) : 0 <= i <= buffer_size u -> safe (deref u i).
Proof.
  intros Hi. unfold deref.
  replace (i <? 0) with false by (symmetry; apply Z.ltb_ge; lia).
  destruct (nth_error (unit_data u) (Z.to_nat i)) eqn:Hn; [apply safe_Ok|].
  apply nth_error_None in Hn.
  replace (i =? buffer_size u) with true
    by (symmetry; apply Z.eqb_eq; unfold buffer_size in *; lia).
  apply safe_Ok.
Qed.

Lemma deref_nth (u : unit_t) (i : nat) (x c : Z) :
  nth_error (unit_data u) i = Some x -> deref u (Z.of_nat i) = Ok c -> c = x.
Proof.
  unfold deref. intros Hn.
  replace (Z.of_nat i <? 0) with false by (symmetry; apply Z.ltb_ge; lia).
  rewrite Nat2Z.id, Hn. intros [= ->]. reflexivity.
Qed.

Lemma raw_skip_safe (fuel : nat) :
  forall (u : unit_t) (ch : Z),
    unit_cursor u = ch + 1 -> 0 <= ch <= buffer_size u -> safe (raw_skip fuel u ch).
Proof.
  induction fuel as [|fuel IH]; intros u ch Hc Hb; cbn [raw_skip];
    [apply safe_Out_of_fuel|].
  apply safe_bind; [apply safe_deref; exact Hb|]. intros c E.
  destruct ((c =? 0) || (c =? ch_newline)) eqn:Hstop; [apply safe_Ok|].
  apply orb_false_iff in Hstop. destruct Hstop as [Hz _]. apply Z.eqb_neq in Hz.
  destruct (deref_nonzero _ _ _ E Hz) as [_ Hin].
  apply IH; [cbn [unit_cursor set_cursor]; lia|].
  change (buffer_size (set_cursor u (unit_cursor u + 1))) with (buffer_size u). lia.
Qed.

Lemma buffer_size_store (u : unit_t) (i c : Z) : buffer_size (store u i c) = buffer_size u.
Proof.
  unfold buffer_size, store. cbn [unit_data set_data].
  rewrite store_at_length. reflexivity.
Qed.

Lemma raw_safe (u : unit_t) : 0 <= unit_cursor u <= buffer_size u -> safe (raw u).
Proof.
  intros Hb. unfold raw. cbv zeta.
  apply safe_bind; [apply safe_deref; exact Hb|]. intros c E.
  destruct (c =? ch_slash) eqn:Hs; [|apply safe_Ok].
  apply Z.eqb_eq in Hs. subst c.
  destruct (deref_nonzero _ _ _ E) as [_ Hin]; [discriminate|].
  change (buffer_size (set_cursor u (unit_cursor u + 1))) with (buffer_size u) in Hin.
  apply safe_bind;
    [apply safe_deref;
     change (buffer_size (set_cursor u (unit_cursor u + 1))) with (buffer_size u); lia|].
  intros c1 E1. destruct (c1 =? ch_slash); [|apply safe_Ok].
  apply raw_skip_safe; [reflexivity|]. rewrite buffer_size_store.
  change (buffer_size (set_cursor u (unit_cursor u + 1))) with (buffer_size u). lia.
Qed.

Lemma next_from_safe (fuel : nat) :
  forall u : unit_t, 0 <= unit_cursor u <= buffer_size u -> safe (next_from fuel u).
Proof.
  induction fuel as [|fuel IH]; intros u Hb; cbn [next_from]; [apply safe_Out_of_fuel|].
  apply safe_bind; [apply raw_safe; exact Hb|]. intros [ch u1] E.
  pose proof (raw_post _ _ _ E) as (Hge & Hcur & _).
  pose proof (raw_bound _ _ _ E) as [Hle Hsize].
  apply safe_bind; [apply safe_deref; lia|]. intros c Ec.
  assert (Hnext : c <> 0 -> 0 <= unit_cursor u1 <= buffer_size u1)
    by (intros Hz; destruct (deref_nonzero _ _ _ Ec Hz) as [_ Hin]; lia).
  destruct (c =? ch_newline) eqn:Hnl.
  - apply IH. apply Z.eqb_eq in Hnl. apply Hnext. subst c. discriminate.
  - destruct ((c =? ch_tab) || (c =? ch_space)) eqn:Hblank; [|apply safe_Ok].
    apply IH, Hnext. intros ->. discriminate.
Qed.

Lemma token_text_scan_safe (fuel : nat) :
  forall (u : unit_t) (ch : Z),
    unit_cursor u = ch + 1 -> 0 <= ch <= buffer_size u ->
    safe (token_text_scan fuel u ch).
Proof.
  induction fuel as [|fuel IH]; intros u ch Hc Hb; cbn [token_text_scan];
    [apply safe_Out_of_fuel|].
  apply safe_bind; [apply safe_deref; exact Hb|]. intros c E.
  destruct (is_text_char c) eqn:Htext; [|apply safe_Ok].
  destruct (deref_nonzero _ _ _ E (is_text_char_nonzero _ Htext)) as [_ Hin].
  apply safe_bind; [apply raw_safe; lia|]. intros [ch1 u1] E1.
  pose proof (raw_post _ _ _ E1) as (Hge & Hcur & _).
  pose proof (raw_bound _ _ _ E1) as [Hle Hsize].
  apply IH; [assumption|lia].
Qed.

Lemma is_number_char_nonzero (c : Z) : is_number_char c = true -> c <> 0.
Proof. intros H ->. discriminate. Qed.

Lemma token_number_scan_safe (fuel : nat) :
  forall (u : unit_t) (ch : Z) (number : y_kind),
    unit_cursor u = ch + 1 -> 0 <= ch <= buffer_size u ->
    safe (token_number_scan fuel u ch number).
Proof.
  induction fuel as [|fuel IH]; intros u ch number Hc Hb; cbn [token_number_scan];
    [apply safe_Out_of_fuel|].
  apply safe_bind; [apply safe_deref; exact Hb|]. intros c E.
  destruct (is_number_char c) eqn:Hnum; [|apply safe_Ok].
  destruct (deref_nonzero _ _ _ E (is_number_char_nonzero _ Hnum)) as [_ Hin].
  apply safe_bind; [apply raw_safe; lia|]. intros [ch1 u1] E1.
  pose proof (raw_post _ _ _ E1) as (Hge & Hcur & _).
  pose proof (raw_bound _ _ _ E1) as [Hle Hsize].
  apply safe_bind; [apply safe_deref; lia|]. intros c1 Ec1.
  destruct (c1 =? ch_dot); [destruct (y_kind_eqb number Y_DECIMAL); [apply safe_Fatal|]|];
    (apply IH; [assumption|lia]).
Qed.

(** [raw] passes no newline: the loop that skips a comment stops on it. *)
Lemma raw_skip_line (fuel : nat) :
  forall (u : unit_t) (ch ch' : Z) (u' : unit_t),
    unit_cursor u = ch + 1 -> 0 <= ch ->
    raw_skip fuel u ch = Ok (ch', u') ->
    forall i, ch <= i < ch' -> nth_error (unit_data u) (Z.to_nat i) <> Some ch_newline.
Proof.
  induction fuel as [|fuel IH]; intros u ch ch' u' Hc Hpos H; simpl in H; [discriminate|].
  bind_inv H. rename a into c.
  destruct ((c =? 0) || (c =? ch_newline)) eqn:Hstop.
  - injection H as <- <-. intros i Hi. lia.
  - apply orb_false_iff in Hstop. destruct Hstop as [Hz Hnl].
    apply Z.eqb_neq in Hz, Hnl.
    assert (Hrun : forall i, unit_cursor u <= i < ch' ->
                     nth_error (unit_data u) (Z.to_nat i) <> Some ch_newline).
    { apply (IH (set_cursor u (unit_cursor u + 1)) (unit_cursor u) ch' u');
        [reflexivity|lia|exact H]. }
    intros i Hi. destruct (Z.eq_dec i ch) as [->|Hne].
    + destruct (deref_nonzero _ _ _ E Hz) as [-> _]. congruence.
    + apply (Hrun i). lia.
Qed.

Lemma raw_line (u : unit_t) (ch : Z) (u' : unit_t) :
  raw u = Ok (ch, u') ->
  forall i, unit_cursor u <= i < ch ->
    nth_error (unit_data u') (Z.to_nat i) <> Some ch_newline.
Proof.
  unfold raw. intros H. bind_inv H. rename a into c.
  pose proof (deref_Ok _ _ _ E) as Hb. simpl in Hb.
  destruct (c =? ch_slash);
    [|injection H as <- <-; intros i Hi; lia].
  bind_inv H. rename a into c1.
  destruct (c1 =? ch_slash);
    [|injection H as <- <-; intros i Hi; lia].
  pose proof H as Hskip. apply raw_skip_post in Hskip; [|simpl; lia|lia].
  destruct Hskip as (_ & -> & _). intros i Hi.
  refine (raw_skip_line _ _ _ _ _ _ _ H i Hi); [reflexivity|lia].
Qed.

Lemma commented_newline (d d' : list Z) (j : nat) :
  commented d d' -> nth_error d j = Some ch_newline -> nth_error d' j = Some ch_newline.
Proof.
  intros [_ Hn] Hj. destruct (Hn j) as [Hsame|(Hs & _)]; [congruence|].
  rewrite Hj in Hs. discriminate.
Qed.

Lemma token_string_scan_safe (fuel : nat) :
  forall (u : unit_t) (j : nat),
    0 <= unit_cursor u <= Z.of_nat j ->
    nth_error (unit_data u) j = Some ch_newline ->
    safe (token_string_scan fuel u).
Proof.
  induction fuel as [|fuel IH]; intros u j Hc Hj; cbn [token_string_scan];
    [apply safe_Out_of_fuel|].
  assert (Hlt : (j < List.length (unit_data u))%nat)
    by (apply nth_error_Some; congruence).
  apply safe_bind; [apply raw_safe; unfold buffer_size; lia|]. intros [ch u1] E.
  pose proof (raw_post _ _ _ E) as (Hge & Hcur & _).
  pose proof (raw_bound _ _ _ E) as [Hle Hsize].
  pose proof (commented_newline _ _ j (raw_commented _ _ _ E) Hj) as Hj1.
  assert (Hch : ch <= Z.of_nat j).
  { destruct (Z_le_gt_dec ch (Z.of_nat j)) as [|Hgt]; [assumption|].
    exfalso. apply (raw_line _ _ _ E (Z.of_nat j)); [lia|].
    rewrite Nat2Z.id. exact Hj1. }
  apply safe_bind; [apply safe_deref; lia|]. intros c Ec.
  destruct (c =? ch_quote); [apply safe_Ok|].
  destruct (c =? ch_newline) eqn:Hnl; [apply safe_Fatal|].
  apply (IH u1 j); [|exact Hj1].
  assert (Hne : ch <> Z.of_nat j).
  { intros ->. apply (deref_nth u1 j ch_newline c Hj1) in Ec. subst c. discriminate. }
  lia.
Qed.

Lemma strings_end_commented (d d' : list Z) :
  commented d d' -> strings_end d -> strings_end d'.
Proof.
  intros Hc Hd i Hi.
  assert (Hq : nth_error d i = Some ch_quote).
  { destruct Hc as [_ Hn]. destruct (Hn i) as [Hsame|(_ & _ & Hone)]; [congruence|].
    rewrite Hi in Hone. discriminate. }
  destruct (Hd i Hq) as (j & Hlt & Hj). exists j. split; [exact Hlt|].
  apply (commented_newline d d' j Hc Hj).
Qed.

Lemma sound_lexed (u u' : unit_t) : sound u -> lexed u u' -> sound u'.
Proof.
  intros (Hc & Hl & Hs) (Hd & Hc' & Hl'). split; [lia|]. split.
  - destruct Hd as [Hlen _]. unfold buffer_size in *. rewrite Hl', Hlen. exact Hl.
  - apply (strings_end_commented _ _ Hd Hs).
Qed.

Lemma sound_set_tokens (u : unit_t) (p c : token_t) : sound u -> sound (set_tokens u p c).
Proof. intros H. exact H. Qed.

Lemma next_from_bound (fuel : nat) :
  forall (u : unit_t) (ch : Z) (u' : unit_t),
    next_from fuel u = Ok (ch, u') -> ch <= buffer_size u'.
Proof.
  induction fuel as [|fuel IH]; intros u ch u' H; simpl in H; [discriminate|].
  bind_inv H. destruct a as [ch1 u1]. bind_inv H. rename a into c.
  pose proof (deref_Ok _ _ _ E0) as Hin.
  destruct (c =? ch_newline); [apply IH in H; exact H|].
  destruct ((c =? ch_tab) || (c =? ch_space)); [apply IH in H; exact H|].
  injection H as <- <-. lia.
Qed.

Lemma lex_token_safe (u : unit_t) : sound u -> safe (lex_token u).
Proof.
  intros (Hc & Hl & Hs). unfold lex_token.
  destruct (unit_cursor u >? unit_length u) eqn:Hgt; [apply safe_Ok|].
  rewrite Z.gtb_ltb in Hgt. apply Z.ltb_ge in Hgt.
  apply safe_bind; [apply next_from_safe; lia|]. intros [ch u1] E.
  pose proof (next_from_post _ _ _ _ E) as (Hge & Hcur & Hsame).
  pose proof (next_from_bound _ _ _ _ E) as Hle.
  pose proof (strings_end_commented _ _ (next_from_commented _ _ _ _ E) Hs) as Hs1.
  apply safe_bind; [apply safe_deref; lia|]. intros c Ec.
  destruct (c =? 0); [apply safe_Ok|].
  destruct ((c =? ch_open) || (c =? ch_close) || (c =? ch_at)); [apply safe_Ok|].
  destruct (c =? ch_quote) eqn:Hq.
  { apply Z.eqb_eq in Hq. subst c. unfold token_string.
    apply safe_bind; [|intros [ch2 u2] _; apply safe_Ok].
    destruct (deref_nonzero _ _ _ Ec) as [Hat _]; [discriminate|].
    destruct (Hs1 _ Hat) as (j & Hlt & Hj).
    apply (token_string_scan_safe _ u1 j); [lia|exact Hj]. }
  destruct (isalpha c || (c =? ch_underscore)).
  { unfold token_text. apply safe_bind; [|intros u2 _; apply safe_Ok].
    apply token_text_scan_safe; [assumption|lia]. }
  destruct (isdigit c); [|apply safe_Fatal].
  unfold token_number. apply safe_bind.
  - apply token_number_scan_safe; [assumption|lia].
  - intros [number u2] _. cbv zeta.
    destruct number; try destruct (strtoull _); apply safe_Ok.
Qed.

Lemma lex_next_safe (u : unit_t) : sound u -> safe (lex_next u).
Proof.
  intros Hu. unfold lex_next. cbv zeta.
  apply safe_bind; [apply lex_token_safe, sound_set_tokens, Hu|].
  intros [t u1] _. apply safe_Ok.
Qed.

Lemma token_eat_safe (u : unit_t) : sound u -> safe (token_eat u).
Proof.
  intros Hu. unfold token_eat.
  apply safe_bind; [apply lex_next_safe, Hu|]. intros [t u1] _. apply safe_Ok.
Qed.

Lemma token_expect_safe (u : unit_t) (kind : Z) : sound u -> safe (token_expect u kind).
Proof.
  intros Hu. unfold token_expect.
  destruct (_ =? kind); [apply token_eat_safe, Hu|apply safe_Fatal].
Qed.

Lemma token_consume_safe (u : unit_t) (kind : Z) : sound u -> safe (token_consume u kind).
Proof.
  intros Hu. unfold token_consume. destruct (_ =? kind); [|apply safe_Ok].
  apply safe_bind; [apply token_eat_safe, Hu|]. intros [t u1] _. apply safe_Ok.
Qed.

Lemma parse_note_safe (fuel : nat) :
  forall u : unit_t, sound u -> safe (parse_note fuel u).
Proof.
  induction fuel as [|fuel IH]; intros u Hu; cbn [parse_note]; [apply safe_Out_of_fuel|].
  apply safe_bind; [apply token_consume_safe, Hu|]. intros [[at_sign|] u1] E;
    [|apply safe_Ok].
  pose proof (sound_lexed _ _ Hu (token_consume_lexed _ _ _ _ E)) as Hu1.
  apply safe_bind; [apply token_expect_safe, Hu1|]. intros [name u2] E2.
  pose proof (sound_lexed _ _ Hu1 (token_expect_lexed _ _ _ _ E2)) as Hu2.
  apply safe_bind; [apply IH, Hu2|]. intros [rest u3] _. apply safe_Ok.
Qed.

Lemma parse_value_safe (fuel : nat) :
  (forall u, sound u -> safe (parse_list fuel u)) ->
  forall u : unit_t, sound u -> safe (parse_value fuel u).
Proof.
  intros IHlist u Hu. unfold parse_value.
  apply safe_bind; [apply token_consume_safe, Hu|]. intros [[open|] u1] E;
    pose proof (sound_lexed _ _ Hu (token_consume_lexed _ _ _ _ E)) as Hu1.
  - apply safe_bind; [apply IHlist, Hu1|]. intros [children u2] _. apply safe_Ok.
  - apply safe_bind; [apply token_consume_safe, Hu1|]. intros [[temp|] u2] E2;
      [apply safe_Ok|].
    pose proof (sound_lexed _ _ Hu1 (token_consume_lexed _ _ _ _ E2)) as Hu2.
    apply safe_bind; [apply token_consume_safe, Hu2|]. intros [[temp|] u3] _;
      apply safe_Ok.
Qed.

Lemma parse_safe (fuel : nat) :
  (forall u, sound u -> safe (parse_node fuel u)) /\
  (forall u, sound u -> safe (parse_list fuel u)).
Proof.
  induction fuel as [|fuel [IHnode IHlist]]; [split; intros; apply safe_Out_of_fuel|].
  split.
  - intros u Hu. rewrite parse_node_unfold.
    apply safe_bind; [apply token_expect_safe, Hu|]. intros [name u1] E.
    pose proof (sound_lexed _ _ Hu (token_expect_lexed _ _ _ _ E)) as Hu1.
    apply safe_bind; [apply (parse_value_safe fuel IHlist), Hu1|]. intros [value u2] E2.
    pose proof (sound_lexed _ _ Hu1
                  (parse_value_lexed fuel (proj2 (parse_lexed fuel)) _ _ _ E2)) as Hu2.
    apply safe_bind; [apply parse_note_safe, Hu2|]. intros [note u3] _. apply safe_Ok.
  - intros u Hu. cbn [parse_list].
    apply safe_bind; [apply token_consume_safe, Hu|]. intros [[close|] u1] E;
      [apply safe_Ok|].
    pose proof (sound_lexed _ _ Hu (token_consume_lexed _ _ _ _ E)) as Hu1.
    apply safe_bind; [apply token_consume_safe, Hu1|]. intros [[temp|] u2] E2;
      [apply safe_Fatal|].
    pose proof (sound_lexed _ _ Hu1 (token_consume_lexed _ _ _ _ E2)) as Hu2.
    apply safe_bind; [apply IHnode, Hu2|]. intros [child u3] E3.
    pose proof (sound_lexed _ _ Hu2 (proj1 (parse_lexed fuel) _ _ _ E3)) as Hu3.
    apply safe_bind; [apply IHlist, Hu3|]. intros [rest u4] _. apply safe_Ok.
Qed.

Lemma y_load_safe (y : yctx_t) (file : list Z) :
  strings_end file -> safe (y_load y file).
Proof.
  intros Hfile. unfold y_load. cbv zeta.
  assert (Hu : sound (unit_of_file file)).
  { split; [simpl; lia|]. split; [unfold buffer_size; simpl; lia|exact Hfile]. }
  apply safe_bind; [apply lex_next_safe, Hu|]. intros [t u1] E.
  pose proof (sound_lexed _ _ Hu (lex_next_lexed _ _ _ E)) as Hu1.
  apply safe_bind; [|intros [head u2] _; apply safe_Ok].
  unfold parse_unit. apply safe_bind; [apply (proj1 (parse_safe _)), Hu1|].
  intros [node u2] E2.
  pose proof (sound_lexed _ _ Hu1 (proj1 (parse_lexed _) _ _ _ E2)) as Hu2.
  apply safe_bind; [apply token_expect_safe, Hu2|]. intros [t2 u3] _. apply safe_Ok.
Qed.

Lemma strings_end_no_quote (d : list Z) : ~ In ch_quote d -> strings_end d.
Proof. intros Hd i Hi. exfalso. apply Hd. apply (nth_error_In d i Hi). Qed.

Lemma strings_end_last_newline (body : list Z) : strings_end (body ++ [ch_newline]).
Proof.
  intros i Hi. exists (List.length body). split.
  - assert (Hlt : (i < List.length (body ++ [ch_newline]))%nat)
      by (apply nth_error_Some; congruence).
    rewrite length_app in Hlt. cbn [List.length] in Hlt.
    destruct (Nat.eq_dec i (List.length body)) as [->|Hne]; [|lia].
    rewrite nth_error_app2, Nat.sub_diag in Hi by lia. discriminate.
  - rewrite nth_error_app2, Nat.sub_diag by lia. reflexivity.
Qed.

Lemma strlen_le (s : list Z) : strlen s <= Z.of_nat (List.length s).
Proof.
  induction s as [|c t IH]; cbn [strlen List.length]; [lia|].
  destruct (c =? 0); lia.
Qed.

Lemma y_find_loop_undefined (fuel : nat) :
  forall (u : unit_t) (current : node_ptr) (ub : undefined_behaviour),
    sound u -> y_find_loop fuel u current = Undefined ub ->
    ub = Out_of_fuel \/ ub = Wild_pointer \/ ub = Dangling_pointer \/
    ub = No_return_value.
Proof.
  induction fuel as [|fuel IH]; intros u current ub Hu H; cbn [y_find_loop] in H.
  - injection H as <-. auto.
  - destruct (token_consume u TOKEN_TEXT) as [[temp u1]|s m|ub'] eqn:E; cbn [bind] in H.
    + pose proof (sound_lexed _ _ Hu (token_consume_lexed _ _ _ _ E)) as Hu1.
      destruct temp as [temp|]; [|injection H as <-; auto].
      destruct current as [chain| |]; [|injection H as <-; auto..].
      destruct (y_find_scan _ chain); [|discriminate].
      destruct (_ =? TOKEN_NONE); [discriminate|].
      apply (IH u1 _ ub Hu1 H).
    + discriminate.
    + injection H as <-. left. apply (token_consume_safe u TOKEN_TEXT Hu ub' E).
Qed.

(** X7.  In a buffer short enough for an [int] cursor that holds no double
    quote, or that ends with a newline, so that a string left open meets a
    newline before the terminator, no read the lexer makes of the buffer is
    outside the buffer and its terminator, neither in [y_load] nor in
    [y_find] over such a path.  (Without that, an open string is read past
    the end: C5.) *)
Theorem reads_stay_in_the_buffer (y : yctx_t) (buffer : list Z) :
  Z.of_nat (List.length buffer) + 1 < 2 ^ 31 ->
  ~ In ch_quote buffer \/ (exists body, buffer = body ++ [ch_newline]) ->
  (forall i, y_load y buffer <> Undefined (Out_of_bounds i)) /\
  (forall i, y_find y buffer <> Undefined (Out_of_bounds i)).
Proof.
  intros _ Hbuffer.
  assert (Hends : strings_end buffer).
  { destruct Hbuffer as [Hno|[body ->]];
      [apply strings_end_no_quote; exact Hno|apply strings_end_last_newline]. }
  split.
  - intros i H. pose proof (y_load_safe y buffer Hends _ H). discriminate.
  - intros i H. unfold y_find, y_find_run in H.
    assert (Hu : sound (unit_of_path buffer)).
    { split; [simpl; lia|]. split; [apply strlen_le|exact Hends]. }
    destruct (lex_next (unit_of_path buffer)) as [[t u1]|s m|ub] eqn:E; cbn [bind] in H.
    + pose proof (sound_lexed _ _ Hu (lex_next_lexed _ _ _ E)) as Hu1.
      destruct (y_find_loop (scan_fuel u1) u1 _) as [[found u2]|s m|ub] eqn:E2;
        cbn [bind] in H; try discriminate.
      injection H as ->.
      destruct (y_find_loop_undefined _ _ _ _ Hu1 E2) as [Hub|[Hub|[Hub|Hub]]];
        discriminate.
    + discriminate.
    + injection H as ->. pose proof (lex_next_safe _ Hu _ E). discriminate.
Qed.

Lemma reads_stay_in_the_buffer_witness :
  let y := returned y_create (load_one (bytes "name { key 1 }")) in
  ~ (exists i, y_load y (bytes "name { key 1 } // end") = Undefined (Out_of_bounds i)) /\
  ~ (exists i, y_find y (bytes "name key // end") = Undefined (Out_of_bounds i)).
Proof.
  intros y. split; intros [i H].
  - refine (proj1 (reads_stay_in_the_buffer y (bytes "name { key 1 } // end") _ _) i H).
    + vm_compute. reflexivity.
    + left. vm_compute. intuition discriminate.
  - refine (proj2 (reads_stay_in_the_buffer y (bytes "name key // end") _ _) i H).
    + vm_compute. reflexivity.
    + left. vm_compute. intuition discriminate.
Defined.

(** * The tree of a loaded unit *)

(** X8.  Every node of the tree a successful [y_load] returns is well formed:
    its name and the names of its notes have at least one byte and no zero
    byte, and the kind of its value names the member of the union that was
    written (none for a bare name, a list for a container, a string, an
    integer below [2^64], a decimal), so that reading the member by the
    kind is always reading what was stored. *)
Theorem loaded_tree_is_well_formed (y : yctx_t) (file : list Z) (root : y_node_t)
        (y' : yctx_t) (n : y_node_t) :
  y_load y file = Ok (root, y') -> In n (subnodes root) ->
  (node_name n <> [] /\ ~ In 0 (node_name n)) /\
  (forall note, In note (node_note n) ->
                note_name note <> [] /\ ~ In 0 (note_name note)) /\
  match val_kind (node_value n), val_un (node_value n) with
  | Y_NONE, U_zero => True
  | Y_NODE, U_node _ => True
  | Y_STRING, U_string _ => True
  | Y_INTEGER, U_integer k => 0 <= k <= ULLONG_MAX
  | Y_DECIMAL, U_decimal _ => True
  | _, _ => False
  end.
Proof.
  intros Hload Hin. pose proof (y_load_shape _ _ _ _ Hload) as Hall.
  rewrite Forall_forall in Hall. destruct (Hall n Hin) as (Hname & Hnotes & Hvalue).
  split; [exact Hname|]. split; [|exact Hvalue].
  rewrite Forall_forall in Hnotes. exact Hnotes.
Qed.

Lemma loaded_tree_is_well_formed_witness :
  exists root y' n,
    y_load y_create (bytes "name { key 12 @note }") = Ok (root, y') /\
    node_name n = bytes "key" /\
    val_kind (node_value n) = Y_INTEGER /\
    (node_name n <> [] /\ ~ In 0 (node_name n)).
Proof.
  eexists _, _, (mk_node (bytes "key") [mk_note (bytes "note")]
                         (mk_value Y_INTEGER (U_integer 12))).
  split; [vm_compute; reflexivity|]. split; [reflexivity|]. split; [reflexivity|].
  refine (proj1 (loaded_tree_is_well_formed y_create (bytes "name { key 12 @note }")
                   _ _ _ _ _)).
  - vm_compute. reflexivity.
  - vm_compute. right. left. reflexivity.
Defined.

(** * Kinds of tokens *)

Lemma lex_token_kind (u : unit_t) (t : token_t) (u' : unit_t) :
  lex_token u = Ok (t, u') ->
  In (tok_kind t)
     [TOKEN_NONE; TOKEN_TEXT; TOKEN_NUMBER; TOKEN_STRING; ch_open; ch_close; ch_at].
Proof.
  unfold lex_token. intros H.
  destruct (unit_cursor u >? unit_length u); [injection H as <- _; left; reflexivity|].
  bind_inv H. destruct a as [ch u1]. bind_inv H. rename a into c.
  destruct (c =? 0); [injection H as <- _; left; reflexivity|].
  destruct ((c =? ch_open) || (c =? ch_close) || (c =? ch_at)) eqn:Hs.
  { injection H as <- _. cbn [tok_kind token_new].
    apply orb_true_iff in Hs. destruct Hs as [Hs|Hs];
      [apply orb_true_iff in Hs; destruct Hs as [Hs|Hs]|];
      apply Z.eqb_eq in Hs; subst c; simpl; auto 8. }
  destruct (c =? ch_quote).
  { unfold token_string in H. bind_inv H. destruct a as [ch2 u2].
    injection H as <- _. simpl. auto. }
  destruct (isalpha c || (c =? ch_underscore)).
  { unfold token_text in H. bind_inv H. injection H as <- _. simpl. auto. }
  destruct (isdigit c); [|discriminate].
  unfold token_number in H. bind_inv H. destruct a as [number u2].
  destruct number; try destruct (strtoull _); injection H as <- _; simpl; auto.
Qed.

(** X10.  The lexer never makes a token of kind [TOKEN_DOT], [TOKEN_NOTE],
    [TOKEN_OPEN] or [TOKEN_CLOSE]: a brace or an at sign is stored under its
    own character code.  So once a token is read, consuming one of these
    four kinds eats nothing, and expecting one is a fatal error. *)
Theorem structural_token_kinds_are_characters (u : unit_t) (t : token_t) (u' : unit_t)
        (kind : Z) :
  lex_next u = Ok (t, u') ->
  In kind [TOKEN_DOT; TOKEN_NOTE; TOKEN_OPEN; TOKEN_CLOSE] ->
  In (tok_kind t)
     [TOKEN_NONE; TOKEN_TEXT; TOKEN_NUMBER; TOKEN_STRING; ch_open; ch_close; ch_at] /\
  tok_kind t <> kind /\
  token_consume u' kind = Ok (None, u') /\
  token_expect u' kind = Fatal (tok_source t) (Expected_token kind (tok_kind t)).
Proof.
  intros Hlex Hkind.
  destruct (lex_next_post _ _ _ Hlex) as (_ & _ & Hcur).
  unfold lex_next in Hlex. bind_inv Hlex. destruct a as [t1 u1].
  injection Hlex as <- _. apply lex_token_kind in E.
  assert (Hne : tok_kind t1 <> kind).
  { intros Heq. rewrite Heq in E. simpl in E, Hkind.
    unfold TOKEN_NONE, TOKEN_TEXT, TOKEN_NUMBER, TOKEN_STRING, TOKEN_DOT, TOKEN_NOTE,
      TOKEN_OPEN, TOKEN_CLOSE, ch_open, ch_close, ch_at in *. lia. }
  split; [exact E|]. split; [exact Hne|].
  unfold token_consume, token_expect. rewrite Hcur.
  apply Z.eqb_neq in Hne. rewrite Hne. split; reflexivity.
Qed.

Lemma structural_token_kinds_are_characters_witness :
  token_expect (started (bytes "{ a }")) TOKEN_OPEN
  = Fatal (tok_source (unit_current (started (bytes "{ a }"))))
          (Expected_token TOKEN_OPEN ch_open).
Proof.
  refine (proj2 (proj2 (proj2 (structural_token_kinds_are_characters
            (unit_of_file (bytes "{ a }")) _ _ TOKEN_OPEN _ _)))).
  - vm_compute. reflexivity.
  - right. right. left. reflexivity.
Defined.

(** * Names in a unit without comments *)

Lemma raw_no_comment (u : unit_t) (ch : Z) (u' : unit_t) :
  plain (unit_data u) -> raw u = Ok (ch, u') ->
  ch = unit_cursor u /\ u' = set_cursor u (unit_cursor u + 1).
Proof.
  intros Hplain. unfold raw. intros H. bind_inv H. rename a into c.
  pose proof (deref_Ok _ _ _ E) as Hb. simpl in Hb.
  destruct (c =? ch_slash) eqn:Hs; [|injection H as <- <-; auto].
  bind_inv H. rename a into c1.
  destruct (c1 =? ch_slash) eqn:Hs1; [|injection H as <- <-; auto].
  exfalso. apply Z.eqb_eq in Hs, Hs1. subst c c1.
  destruct (deref_nonzero _ _ _ E) as [Hat _]; [discriminate|].
  destruct (deref_nonzero _ _ _ E0) as [Hnext _]; [discriminate|].
  cbn [unit_data set_cursor] in *.
  replace (Z.to_nat (unit_cursor u + 1)) with (S (Z.to_nat (unit_cursor u))) in Hnext by lia.
  apply (Hplain _ Hat Hnext).
Qed.

Lemma token_text_scan_plain (fuel : nat) :
  forall (u : unit_t) (ch : Z) (u' : unit_t),
    plain (unit_data u) -> unit_cursor u = ch + 1 -> 0 <= ch ->
    token_text_scan fuel u ch = Ok u' ->
    exists ch', ch <= ch' /\ u' = set_cursor u (ch' + 1) /\
      (forall i, ch <= i < ch' ->
         exists x, nth_error (unit_data u) (Z.to_nat i) = Some x /\
                   is_text_char x = true) /\
      (forall c, deref u ch = Ok c -> is_text_char c = true -> ch < ch').
Proof.
  induction fuel as [|fuel IH]; intros u ch u' Hplain Hc Hpos H; simpl in H;
    [discriminate|].
  bind_inv H. rename a into c. destruct (is_text_char c) eqn:Htext.
  - bind_inv H. destruct a as [ch1 u1].
    destruct (raw_no_comment _ _ _ Hplain E0) as [-> ->].
    apply IH in H; [|exact Hplain|cbn [unit_cursor set_cursor]; lia|lia].
    destruct H as (ch' & Hle & -> & Hrun & _). exists ch'.
    split; [lia|]. split; [reflexivity|]. split; [|intros; lia]. intros i Hi.
    destruct (Z.eq_dec i ch) as [->|Hne].
    + exists c. split; [|exact Htext].
      apply (deref_nonzero _ _ _ E (is_text_char_nonzero _ Htext)).
    + apply (Hrun i). cbn [unit_cursor set_cursor]. lia.
  - injection H as <-. exists ch. split; [lia|]. split; [|split].
    + rewrite <- Hc. symmetry. apply set_cursor_same.
    + intros i Hi. lia.
    + intros c0 Hc0 Ht0. congruence.
Qed.

Lemma slice_Forall (P : Z -> Prop) (d : list Z) (b e : Z) :
  0 <= b ->
  (forall i, b <= i < e -> exists x, nth_error d (Z.to_nat i) = Some x /\ P x) ->
  Forall P (slice d b e).
Proof.
  intros Hb Hrun. apply Forall_forall. intros x Hin. unfold slice in Hin.
  apply In_nth_error in Hin. destruct Hin as [j Hj].
  rewrite nth_error_firstn in Hj.
  destruct (j <? Z.to_nat (e - b))%nat eqn:Hlt; [|discriminate].
  apply Nat.ltb_lt in Hlt. rewrite nth_error_skipn in Hj.
  destruct (Hrun (b + Z.of_nat j)) as (x' & Hx & HP); [lia|].
  replace (Z.to_nat (b + Z.of_nat j)) with (Z.to_nat b + j)%nat in Hx by lia.
  congruence.
Qed.

Lemma slice_first (d : list Z) (b e c : Z) :
  0 <= b < e -> nth_error d (Z.to_nat b) = Some c ->
  slice d b e = c :: slice d (b + 1) e.
Proof.
  intros Hbe Hc. unfold slice.
  replace (Z.to_nat (e - b)) with (S (Z.to_nat (e - (b + 1)))) by lia.
  replace (Z.to_nat (b + 1)) with (S (Z.to_nat b)) by lia.
  revert Hc. generalize (Z.to_nat b). intros n. revert d.
  induction n as [|n IH]; intros d Hc.
  - destruct d as [|x d]; [discriminate|]. injection Hc as ->. reflexivity.
  - destruct d as [|x d]; [discriminate|]. apply (IH d Hc).
Qed.

Lemma lex_token_plain (u : unit_t) (t : token_t) (u' : unit_t) :
  plain (unit_data u) -> lex_token u = Ok (t, u') ->
  text_is_segment t /\ unit_data u' = unit_data u.
Proof.
  intros Hplain H. split;
    [|exact (commented_plain _ _ (lex_token_commented _ _ _ H) Hplain)].
  revert H. unfold lex_token.
  destruct (unit_cursor u >? unit_length u); [intros [= <- _] Hk; discriminate|].
  intros H. bind_inv H. destruct a as [ch u1]. bind_inv H. rename a into c.
  pose proof (commented_plain _ _ (next_from_commented _ _ _ _ E) Hplain) as Hd1.
  apply next_from_post in E. destruct E as (Hge & Hcur & _).
  destruct (c =? 0) eqn:Hc0; [injection H as <- _; intros Hk; discriminate|].
  destruct ((c =? ch_open) || (c =? ch_close) || (c =? ch_at)) eqn:Hstruct.
  { injection H as <- _. intros Hk. cbn [tok_kind token_new] in Hk. subst c. discriminate. }
  destruct (c =? ch_quote).
  { unfold token_string in H. bind_inv H. destruct a as [ch2 u2].
    injection H as <- _. intros Hk. discriminate. }
  destruct (isalpha c || (c =? ch_underscore)) eqn:Hal.
  { unfold token_text in H. bind_inv H. rename a into u2. injection H as <- _.
    intros _. apply Z.eqb_neq in Hc0.
    destruct (deref_nonzero _ _ _ E0 Hc0) as [Hat _].
    apply token_text_scan_plain in E; [|rewrite Hd1; exact Hplain|assumption|lia].
    destruct E as (ch' & Hle & -> & Hrun & Hmoved).
    assert (Htext : is_text_char c = true).
    { unfold is_text_char. apply orb_true_iff in Hal.
      destruct Hal as [-> | ->]; [reflexivity|]. apply orb_true_r. }
    specialize (Hmoved c E0 Htext).
    cbn [tok_value token_new value_string val_un unit_data unit_cursor set_cursor].
    change ((TOKEN_TEXT =? TOKEN_TEXT) || (TOKEN_TEXT =? TOKEN_STRING)) with true.
    cbn iota. cbn [value_string val_un].
    replace (ch' + 1 - 1) with ch' by lia.
    rewrite (slice_first (unit_data u1) ch ch' c); [|lia|exact Hat].
    split; [exact Hal|]. apply slice_Forall; [lia|].
    intros i Hi. apply Hrun. lia. }
  destruct (isdigit c); [|discriminate].
  unfold token_number in H. bind_inv H. destruct a as [number u2].
  destruct number; try destruct (strtoull _); injection H as <- _; intros Hk;
    discriminate.
Qed.

Lemma lex_next_plain (u : unit_t) (t : token_t) (u' : unit_t) :
  plain_unit u -> lex_next u = Ok (t, u') -> plain_unit u'.
Proof.
  intros (Hd & _ & Hcur) H.
  destruct (lex_next_post _ _ _ H) as (_ & Hp' & Hc').
  unfold lex_next in H. bind_inv H. destruct a as [t1 u1]. injection H as <- <-.
  destruct (lex_token_plain (set_tokens u _ _) _ _ Hd E) as [Ht Hd1].
  split; [cbn [unit_data set_tokens] in *; rewrite Hd1; exact Hd|].
  rewrite Hp', Hc'. split; assumption.
Qed.

Lemma token_eat_plain (u : unit_t) (t : token_t) (u' : unit_t) :
  plain_unit u -> token_eat u = Ok (t, u') ->
  plain_unit u' /\ t = unit_current u.
Proof.
  intros Hu H. unfold token_eat in H. bind_inv H. destruct a as [t1 u1].
  injection H as <- <-. destruct (lex_next_post _ _ _ E) as (_ & Hp' & _).
  split; [apply (lex_next_plain _ _ _ Hu E)|exact Hp'].
Qed.

Lemma token_expect_plain (u : unit_t) (kind : Z) (t : token_t) (u' : unit_t) :
  plain_unit u -> token_expect u kind = Ok (t, u') ->
  plain_unit u' /\ text_is_segment t /\ tok_kind t = kind.
Proof.
  intros Hu. unfold token_expect.
  destruct (tok_kind (unit_current u) =? kind) eqn:Hk; [|discriminate].
  intros H. destruct (token_eat_plain _ _ _ Hu H) as [Hu' ->].
  split; [exact Hu'|]. split; [apply Hu|apply Z.eqb_eq; exact Hk].
Qed.

Lemma token_consume_plain (u : unit_t) (kind : Z) (r : option token_t) (u' : unit_t) :
  plain_unit u -> token_consume u kind = Ok (r, u') -> plain_unit u'.
Proof.
  intros Hu. unfold token_consume. destruct (_ =? kind).
  - intros H. bind_inv H. destruct a as [t u1]. injection H as _ <-.
    apply (token_eat_plain _ _ _ Hu E).
  - intros [= _ <-]. exact Hu.
Qed.

Lemma parse_note_plain (fuel : nat) :
  forall (u : unit_t) (notes : list y_note_t) (u' : unit_t),
    plain_unit u -> parse_note fuel u = Ok (notes, u') ->
    plain_unit u' /\ Forall (fun note => is_segment (note_name note)) notes.
Proof.
  induction fuel as [|fuel IH]; intros u notes u' Hu H; simpl in H; [discriminate|].
  bind_inv H. destruct a as [[at_sign|] u1]; apply (token_consume_plain _ _ _ _ Hu) in E.
  - bind_inv H. destruct a as [name u2]. bind_inv H. destruct a as [rest u3].
    injection H as <- <-.
    destruct (token_expect_plain _ _ _ _ E E0) as (Hu2 & Hname & Hk).
    destruct (IH _ _ _ Hu2 E1) as [Hu3 Hrest].
    split; [exact Hu3|]. constructor; [apply Hname, Hk|exact Hrest].
  - injection H as <- <-. split; [exact E|constructor].
Qed.

Lemma parse_value_plain (fuel : nat) :
  (forall u l u', unit_shape u -> plain_unit u -> parse_list fuel u = Ok (l, u') ->
     plain_unit u' /\ Forall identifiers (flat_map subnodes l)) ->
  forall (u : unit_t) (value : y_value_t) (u' : unit_t),
    unit_shape u -> plain_unit u -> parse_value fuel u = Ok (value, u') ->
    plain_unit u' /\
    Forall identifiers
           (match val_un value with U_node l => flat_map subnodes l | _ => [] end).
Proof.
  intros IHlist u value u' Hs Hu H. unfold parse_value in H.
  bind_inv H. destruct a as [open u1].
  pose proof (token_consume_plain _ _ _ _ Hu E) as Hu1.
  destruct (token_consume_post _ _ _ _ Hs E) as [Hs1 _].
  destruct open as [t|].
  - bind_inv H. destruct a as [children u2]. injection H as <- <-.
    apply (IHlist _ _ _ Hs1 Hu1 E0).
  - bind_inv H. destruct a as [temp u2].
    pose proof (token_consume_plain _ _ _ _ Hu1 E0) as Hu2.
    destruct (token_consume_post _ _ _ _ Hs1 E0) as [Hs2 Hnum].
    destruct temp as [t|].
    + injection H as <- <-. split; [exact Hu2|].
      destruct Hnum as (_ & Hk & Hshape).
      destruct (number_token_value _ Hshape Hk) as [Hv Hkind].
      unfold value_shape in Hv.
      destruct (tok_value t) as [k [| | | |]]; simpl in *;
        destruct Hkind as [-> | ->]; try contradiction; constructor.
    + bind_inv H. destruct a as [temp u3].
      pose proof (token_consume_plain _ _ _ _ Hu2 E1) as Hu3.
      destruct (token_consume_post _ _ _ _ Hs2 E1) as [_ Hstr].
      destruct temp as [t|]; injection H as <- <-; (split; [exact Hu3|]).
      * destruct Hstr as (_ & Hk & Hshape).
        destruct (string_token_value _ Hshape Hk) as [str ->]. constructor.
      * constructor.
Qed.

Lemma parse_plain (fuel : nat) :
  (forall u n u', unit_shape u -> plain_unit u -> parse_node fuel u = Ok (n, u') ->
     plain_unit u' /\ Forall identifiers (subnodes n)) /\
  (forall u l u', unit_shape u -> plain_unit u -> parse_list fuel u = Ok (l, u') ->
     plain_unit u' /\ Forall identifiers (flat_map subnodes l)).
Proof.
  induction fuel as [|fuel [IHnode IHlist]]; [split; intros; discriminate|].
  split.
  - intros u n u' Hs Hu H. rewrite parse_node_unfold in H.
    bind_inv H. destruct a as [name u1]. bind_inv H. destruct a as [value u2].
    bind_inv H. destruct a as [note u3]. injection H as <- <-.
    destruct (token_expect_plain _ _ _ _ Hu E) as (Hu1 & Hname & Hk).
    destruct (token_expect_post _ _ _ _ Hs E) as (_ & _ & _ & Hs1).
    destruct (parse_value_plain fuel IHlist _ _ _ Hs1 Hu1 E0) as [Hu2 Hsub].
    destruct (parse_note_plain _ _ _ _ Hu2 E1) as [Hu3 Hnotes].
    split; [exact Hu3|]. cbn [subnodes node_value]. constructor.
    + split; [apply Hname, Hk|exact Hnotes].
    + destruct (val_un value); exact Hsub.
  - intros u l u' Hs Hu H. simpl in H.
    bind_inv H. destruct a as [close u1].
    pose proof (token_consume_plain _ _ _ _ Hu E) as Hu1.
    destruct (token_consume_post _ _ _ _ Hs E) as [Hs1 _].
    destruct close as [t|]; [injection H as <- <-; split; [exact Hu1|constructor]|].
    bind_inv H. destruct a as [temp u2].
    pose proof (token_consume_plain _ _ _ _ Hu1 E0) as Hu2.
    destruct (token_consume_post _ _ _ _ Hs1 E0) as [Hs2 _].
    destruct temp as [t|]; [discriminate|].
    bind_inv H. destruct a as [child u3]. bind_inv H. destruct a as [rest u4].
    injection H as <- <-.
    destruct (IHnode _ _ _ Hs2 Hu2 E1) as [Hu3 Hchild].
    destruct (proj1 (parse_shape fuel) _ _ _ Hs2 E1) as [Hs3 _].
    destruct (IHlist _ _ _ Hs3 Hu3 E2) as [Hu4 Hrest].
    split; [exact Hu4|]. cbn [flat_map]. apply Forall_app. split; assumption.
Qed.

Lemma plain_no_slash (d : list Z) : ~ In ch_slash d -> plain d.
Proof. intros Hd i Hi. exfalso. apply Hd. apply (nth_error_In d i Hi). Qed.

(** X11.  In a unit without comments, where no two slashes stand side by
    side, every name in the tree [y_load] returns, of a node or of a note, is
    a plain identifier: a letter or an underscore, then letters, digits and
    underscores. *)
Theorem names_are_identifiers (y : yctx_t) (file : list Z) (root : y_node_t)
        (y' : yctx_t) (n : y_node_t) :
  plain file -> y_load y file = Ok (root, y') -> In n (subnodes root) ->
  is_segment (node_name n) /\
  (forall note, In note (node_note n) -> is_segment (note_name note)).
Proof.
  intros Hfile Hload Hin. unfold y_load in Hload.
  bind_inv Hload. destruct a as [t u1]. bind_inv Hload. destruct a as [head u2].
  injection Hload as <- _.
  assert (Hu : plain_unit (unit_of_file file))
    by (split; [exact Hfile|split; intros Hk; discriminate]).
  pose proof (lex_next_plain _ _ _ Hu E) as Hu1.
  pose proof (lex_next_shape _ _ _ (unit_shape_fresh _ _ _) E) as Hs1.
  unfold parse_unit in E0. bind_inv E0. destruct a as [node u3].
  bind_inv E0. destruct a as [t2 u4]. injection E0 as <- _.
  destruct (proj1 (parse_plain _) _ _ _ Hs1 Hu1 E1) as [_ Hall].
  rewrite Forall_forall in Hall. destruct (Hall n Hin) as [Hname Hnotes].
  split; [exact Hname|]. rewrite Forall_forall in Hnotes. exact Hnotes.
Qed.

Lemma names_are_identifiers_witness :
  is_segment (bytes "key_1") /\
  (forall note, In note [mk_note (bytes "a")] -> is_segment (note_name note)).
Proof.
  refine (names_are_identifiers y_create (bytes "name { key_1 @a }")
            (mk_node (bytes "name") []
               (mk_value Y_NODE
                  (U_node [mk_node (bytes "key_1") [mk_note (bytes "a")] value_zero])))
            _ (mk_node (bytes "key_1") [mk_note (bytes "a")] value_zero) _ _ _).
  - apply plain_no_slash. vm_compute. intuition discriminate.
  - vm_compute. reflexivity.
  - vm_compute. right. left. reflexivity.
Defined.

(** * What the parser keeps *)

(** The parser touches a unit through [lex_next] only: what [lex_next] keeps,
    all of it keeps. *)
Section Kept.

Variable I : unit_t -> Prop.
Hypothesis lex_next_keeps :
  forall u t u', I u -> lex_next u = Ok (t, u') -> I u'.

Lemma token_eat_keeps (u : unit_t) (t : token_t) (u' : unit_t) :
  I u -> token_eat u = Ok (t, u') -> I u'.
Proof.
  intros Hu H. unfold token_eat in H. bind_inv H. destruct a as [t1 u1].
  injection H as _ <-. apply (lex_next_keeps _ _ _ Hu E).
Qed.

Lemma token_expect_keeps (u : unit_t) (kind : Z) (t : token_t) (u' : unit_t) :
  I u -> token_expect u kind = Ok (t, u') -> I u'.
Proof.
  intros Hu. unfold token_expect.
  destruct (_ =? kind); [apply token_eat_keeps, Hu|discriminate].
Qed.

Lemma token_consume_keeps (u : unit_t) (kind : Z) (r : option token_t) (u' : unit_t) :
  I u -> token_consume u kind = Ok (r, u') -> I u'.
Proof.
  intros Hu. unfold token_consume. destruct (_ =? kind).
  - intros H. bind_inv H. destruct a as [t u1]. injection H as _ <-.
    apply (token_eat_keeps _ _ _ Hu E).
  - intros [= _ <-]. exact Hu.
Qed.

Lemma parse_note_keeps (fuel : nat) :
  forall (u : unit_t) (notes : list y_note_t) (u' : unit_t),
    I u -> parse_note fuel u = Ok (notes, u') -> I u'.
Proof.
  induction fuel as [|fuel IH]; intros u notes u' Hu H; simpl in H; [discriminate|].
  bind_inv H. destruct a as [[at_sign|] u1]; apply (token_consume_keeps _ _ _ _ Hu) in E.
  - bind_inv H. destruct a as [name u2]. bind_inv H. destruct a as [rest u3].
    injection H as _ <-. apply (token_expect_keeps _ _ _ _ E) in E0.
    apply (IH _ _ _ E0 E1).
  - injection H as _ <-. exact E.
Qed.

Lemma parse_value_keeps (fuel : nat) :
  (forall u l u', I u -> parse_list fuel u = Ok (l, u') -> I u') ->
  forall (u : unit_t) (value : y_value_t) (u' : unit_t),
    I u -> parse_value fuel u = Ok (value, u') -> I u'.
Proof.
  intros IHlist u value u' Hu H. unfold parse_value in H.
  bind_inv H. destruct a as [open u1]. apply (token_consume_keeps _ _ _ _ Hu) in E.
  destruct open as [t|].
  - bind_inv H. destruct a as [children u2]. injection H as _ <-.
    apply (IHlist _ _ _ E E0).
  - bind_inv H. destruct a as [temp u2]. apply (token_consume_keeps _ _ _ _ E) in E0.
    destruct temp as [t|]; [injection H as _ <-; exact E0|].
    bind_inv H. destruct a as [temp u3]. apply (token_consume_keeps _ _ _ _ E0) in E1.
    destruct temp; injection H as _ <-; exact E1.
Qed.

Lemma parse_keeps (fuel : nat) :
  (forall u n u', I u -> parse_node fuel u = Ok (n, u') -> I u') /\
  (forall u l u', I u -> parse_list fuel u = Ok (l, u') -> I u').
Proof.
  induction fuel as [|fuel [IHnode IHlist]]; [split; intros; discriminate|].
  split.
  - intros u n u' Hu H. rewrite parse_node_unfold in H.
    bind_inv H. destruct a as [name u1]. bind_inv H. destruct a as [value u2].
    bind_inv H. destruct a as [note u3]. injection H as _ <-.
    apply (token_expect_keeps _ _ _ _ Hu) in E.
    apply (parse_value_keeps fuel IHlist _ _ _ E) in E0.
    apply (parse_note_keeps _ _ _ _ E0 E1).
  - intros u l u' Hu H. simpl in H.
    bind_inv H. destruct a as [close u1]. apply (token_consume_keeps _ _ _ _ Hu) in E.
    destruct close as [t|]; [injection H as _ <-; exact E|].
    bind_inv H. destruct a as [temp u2]. apply (token_consume_keeps _ _ _ _ E) in E0.
    destruct temp as [t|]; [discriminate|].
    bind_inv H. destruct a as [child u3]. bind_inv H. destruct a as [rest u4].
    injection H as _ <-. apply (IHnode _ _ _ E0) in E1. apply (IHlist _ _ _ E1 E2).
Qed.

End Kept.

(** * The end of a unit *)

Lemma commented_nonzero (d d' : list Z) : commented d d' -> ~ In 0 d -> ~ In 0 d'.
Proof.
  intros [_ Hn] Hd Hin. apply In_nth_error in Hin. destruct Hin as [i Hi].
  destruct (Hn i) as [Hsame|(_ & _ & Hone)].
  - apply Hd. apply (nth_error_In d i). congruence.
  - rewrite Hi in Hone. discriminate.
Qed.

Lemma lex_token_none (u : unit_t) (t : token_t) (u' : unit_t) :
  ~ In 0 (unit_data u) -> unit_length u = buffer_size u ->
  lex_token u = Ok (t, u') -> tok_kind t = TOKEN_NONE ->
  buffer_size u' < unit_cursor u'.
Proof.
  intros Hnz Hlen H. pose proof (lex_token_commented _ _ _ H) as Hd. revert H.
  unfold lex_token.
  destruct (unit_cursor u >? unit_length u) eqn:Hgt.
  { intros [= _ <-] _. rewrite Z.gtb_ltb in Hgt. apply Z.ltb_lt in Hgt. lia. }
  intros H. bind_inv H. destruct a as [ch u1]. bind_inv H. rename a into c.
  pose proof (commented_nonzero _ _ (next_from_commented _ _ _ _ E) Hnz) as Hnz1.
  apply next_from_post in E. destruct E as (Hge & Hcur & _).
  destruct (c =? 0) eqn:Hc0.
  { injection H as _ <-. intros _. apply Z.eqb_eq in Hc0. subst c.
    revert E0. unfold deref. destruct (ch <? 0); [discriminate|].
    destruct (nth_error (unit_data u1) (Z.to_nat ch)) as [x|] eqn:Hx.
    - intros [= ->]. exfalso. apply Hnz1. apply (nth_error_In _ _ Hx).
    - destruct (ch =? buffer_size u1) eqn:Heq; [|discriminate].
      apply Z.eqb_eq in Heq. lia. }
  destruct ((c =? ch_open) || (c =? ch_close) || (c =? ch_at)) eqn:Hstruct.
  { injection H as <- _. cbn [tok_kind token_new]. intros ->. discriminate. }
  destruct (c =? ch_quote).
  { unfold token_string in H. bind_inv H. destruct a as [ch2 u2].
    injection H as <- _. intros Hk. discriminate. }
  destruct (isalpha c || (c =? ch_underscore)).
  { unfold token_text in H. bind_inv H. injection H as <- _. intros Hk. discriminate. }
  destruct (isdigit c); [|discriminate].
  unfold token_number in H. bind_inv H. destruct a as [number u2].
  destruct number; try destruct (strtoull _); injection H as <- _; intros Hk;
    discriminate.
Qed.

Lemma lex_next_ended (u : unit_t) (t : token_t) (u' : unit_t) :
  ~ In 0 (unit_data u) -> unit_length u = buffer_size u ->
  lex_next u = Ok (t, u') -> ended u'.
Proof.
  intros Hnz Hlen H. unfold lex_next in H. bind_inv H. destruct a as [t1 u1].
  injection H as <- <-.
  pose proof (lex_token_commented _ _ _ E) as Hd.
  pose proof (lex_token_cursor _ _ _ E) as (Hs & Hl & _).
  split; [apply (commented_nonzero _ _ Hd Hnz)|]. split.
  - change (unit_length u1 = buffer_size u1). rewrite Hl, Hs. exact Hlen.
  - cbn [unit_current set_tokens unit_cursor]. intros Hk.
    change (buffer_size u1 < unit_cursor u1).
    apply (lex_token_none (set_tokens u _ _) _ _ Hnz Hlen E Hk).
Qed.

Lemma lex_next_keeps_ended (u : unit_t) (t : token_t) (u' : unit_t) :
  ended u -> lex_next u = Ok (t, u') -> ended u'.
Proof. intros (Hnz & Hlen & _). apply lex_next_ended; assumption. Qed.

(** X12.  A load that succeeds has read its unit to the end: [parse_unit]
    asks for a NONE token behind the root node, so in a file without zero
    bytes nothing but blanks and comments follows the root.  The unit pushed
    to [units] has its cursor past the terminator and a NONE token both
    behind and ahead. *)
Theorem y_load_reads_to_the_end (y : yctx_t) (file : list Z) (root : y_node_t)
        (y' : yctx_t) :
  ~ In 0 file -> y_load y file = Ok (root, y') ->
  exists unit,
    ctx_units y' = ctx_units y ++ [unit] /\
    buffer_size unit < unit_cursor unit /\
    tok_kind (unit_previous unit) = TOKEN_NONE /\
    tok_kind (unit_current unit) = TOKEN_NONE.
Proof.
  intros Hnz Hload. unfold y_load in Hload.
  bind_inv Hload. destruct a as [t u1]. bind_inv Hload. destruct a as [head u2].
  injection Hload as _ <-. exists u2. split; [apply link_head_units|].
  pose proof (lex_next_ended (unit_of_file file) _ _ Hnz eq_refl E) as Hu1.
  unfold parse_unit in E0. bind_inv E0. destruct a as [node u3].
  bind_inv E0. destruct a as [t2 u4]. injection E0 as _ <-.
  pose proof (proj1 (parse_keeps ended lex_next_keeps_ended _) _ _ _ Hu1 E1)
    as (Hnz3 & Hlen3 & Hend3).
  unfold token_expect in E2.
  destruct (tok_kind (unit_current u3) =? TOKEN_NONE) eqn:Hk; [|discriminate].
  apply Z.eqb_eq in Hk. specialize (Hend3 Hk).
  unfold token_eat in E2. bind_inv E2. destruct a as [t3 u5]. injection E2 as _ <-.
  destruct (lex_next_post _ _ _ E0) as (_ & Hprev & Hcur).
  unfold lex_next in E0. bind_inv E0. destruct a as [t4 u6]. injection E0 as <- <-.
  unfold lex_token in E2.
  cbn [unit_cursor unit_length set_tokens] in E2.
  replace (unit_cursor u3 >? unit_length u3) with true in E2
    by (symmetry; rewrite Z.gtb_ltb; apply Z.ltb_lt; lia).
  injection E2 as <- <-.
  split; [exact Hend3|]. split; [exact Hk|reflexivity].
Qed.

Lemma y_load_reads_to_the_end_witness :
  exists unit,
    ctx_units (returned y_create (load_one (bytes "name { key 1 }   "))) = [] ++ [unit] /\
    buffer_size unit < unit_cursor unit /\
    tok_kind (unit_previous unit) = TOKEN_NONE /\
    tok_kind (unit_current unit) = TOKEN_NONE.
Proof.
  refine (y_load_reads_to_the_end y_create (bytes "name { key 1 }   ") _ _ _ _).
  - vm_compute. intuition discriminate.
  - vm_compute. reflexivity.
Defined.

(** * Lines *)








Lemma reports_bind {A B : Type} (F : source_t -> Prop) (Q : A -> Prop) (R : B -> Prop)
      (r : result A) (k : A -> result B) :
  reports F Q r -> (forall a, Q a -> reports F R (k a)) -> reports F R (bind r k).
Proof. destruct r as [a| |]; simpl; auto. Qed.

Lemma reports_of {A : Type} (F : source_t -> Prop) (Q : A -> Prop) (r : result A) :
  (forall a, r = Ok a -> Q a) -> (forall s m, r = Fatal s m -> F s) -> reports F Q r.
Proof. destruct r as [a|s m|]; simpl; eauto. Qed.


Section Located.

Variable file : list Z.

Lemma tracks_set_cursor (u : unit_t) (c at_offset : Z) :
  tracks file u at_offset -> tracks file (set_cursor u c) at_offset.
Proof. intros H. exact H. Qed.





Lemma tracks_same_line (u u' : unit_t) (at_offset : Z) :
  tracks file u at_offset -> commented file (unit_data u') ->
  unit_length u' = buffer_size u' ->
  unit_line u' = unit_line u -> unit_start u' = unit_start u ->
  tracks file u' at_offset.
Proof.
  intros (_ & _ & start & Hs & Hp) Hd Hl Hline Hstart.
  split; [exact Hd|]. split; [exact Hl|]. exists start. rewrite Hline, Hstart. auto.
Qed.

Variable F : source_t -> Prop.

Lemma deref_reports (u : unit_t) (i : Z) :
  reports F (fun c => deref u i = Ok c) (deref u i).
Proof.
  apply reports_of; [auto|]. intros s m H.
  exfalso. apply (fails_only_deref (fun _ => False) u i s m H).
Qed.



End Located.

Section Spans.

Variable file : list Z.














End Spans.



(** * The message of a fatal error *)

Lemma skipn_nth_error (d : list Z) (n : nat) (c : Z) :
  nth_error d n = Some c -> skipn n d = c :: skipn (S n) d.
Proof.
  revert d. induction n as [|n IH]; intros [|h t] H; try discriminate.
  - injection H as ->. reflexivity.
  - apply (IH t H).
Qed.

Lemma msg_line_from_render (col : list Z) (b e : ptr) (fuel : nat) :
  forall (u : unit_t) (ch : Z),
    0 <= ch <= buffer_size u -> (Z.to_nat (buffer_size u - ch) < fuel)%nat ->
    msg_line_from fuel u ch col b e
    = Some (render (line_from (skipn (Z.to_nat ch) (unit_data u))) ch col b e).
Proof.
  induction fuel as [|fuel IH]; intros u ch Hch Hfuel; [lia|].
  cbn [msg_line_from]. unfold deref.
  replace (ch <? 0) with false by (symmetry; apply Z.ltb_ge; lia).
  destruct (nth_error (unit_data u) (Z.to_nat ch)) as [c|] eqn:Hc.
  - rewrite (skipn_nth_error _ _ _ Hc). cbn [line_from].
    assert (Hlt : (Z.to_nat ch < List.length (unit_data u))%nat)
      by (apply nth_error_Some; congruence).
    destruct (c =? 0); [reflexivity|].
    destruct (c =? ch_newline); [reflexivity|]. cbn [orb render].
    rewrite IH by (unfold buffer_size in *; lia).
    replace (Z.to_nat (ch + 1)) with (S (Z.to_nat ch)) by lia. reflexivity.
  - apply nth_error_None in Hc.
    replace (ch =? buffer_size u) with true
      by (symmetry; apply Z.eqb_eq; unfold buffer_size in *; lia).
    rewrite skipn_all2 by exact Hc. reflexivity.
Qed.

Lemma line_from_run (d : list Z) (n : nat) :
  forall from : Z,
    0 <= from ->
    (forall i, from <= i < from + Z.of_nat n ->
       exists x, nth_error d (Z.to_nat i) = Some x /\ x <> 0 /\ x <> ch_newline) ->
    line_from (skipn (Z.to_nat from) d)
    = slice d from (from + Z.of_nat n)
        ++ line_from (skipn (Z.to_nat (from + Z.of_nat n)) d).
Proof.
  induction n as [|n IH]; intros from Hfrom Hrun.
  - rewrite Z.add_0_r. unfold slice. rewrite Z.sub_diag. reflexivity.
  - destruct (Hrun from ltac:(lia)) as (x & Hx & Hz & Hnl).
    rewrite (skipn_nth_error _ _ _ Hx). cbn [line_from].
    apply Z.eqb_neq in Hz, Hnl. rewrite Hz, Hnl. cbn [orb].
    rewrite (slice_first d from (from + Z.of_nat (S n)) x) by (try lia; exact Hx).
    replace (S (Z.to_nat from)) with (Z.to_nat (from + 1)) by lia.
    rewrite (IH (from + 1)) by (try lia; intros i Hi; apply Hrun; lia).
    replace (from + 1 + Z.of_nat n) with (from + Z.of_nat (S n)) by lia.
    reflexivity.
Qed.

Lemma render_app (col : list Z) (b e : ptr) (l1 l2 : list Z) :
  forall ch : Z,
    render (l1 ++ l2) ch col b e
    = render l1 ch col b e ++ render l2 (ch + Z.of_nat (List.length l1)) col b e.
Proof.
  induction l1 as [|c l1 IH]; intros ch.
  - cbn [app render List.length]. rewrite Z.add_0_r. reflexivity.
  - cbn [app render List.length]. rewrite IH.
    replace (ch + 1 + Z.of_nat (List.length l1))
      with (ch + Z.of_nat (S (List.length l1))) by lia.
    rewrite <- !app_assoc. cbn [app]. rewrite <- !app_assoc. reflexivity.
Qed.

Lemma render_plain (col : list Z) (b e : Z) (l : list Z) :
  forall ch : Z,
    (b < ch \/ ch + Z.of_nat (List.length l) <= b) ->
    (e <= ch \/ ch + Z.of_nat (List.length l) < e) ->
    render l ch col (Some b) (Some e) = l.
Proof.
  induction l as [|c l IH]; intros ch Hb He; [reflexivity|].
  cbn [render ptr_eqb]. cbn [List.length] in Hb, He.
  replace (ch =? b) with false by (symmetry; apply Z.eqb_neq; lia).
  replace (ch + 1 =? e) with false by (symmetry; apply Z.eqb_neq; lia).
  cbn [app]. rewrite IH by lia. reflexivity.
Qed.

Lemma slice_length (d : list Z) (b e : Z) :
  0 <= b <= e -> e <= Z.of_nat (List.length d) ->
  Z.of_nat (List.length (slice d b e)) = e - b.
Proof.
  intros Hbe He. unfold slice. rewrite length_firstn, length_skipn. lia.
Qed.

Lemma render_span (col : list Z) (b e : Z) (span : list Z) :
  span <> [] -> e = b + Z.of_nat (List.length span) ->
  render span b col (Some b) (Some e) = col ++ span ++ C_RESET.
Proof.
  intros Hne He. destruct (exists_last Hne) as (init & x & ->).
  rewrite length_app in He. cbn [List.length] in He.
  rewrite render_app. cbn [render ptr_eqb].
  replace (b + Z.of_nat (List.length init) + 1 =? e) with true
    by (symmetry; apply Z.eqb_eq; lia).
  destruct init as [|c init].
  - cbn [List.length render app]. rewrite Z.add_0_r, Z.eqb_refl, app_nil_r.
    reflexivity.
  - cbn [render ptr_eqb List.length]. rewrite Z.eqb_refl.
    replace (b + 1 =? e) with false by (symmetry; apply Z.eqb_neq; cbn in He; lia).
    replace (b + Z.of_nat (S (List.length init)) =? b) with false
      by (symmetry; apply Z.eqb_neq; lia).
    rewrite (render_plain col b e init (b + 1)) by (cbn in He; lia).
    cbn [app]. rewrite app_nil_r, <- !app_assoc. reflexivity.
Qed.

Lemma digits_from_length (n : Z) :
  0 <= n < 10000 -> (List.length (digits_from 10 n []) <= 4)%nat.
Proof.
  intros Hn. cbn [digits_from].
  assert (H1 : 0 <= n / 10 < 1000)
    by (split; [apply Z.div_pos; lia|apply Z.div_lt_upper_bound; lia]).
  assert (H2 : 0 <= n / 10 / 10 < 100)
    by (split; [apply Z.div_pos; lia|apply Z.div_lt_upper_bound; lia]).
  assert (H3 : 0 <= n / 10 / 10 / 10 < 10)
    by (split; [apply Z.div_pos; lia|apply Z.div_lt_upper_bound; lia]).
  assert (H4 : n / 10 / 10 / 10 / 10 = 0) by (apply Z.div_small; lia).
  destruct (n / 10 =? 0); [cbn; lia|].
  destruct (n / 10 / 10 =? 0); [cbn; lia|].
  destruct (n / 10 / 10 / 10 =? 0); [cbn; lia|].
  rewrite H4. cbn. lia.
Qed.

Lemma pad_length (width : nat) (s : list Z) :
  (List.length s <= width)%nat -> List.length (pad width s) = width.
Proof. intros H. unfold pad. rewrite length_app, repeat_length. lia. Qed.

(** X14.  For a span of one or more bytes that lies on one line behind
    [start], on a line numbered below 10000, [fatal_at] prints to [stderr]
    the header with line and column, then the line of the source with the
    span between the colour and its reset behind a margin of seven bytes,
    then under it a margin of seven bytes, one blank for each byte between
    [start] and [begin], one caret for each byte of the span, a blank and
    the message: the carets stand under the span.  Nothing goes to
    [stdout]. *)
Theorem fatal_at_underlines_the_span (u : unit_t) (s : source_t) (start b e : Z)
        (text : list Z) (o : output) :
  src_start s = Some start -> src_begin s = Some b -> src_end s = Some e ->
  0 <= start <= b -> b < e ->
  (forall i, start <= i < e ->
     exists x, nth_error (unit_data u) (Z.to_nat i) = Some x /\
               x <> 0 /\ x <> ch_newline) ->
  0 <= src_line s < 10000 -> buffer_size u < 2 ^ 31 ->
  exists number,
    List.length number = 4%nat /\
    fatal_at u s text o
    = Some (mk_output (to_stdout o)
              (to_stderr o
               ++ (bytes "liby " ++ C_FATAL ++ bytes "fatal" ++ C_RESET ++ bytes " "
                     ++ print_d (src_line s) ++ bytes ":" ++ print_d (b - start)
                     ++ bytes ":" ++ [ch_newline])
               ++ (number ++ bytes " | "
                     ++ slice (unit_data u) start b
                     ++ C_FATAL ++ slice (unit_data u) b e ++ C_RESET
                     ++ line_from (skipn (Z.to_nat e) (unit_data u))
                     ++ [ch_newline] ++ C_RESET)
               ++ (repeat ch_space 4 ++ bytes " | "
                     ++ repeat ch_space (Z.to_nat (b - start))
                     ++ carets (Z.to_nat (e - b)) ++ [ch_space]
                     ++ text ++ [ch_newline]))).
Proof.
  intros Hs Hb He Hsb Hbe Hrun Hline Hsize.
  assert (Hin : e <= buffer_size u).
  { destruct (Hrun (e - 1) ltac:(lia)) as (x & Hx & _).
    assert (Hlt : (Z.to_nat (e - 1) < List.length (unit_data u))%nat)
      by (apply nth_error_Some; congruence).
    unfold buffer_size. lia. }
  exists (pad 4 (print_d (src_line s))). split.
  { apply pad_length. unfold print_d.
    replace (src_line s <? 0) with false by (symmetry; apply Z.ltb_ge; lia).
    apply digits_from_length. lia. }
  unfold fatal_at, msg. rewrite Hs, Hb, He. cbn [ptr_diff]. cbv zeta.
  replace (src_line s <? 0) with false by (symmetry; apply Z.ltb_ge; lia).
  replace (2 ^ 31 <=? src_line s) with false by (symmetry; apply Z.leb_gt; lia).
  rewrite (Z.mod_small (b - start)) by lia.
  replace (2 ^ 31 <=? b - start) with false by (symmetry; apply Z.leb_gt; lia).
  cbn [orb]. unfold msg_line.
  rewrite (msg_line_from_render C_FATAL (Some b) (Some e) (scan_fuel u) u start)
    by (unfold scan_fuel, buffer_size in *; lia).
  assert (Hlinefrom : line_from (skipn (Z.to_nat start) (unit_data u))
                      = slice (unit_data u) start b
                          ++ slice (unit_data u) b e
                          ++ line_from (skipn (Z.to_nat e) (unit_data u))).
  { replace b with (start + Z.of_nat (Z.to_nat (b - start))) at 1 2 by lia.
    rewrite (line_from_run _ (Z.to_nat (b - start)) start)
      by (try lia; intros i Hi; apply Hrun; lia).
    replace (start + Z.of_nat (Z.to_nat (b - start))) with b by lia.
    f_equal.
    replace e with (b + Z.of_nat (Z.to_nat (e - b))) at 1 2 by lia.
    apply line_from_run; [lia|]. intros i Hi. apply Hrun. lia. }
  rewrite Hlinefrom, !render_app.
  rewrite !slice_length by (unfold buffer_size in *; lia).
  rewrite (render_plain C_FATAL b e (slice (unit_data u) start b) start)
    by (rewrite slice_length by (unfold buffer_size in *; lia); lia).
  replace (start + (b - start)) with b by lia.
  rewrite (render_span C_FATAL b e (slice (unit_data u) b e)).
  2:{ intros Hnil. pose proof (slice_length (unit_data u) b e) as Hl.
      rewrite Hnil in Hl. cbn in Hl. unfold buffer_size in *. lia. }
  2:{ rewrite slice_length by (unfold buffer_size in *; lia). lia. }
  replace (b + (e - b)) with e by lia.
  rewrite (render_plain C_FATAL b e _ e) by lia.
  unfold msg_underline.
  replace (e - b <? 0) with false by (symmetry; apply Z.ltb_ge; lia).
  unfold write_stderr, pad. cbn [to_stdout to_stderr List.length Nat.sub].
  rewrite !app_nil_r, Nat.sub_0_r. f_equal. f_equal.
  rewrite <- !app_assoc. reflexivity.
Qed.

Lemma fatal_at_underlines_the_span_witness :
  exists printed,
    fatal_at (unit_of_file (bytes "a $ b")) (mk_source 0 (Some 0) (Some 2) (Some 3))
             (bytes "Unknown character") (mk_output [] [])
    = Some printed.
Proof.
  destruct (fatal_at_underlines_the_span
              (unit_of_file (bytes "a $ b")) (mk_source 0 (Some 0) (Some 2) (Some 3))
              0 2 3 (bytes "Unknown character") (mk_output [] []))
    as (number & _ & H); try reflexivity; try (cbn; lia).
  - intros i Hi. assert (Hcase : i = 0 \/ i = 1 \/ i = 2) by lia.
    destruct Hcase as [-> | [-> | ->]]; eexists;
      (split; [reflexivity|split; discriminate]).
  - eexists. exact H.
Defined.

(** * Errors in a path *)

Lemma commented_no_newlines (d d' : list Z) :
  commented d d' -> ~ In ch_newline d -> ~ In ch_newline d'.
Proof.
  intros [_ Hn] Hd Hin. apply In_nth_error in Hin. destruct Hin as [i Hi].
  destruct (Hn i) as [Hsame|(_ & _ & Hone)].
  - apply Hd. apply (nth_error_In d i). congruence.
  - rewrite Hi in Hone. discriminate.
Qed.

Lemma raw_startless (u : unit_t) :
  startless u -> reports no_start (fun r => startless (snd r)) (raw u).
Proof.
  intros [Hs Hd]. apply reports_of.
  - intros [ch u'] H. pose proof (raw_post _ _ _ H) as (_ & _ & _ & Hstart & _).
    split; [cbn [snd]; congruence|].
    apply (commented_no_newlines _ _ (raw_commented _ _ _ H) Hd).
  - intros s m H. exfalso. apply (fails_only_raw (fun _ => False) u s m H).
Qed.

Lemma next_from_startless (fuel : nat) :
  forall u : unit_t,
    startless u -> reports no_start (fun r => startless (snd r)) (next_from fuel u).
Proof.
  induction fuel as [|fuel IH]; intros u Hu; cbn [next_from]; [exact I|].
  apply (reports_bind no_start _ _ _ _ (raw_startless u Hu)).
  intros [ch u1] Hu1. cbn [snd] in Hu1.
  apply (reports_bind no_start _ _ _ _ (deref_reports no_start u1 ch)). intros c E.
  destruct (c =? ch_newline) eqn:Hnl.
  - exfalso. apply Z.eqb_eq in Hnl. subst c.
    destruct (deref_nonzero _ _ _ E) as [Hat _]; [discriminate|].
    destruct Hu1 as [_ Hd]. apply Hd. apply (nth_error_In _ _ Hat).
  - destruct ((c =? ch_tab) || (c =? ch_space)); [apply IH; exact Hu1|exact Hu1].
Qed.

Lemma token_text_scan_startless (fuel : nat) :
  forall (u : unit_t) (ch : Z),
    startless u -> reports no_start startless (token_text_scan fuel u ch).
Proof.
  induction fuel as [|fuel IH]; intros u ch Hu; cbn [token_text_scan]; [exact I|].
  apply (reports_bind no_start _ _ _ _ (deref_reports no_start u ch)). intros c E.
  destruct (is_text_char c); [|exact Hu].
  apply (reports_bind no_start _ _ _ _ (raw_startless u Hu)).
  intros [ch1 u1] Hu1. apply IH. exact Hu1.
Qed.

Lemma token_number_scan_startless (fuel : nat) :
  forall (u : unit_t) (ch : Z) (number : y_kind),
    startless u ->
    reports no_start (fun r => startless (snd r)) (token_number_scan fuel u ch number).
Proof.
  induction fuel as [|fuel IH]; intros u ch number Hu; cbn [token_number_scan];
    [exact I|].
  apply (reports_bind no_start _ _ _ _ (deref_reports no_start u ch)). intros c E.
  destruct (is_number_char c); [|exact Hu].
  apply (reports_bind no_start _ _ _ _ (raw_startless u Hu)).
  intros [ch1 u1] Hu1. cbn [snd] in Hu1.
  apply (reports_bind no_start _ _ _ _ (deref_reports no_start u1 ch1)). intros c1 E1.
  destruct (c1 =? ch_dot); [|apply IH; exact Hu1].
  destruct (y_kind_eqb number Y_DECIMAL); [apply Hu1|apply IH; exact Hu1].
Qed.

Lemma token_string_scan_startless (fuel : nat) :
  forall u : unit_t,
    startless u -> reports no_start (fun r => startless (snd r)) (token_string_scan fuel u).
Proof.
  induction fuel as [|fuel IH]; intros u Hu; cbn [token_string_scan]; [exact I|].
  apply (reports_bind no_start _ _ _ _ (raw_startless u Hu)).
  intros [ch u1] Hu1. cbn [snd] in Hu1.
  apply (reports_bind no_start _ _ _ _ (deref_reports no_start u1 ch)). intros c E.
  destruct (c =? ch_quote); [exact Hu1|].
  destruct (c =? ch_newline); [apply Hu1|apply IH; exact Hu1].
Qed.

Lemma lex_token_startless (u : unit_t) :
  startless u -> reports no_start (fun r => startless (snd r)) (lex_token u).
Proof.
  intros Hu. unfold lex_token.
  destruct (unit_cursor u >? unit_length u); [exact Hu|].
  apply (reports_bind no_start _ _ _ _ (next_from_startless _ u Hu)).
  intros [ch u1] Hu1. cbn [snd] in Hu1.
  apply (reports_bind no_start _ _ _ _ (deref_reports no_start u1 ch)). intros c E.
  destruct (c =? 0); [exact Hu1|].
  destruct ((c =? ch_open) || (c =? ch_close) || (c =? ch_at)); [exact Hu1|].
  destruct (c =? ch_quote).
  { unfold token_string.
    apply (reports_bind no_start _ _ _ _ (token_string_scan_startless _ u1 Hu1)).
    intros [ch2 u2] Hu2. exact Hu2. }
  destruct (isalpha c || (c =? ch_underscore)).
  { unfold token_text.
    apply (reports_bind no_start _ _ _ _ (token_text_scan_startless _ u1 ch Hu1)).
    intros u2 Hu2. exact Hu2. }
  destruct (isdigit c); [|apply Hu1].
  unfold token_number.
  apply (reports_bind no_start _ _ _ _ (token_number_scan_startless _ u1 ch Y_INTEGER Hu1)).
  intros [number u2] Hu2. cbn [snd] in Hu2. cbv zeta.
  destruct number; try destruct (strtoull _); exact Hu2.
Qed.

Lemma lex_next_startless (u : unit_t) :
  startless u -> reports no_start (fun r => startless (snd r)) (lex_next u).
Proof.
  intros Hu. unfold lex_next. cbv zeta.
  apply (reports_bind no_start _ _ _ _
           (lex_token_startless (set_tokens u (unit_current u) (unit_current u)) Hu)).
  intros [t u1] Hu1. exact Hu1.
Qed.

Lemma token_consume_startless (u : unit_t) (kind : Z) :
  startless u -> reports no_start (fun r => startless (snd r)) (token_consume u kind).
Proof.
  intros Hu. unfold token_consume. destruct (_ =? kind); [|exact Hu].
  apply (reports_bind no_start (fun r => startless (snd r))).
  - unfold token_eat. apply (reports_bind no_start _ _ _ _ (lex_next_startless u Hu)).
    intros [t u1] Hu1. exact Hu1.
  - intros [t u1] Hu1. exact Hu1.
Qed.

Lemma y_find_loop_startless (fuel : nat) :
  forall (u : unit_t) (current : node_ptr),
    startless u -> reports no_start (fun _ => True) (y_find_loop fuel u current).
Proof.
  induction fuel as [|fuel IH]; intros u current Hu; cbn [y_find_loop]; [exact I|].
  apply (reports_bind no_start _ _ _ _ (token_consume_startless u TOKEN_TEXT Hu)).
  intros [[temp|] u1] Hu1; cbn [snd] in Hu1; [|exact I].
  destruct current as [chain| |]; [|exact I..].
  destruct (y_find_scan _ chain); [|exact I].
  destruct (_ =? TOKEN_NONE); [exact I|apply IH; exact Hu1].
Qed.

(** X15.  A lexical error in a path of one line reaches [fatal_at] with a
    null [start]: [y_find] never sets the [start] of its unit and only a
    newline would.  There [fatal_at] takes the difference of [begin] and a
    null pointer for the column it prints, which C leaves undefined, and
    [msg_line] has no line to show but [Invalid line.] on [stdout]. *)
Theorem y_find_errors_have_no_line (y : yctx_t) (path : list Z) (s : source_t)
        (m : fatal_msg) :
  ~ In ch_newline path -> y_find y path = Fatal s m ->
  src_start s = None /\
  (forall u text o, fatal_at u s text o = None) /\
  (forall u col b e o,
     msg_line u (src_start s) col b e o
     = Some (mk_output (to_stdout o ++ bytes "Invalid line." ++ [ch_newline])
                       (to_stderr o))).
Proof.
  intros Hpath H.
  assert (Hs : src_start s = None).
  { unfold y_find, y_find_run in H.
    assert (Hu : startless (unit_of_path path)) by (split; [reflexivity|exact Hpath]).
    pose proof (lex_next_startless _ Hu) as R.
    destruct (lex_next (unit_of_path path)) as [[t u1]|s1 m1|ub] eqn:E;
      cbn [bind reports snd] in *; [|injection H as <- _; exact R|discriminate].
    pose proof (y_find_loop_startless (scan_fuel u1) u1 (heads_node y) R) as R2.
    destruct (y_find_loop (scan_fuel u1) u1 _) as [[found u2]|s2 m2|ub] eqn:E2;
      cbn [bind reports] in *; [discriminate|injection H as <- _; exact R2|discriminate]. }
  split; [exact Hs|]. split.
  - intros u text o. unfold fatal_at. rewrite Hs. destruct (src_begin s); reflexivity.
  - intros u col b e o. rewrite Hs. reflexivity.
Qed.

Lemma y_find_errors_have_no_line_witness :
  src_start (mk_source 0 None (Some 1) (Some 2)) = None /\
  (forall u text o, fatal_at u (mk_source 0 None (Some 1) (Some 2)) text o = None) /\
  (forall u col b e o,
     msg_line u (src_start (mk_source 0 None (Some 1) (Some 2))) col b e o
     = Some (mk_output (to_stdout o ++ bytes "Invalid line." ++ [ch_newline])
                       (to_stderr o))).
Proof.
  refine (y_find_errors_have_no_line y_create (bytes "a.b")
            (mk_source 0 None (Some 1) (Some 2)) (Unknown_character 46) _ _).
  - vm_compute. intuition discriminate.
  - vm_compute. reflexivity.
Defined.

(** * The size of a tree *)

Lemma parse_value_count (fuel : nat) :
  (forall u l u', unit_shape u -> cursor_inside u -> parse_list fuel u = Ok (l, u') ->
     Z.of_nat (List.length (flat_map subnodes l)) <= ahead u - ahead u') ->
  forall (u : unit_t) (value : y_value_t) (u' : unit_t),
    unit_shape u -> cursor_inside u -> parse_value fuel u = Ok (value, u') ->
    Z.of_nat (List.length (match val_un value with
                           | U_node l => flat_map subnodes l
                           | _ => []
                           end)) <= ahead u - ahead u'.
Proof.
  intros IHlist u value u' Hs Hin H. unfold parse_value in H.
  bind_inv H. destruct a as [open u1].
  destruct (token_consume_post _ _ _ _ Hs E) as [Hs1 _].
  apply token_consume_ahead in E; [|discriminate|assumption].
  destruct E as (Hin1 & _ & Hl1). destruct open as [t|].
  - bind_inv H. destruct a as [children u2]. injection H as <- <-.
    pose proof (IHlist _ _ _ Hs1 Hin1 E). cbn [val_un]. lia.
  - subst u1. bind_inv H. destruct a as [temp u2].
    destruct (token_consume_post _ _ _ _ Hs E) as [Hs2 Hnum].
    apply token_consume_ahead in E; [|discriminate|assumption].
    destruct E as (Hin2 & _ & Hl2). destruct temp as [t|].
    + injection H as <- <-. destruct Hnum as (_ & Hk & Hshape).
      destruct (number_token_value _ Hshape Hk) as [Hv Hkind].
      unfold value_shape in Hv.
      destruct (tok_value t) as [k [| | | |]]; simpl in *;
        destruct Hkind as [-> | ->]; try contradiction; lia.
    + subst u2. bind_inv H. destruct a as [temp u3].
      destruct (token_consume_post _ _ _ _ Hs E) as [_ Hstr].
      apply token_consume_ahead in E; [|discriminate|assumption].
      destruct E as (Hin3 & _ & Hl3). destruct temp as [t|]; injection H as <- <-.
      * destruct Hstr as (_ & Hk & Hshape).
        destruct (string_token_value _ Hshape Hk) as [str ->]. cbn. lia.
      * subst u3. cbn. lia.
Qed.

Lemma parse_count (fuel : nat) :
  (forall u n u', unit_shape u -> cursor_inside u -> parse_node fuel u = Ok (n, u') ->
     Z.of_nat (List.length (subnodes n)) <= ahead u - ahead u') /\
  (forall u l u', unit_shape u -> cursor_inside u -> parse_list fuel u = Ok (l, u') ->
     Z.of_nat (List.length (flat_map subnodes l)) <= ahead u - ahead u').
Proof.
  induction fuel as [|fuel [IHnode IHlist]]; [split; intros; discriminate|].
  split.
  - intros u n u' Hs Hin H. rewrite parse_node_unfold in H.
    bind_inv H. destruct a as [name u1]. bind_inv H. destruct a as [value u2].
    bind_inv H. destruct a as [note u3]. injection H as <- <-.
    destruct (token_expect_post _ _ _ _ Hs E) as (_ & _ & _ & Hs1).
    apply token_expect_ahead in E; [|discriminate|assumption].
    destruct E as (Hin1 & _ & Hless1).
    pose proof (parse_value_count fuel IHlist _ _ _ Hs1 Hin1 E0) as Hcount.
    assert (Hin2 : cursor_inside u2 /\ ahead u2 <= ahead u1).
    { unfold parse_value in E0.
      bind_inv E0. destruct a as [open v1].
      apply token_consume_ahead in E; [|discriminate|assumption].
      destruct E as (Hv1 & _ & Hl1). destruct open as [t|].
      - bind_inv E0. destruct a as [children v2]. injection E0 as _ <-.
        apply (proj2 (parse_ahead fuel)) in E; [|assumption].
        destruct E as (Hv2 & _ & Hl2). split; [assumption|lia].
      - subst v1. bind_inv E0. destruct a as [temp v2].
        apply token_consume_ahead in E; [|discriminate|assumption].
        destruct E as (Hv2 & _ & Hl2). destruct temp as [t|].
        + injection E0 as _ <-. split; [assumption|lia].
        + subst v2. bind_inv E0. destruct a as [temp v3].
          apply token_consume_ahead in E; [|discriminate|assumption].
          destruct E as (Hv3 & _ & Hl3). destruct temp as [t|]; injection E0 as _ <-.
          * split; [assumption|lia].
          * subst v3. split; [assumption|lia]. }
    destruct Hin2 as [Hin2 Hless2].
    apply parse_note_ahead in E1; [|assumption]. destruct E1 as (_ & _ & Hless3).
    cbn [subnodes node_value List.length].
    destruct (val_un value); cbn [List.length] in *; lia.
  - intros u l u' Hs Hin H. simpl in H.
    bind_inv H. destruct a as [close u1].
    destruct (token_consume_post _ _ _ _ Hs E) as [Hs1 _].
    apply token_consume_ahead in E; [|discriminate|assumption].
    destruct E as (Hin1 & _ & Hless1). destruct close as [t|].
    + injection H as <- <-. cbn. lia.
    + subst u1. bind_inv H. destruct a as [temp u2].
      destruct temp as [t|]; [discriminate|].
      assert (Hsame : u2 = u).
      { revert E. unfold token_consume. destruct (_ =? _).
        - intros E. bind_inv E. destruct a as [t1 v]. discriminate.
        - intros [= <-]. reflexivity. }
      subst u2. bind_inv H. destruct a as [child u3]. bind_inv H. destruct a as [rest u4].
      injection H as <- <-.
      pose proof (IHnode _ _ _ Hs Hin E0) as Hchild.
      destruct (proj1 (parse_shape fuel) _ _ _ Hs E0) as [Hs3 _].
      apply (proj1 (parse_ahead fuel)) in E0; [|assumption].
      destruct E0 as (Hin3 & _ & _).
      pose proof (IHlist _ _ _ Hs3 Hin3 E1) as Hrest.
      cbn [flat_map]. rewrite length_app. lia.
Qed.

(** X16.  A tree has no more nodes than its file has bytes: every node is
    made from a TEXT token of its own, at least one byte of the buffer, so
    what [y_load] allocates for nodes is bounded by the size of the file. *)
Theorem tree_is_no_larger_than_file (y : yctx_t) (file : list Z) (root : y_node_t)
        (y' : yctx_t) :
  y_load y file = Ok (root, y') ->
  (List.length (subnodes root) <= List.length file)%nat.
Proof.
  intros Hload. unfold y_load in Hload.
  bind_inv Hload. destruct a as [t u1]. bind_inv Hload. destruct a as [head u2].
  injection Hload as <- _.
  pose proof (lex_next_shape _ _ _ (unit_shape_fresh _ _ _) E) as Hs1.
  assert (Hstart : cursor_inside u1 /\ ahead u1 <= Z.of_nat (List.length file)).
  { destruct (lex_next_post _ _ _ E) as (_ & _ & Hcur).
    pose proof (lex_next_ahead _ _ _ E) as (Hin1 & Hsize1 & _).
    split; [exact Hin1|]. unfold ahead. rewrite Hcur.
    destruct (tok_kind t =? TOKEN_NONE) eqn:Hk; [lia|]. apply Z.eqb_neq in Hk.
    unfold lex_next in E. bind_inv E. destruct a as [t1 v1]. injection E as -> <-.
    apply lex_token_cursor in E1. destruct E1 as (Hsz & _ & _ & Hmove).
    specialize (Hmove Hk). cbn [unit_cursor set_tokens unit_of_file] in *.
    change (buffer_size (set_tokens v1 (unit_previous v1) t)) with (buffer_size v1).
    rewrite Hsz. unfold buffer_size. cbn [unit_data set_tokens unit_of_file]. lia. }
  destruct Hstart as [Hin1 Hahead].
  unfold parse_unit in E0. bind_inv E0. destruct a as [node u3].
  bind_inv E0. destruct a as [t2 u4]. injection E0 as <- _.
  pose proof (proj1 (parse_count _) _ _ _ Hs1 Hin1 E1) as Hcount.
  apply (proj1 (parse_ahead _)) in E1; [|assumption]. destruct E1 as (Hin3 & _ & _).
  pose proof (ahead_bound u3 Hin3). lia.
Qed.

Lemma tree_is_no_larger_than_file_witness :
  (List.length (subnodes (mk_node (bytes "a") []
                            (mk_value Y_NODE (U_node [mk_node (bytes "b") [] value_zero]))))
   <= List.length (bytes "a{b}"))%nat.
Proof.
  refine (tree_is_no_larger_than_file y_create (bytes "a{b}") _ _ _).
  vm_compute. reflexivity.
Defined.

(** * What a string holds *)

Lemma raw_skip_stop (fuel : nat) :
  forall (u : unit_t) (ch ch' : Z) (u' : unit_t),
    raw_skip fuel u ch = Ok (ch', u') ->
    exists c, deref u ch' = Ok c /\ (c = 0 \/ c = ch_newline).
Proof.
  induction fuel as [|fuel IH]; intros u ch ch' u' H; simpl in H; [discriminate|].
  bind_inv H. rename a into c.
  destruct ((c =? 0) || (c =? ch_newline)) eqn:Hstop.
  - injection H as <- <-. exists c. split; [exact E|].
    apply orb_true_iff in Hstop. destruct Hstop as [Hc|Hc]; apply Z.eqb_eq in Hc; auto.
  - apply IH in H. exact H.
Qed.

(** [raw] returns the byte under the cursor, or the end of a comment. *)
Lemma raw_cases (u : unit_t) (ch : Z) (u' : unit_t) :
  raw u = Ok (ch, u') ->
  (ch = unit_cursor u /\ u' = set_cursor u (unit_cursor u + 1)) \/
  (exists c, deref u' ch = Ok c /\ (c = 0 \/ c = ch_newline)).
Proof.
  unfold raw. intros H. bind_inv H. rename a into c.
  pose proof (deref_Ok _ _ _ E) as Hb. simpl in Hb.
  destruct (c =? ch_slash); [|injection H as <- <-; auto].
  bind_inv H. rename a into c1.
  destruct (c1 =? ch_slash); [|injection H as <- <-; auto].
  right. pose proof H as Hskip. apply raw_skip_post in Hskip; [|simpl; lia|lia].
  destruct Hskip as (_ & -> & _). apply raw_skip_stop in H. exact H.
Qed.

Lemma deref_zero_end (u : unit_t) (ch : Z) :
  ~ In 0 (unit_data u) -> deref u ch = Ok 0 -> ch = buffer_size u.
Proof.
  intros Hnz. unfold deref. destruct (ch <? 0); [discriminate|].
  destruct (nth_error (unit_data u) (Z.to_nat ch)) as [x|] eqn:Hx.
  - intros [= ->]. exfalso. apply Hnz. apply (nth_error_In _ _ Hx).
  - destruct (ch =? buffer_size u) eqn:Heq; [|discriminate].
    intros _. apply Z.eqb_eq. exact Heq.
Qed.

Lemma token_string_scan_past_end (fuel : nat) (u : unit_t) (r : Z * unit_t) :
  buffer_size u < unit_cursor u -> token_string_scan fuel u <> Ok r.
Proof.
  intros Hpast H. destruct fuel as [|fuel]; [discriminate|].
  cbn [token_string_scan] in H. bind_inv H. destruct a as [ch u1].
  unfold raw in E. bind_inv E. apply deref_Ok in E0.
  change (buffer_size (set_cursor u (unit_cursor u + 1))) with (buffer_size u) in E0.
  lia.
Qed.

Lemma token_string_scan_content (fuel : nat) :
  forall (u : unit_t) (ch : Z) (u' : unit_t),
    ~ In 0 (unit_data u) ->
    token_string_scan fuel u = Ok (ch, u') ->
    unit_data u' = unit_data u /\ unit_cursor u <= ch /\
    nth_error (unit_data u) (Z.to_nat ch) = Some ch_quote /\
    forall i, unit_cursor u <= i < ch ->
      exists x, nth_error (unit_data u) (Z.to_nat i) = Some x /\
                x <> ch_quote /\ x <> ch_newline /\ x <> 0.
Proof.
  induction fuel as [|fuel IH]; intros u ch u' Hnz H; simpl in H; [discriminate|].
  bind_inv H. destruct a as [ch1 u1]. bind_inv H. rename a into c.
  pose proof (commented_nonzero _ _ (raw_commented _ _ _ E) Hnz) as Hnz1.
  pose proof (raw_post _ _ _ E) as (Hge & Hcur & _).
  assert (Hend : c = 0 -> False).
  { intros ->. pose proof (deref_zero_end _ _ Hnz1 E0) as Hsize.
    change (0 =? ch_quote) with false in H. change (0 =? ch_newline) with false in H.
    apply (token_string_scan_past_end fuel u1 (ch, u')); [lia|exact H]. }
  destruct (raw_cases _ _ _ E) as [[-> ->]|(c' & Hc' & Hstop)].
  - destruct (c =? ch_quote) eqn:Hq.
    + injection H as <- <-. apply Z.eqb_eq in Hq. subst c.
      destruct (deref_nonzero _ _ _ E0) as [Hat _]; [discriminate|].
      split; [reflexivity|]. split; [lia|]. split; [exact Hat|]. intros i Hi. lia.
    + destruct (c =? ch_newline) eqn:Hnl; [discriminate|].
      apply Z.eqb_neq in Hq, Hnl.
      assert (Hz : c <> 0) by (intros Hc; apply Hend; exact Hc).
      destruct (deref_nonzero _ _ _ E0 Hz) as [Hat _].
      apply (IH _ _ _ Hnz1) in H. destruct H as (Hd & Hle & Hquote & Hrun).
      cbn [unit_data unit_cursor set_cursor] in *.
      split; [exact Hd|]. split; [lia|]. split; [exact Hquote|].
      intros i Hi. destruct (Z.eq_dec i (unit_cursor u)) as [->|Hne].
      * exists c. auto.
      * apply Hrun. lia.
  - exfalso. rewrite Hc' in E0. injection E0 as <-.
    destruct Hstop as [->| ->]; [apply Hend; reflexivity|discriminate].
Qed.

(** X17.  A string has no escapes: in a buffer without zero bytes, a STRING
    token the lexer returns spans the bytes between an opening quote and the
    first quote behind it, its value is those bytes as they stand, and none
    of them is a double quote or a newline; the cursor is left behind the
    closing quote. *)
Theorem string_tokens_are_raw_bytes (u : unit_t) (t : token_t) (u' : unit_t) :
  ~ In 0 (unit_data u) -> lex_token u = Ok (t, u') -> tok_kind t = TOKEN_STRING ->
  exists b e,
    src_begin (tok_source t) = Some b /\ src_end (tok_source t) = Some e /\
    1 <= b <= e /\ unit_cursor u' = e + 1 /\
    nth_error (unit_data u') (Z.to_nat (b - 1)) = Some ch_quote /\
    nth_error (unit_data u') (Z.to_nat e) = Some ch_quote /\
    tok_value t = mk_value Y_STRING (U_string (slice (unit_data u') b e)) /\
    Forall (fun c => c <> ch_quote /\ c <> ch_newline /\ c <> 0)
           (slice (unit_data u') b e).
Proof.
  intros Hnz H. revert H. unfold lex_token.
  destruct (unit_cursor u >? unit_length u); [intros [= <- _] Hk; discriminate|].
  intros H. bind_inv H. destruct a as [ch u1]. bind_inv H. rename a into c.
  pose proof (commented_nonzero _ _ (next_from_commented _ _ _ _ E) Hnz) as Hnz1.
  apply next_from_post in E. destruct E as (Hge & Hcur & _).
  destruct (c =? 0) eqn:Hc0; [injection H as <- _; intros Hk; discriminate|].
  destruct ((c =? ch_open) || (c =? ch_close) || (c =? ch_at)) eqn:Hstruct.
  { injection H as <- _. intros Hk. cbn [tok_kind token_new] in Hk. subst c.
    discriminate. }
  destruct (c =? ch_quote) eqn:Hq.
  - intros _. apply Z.eqb_eq in Hq. subst c.
    destruct (deref_nonzero _ _ _ E0) as [Hat _]; [discriminate|].
    unfold token_string in H. bind_inv H. destruct a as [ch2 u2].
    injection H as <- <-.
    pose proof (token_string_scan_post _ _ _ _ E) as (_ & Hcur2 & _).
    apply (token_string_scan_content _ _ _ _ Hnz1) in E.
    destruct E as (Hd & Hle & Hquote & Hrun). rewrite Hcur in *.
    exists (ch + 1), ch2.
    cbn [tok_source tok_value token_new source src_begin src_end].
    change ((TOKEN_STRING =? TOKEN_TEXT) || (TOKEN_STRING =? TOKEN_STRING)) with true.
    cbn iota. rewrite Hd. replace (ch + 1 - 1) with ch by lia.
    split; [reflexivity|]. split; [reflexivity|]. split; [lia|].
    split; [exact Hcur2|]. split; [exact Hat|]. split; [exact Hquote|].
    split; [reflexivity|]. apply slice_Forall; [lia|].
    intros i Hi. destruct (Hrun i Hi) as (x & Hx & Hxq & Hxn & Hxz). exists x. auto.
  - destruct (isalpha c || (c =? ch_underscore)).
    { unfold token_text in H. bind_inv H. injection H as <- _. intros Hk. discriminate. }
    destruct (isdigit c); [|discriminate].
    unfold token_number in H. bind_inv H. destruct a as [number u2].
    destruct number; try destruct (strtoull _); injection H as <- _; intros Hk;
      discriminate.
Qed.

Lemma string_tokens_are_raw_bytes_witness :
  exists b e,
    Some 1 = Some b /\ Some 4 = Some e /\ 1 <= b <= e /\ 5 = e + 1 /\
    nth_error (quoted (bytes "a b")) (Z.to_nat (b - 1)) = Some ch_quote /\
    nth_error (quoted (bytes "a b")) (Z.to_nat e) = Some ch_quote /\
    (mk_value Y_STRING (U_string (bytes "a b")) : y_value_t)
    = mk_value Y_STRING (U_string (slice (quoted (bytes "a b")) b e)) /\
    Forall (fun c => c <> ch_quote /\ c <> ch_newline /\ c <> 0)
           (slice (quoted (bytes "a b")) b e).
Proof.
  refine (string_tokens_are_raw_bytes
            (unit_of_file (quoted (bytes "a b")))
            (mk_token TOKEN_STRING (mk_source 0 (Some 0) (Some 1) (Some 4))
                      (mk_value Y_STRING (U_string (bytes "a b"))))
            (set_cursor (unit_of_file (quoted (bytes "a b"))) 5) _ _ _).
  - vm_compute. intuition discriminate.
  - vm_compute. reflexivity.
  - reflexivity.
Defined.
